(** * Storage layer of the token optimizer: TTL cache and history store

    A shallow embedding of the two storage components of the application,
    [SimpleCache] (a bounded cache with time-based expiry that persists
    itself through [localStorage]) and the history store ([saveComparison],
    [getHistory] and friends), and of [hashString], which makes the keys of
    the cache, followed by the properties established for them.

    Conventions of the embedding.
    - JavaScript numbers that the code uses as instants, durations, sizes and
      counts are integers of [Z]; [Infinity] is an absent bound.
    - A string is the sequence of its UTF-8 bytes.  [trim] and [toLowerCase]
      work on the characters that these bytes encode, with the white space of
      ECMAScript and the lower-case mapping of Unicode.
    - [localStorage] is an adapter whose calls can raise.  Which call raises
      what is given by an [Adapter], indexed by the number of calls made so
      far, so that every behaviour of the real adapter is an instance.
    - Code that can raise runs in a state-and-exception monad; [try]/[catch]
      is [tryCatch].
    - [Date.now()] and [Math.random()] are arguments of the public
      operations: one instant per call.
    - [hashString] reads a text by its UTF-16 code units, which it is given
      as a list of integers. *)

From Stdlib Require Import ZArith String Ascii DecimalString Bool List Lia.
From Stdlib Require Import Permutation Sorted.
Import ListNotations.

Open Scope string_scope.
Open Scope list_scope.
Open Scope Z_scope.

(** ** Platform strings *)

Module Js.

(** *** Characters

    A text is held as its UTF-8 bytes, and the string functions of the
    platform work on its characters (code points).  [chars] cuts a well-formed
    byte sequence into its characters (Unicode, table 3-7); bytes that encode
    no text have no characters, and the functions below leave them as they
    are. *)

Definition byte (a : ascii) : Z := Z.of_N (N_of_ascii a).

Definition inside (lo hi : Z) (a : ascii) : bool :=
  (lo <=? byte a) && (byte a <=? hi).

Definition continuation : ascii -> bool := inside 128 191.

(** Number of bytes announced by a leading byte, [0] for a byte that leads
    nothing. *)
Definition width (a : ascii) : nat :=
  if byte a <? 128 then 1
  else if inside 194 223 a then 2
  else if inside 224 239 a then 3
  else if inside 240 244 a then 4
  else 0.

(** The second byte allowed after the leading byte [a]. *)
Definition second (a b : ascii) : bool :=
  if byte a =? 224 then inside 160 191 b
  else if byte a =? 237 then inside 128 159 b
  else if byte a =? 240 then inside 144 191 b
  else if byte a =? 244 then inside 128 143 b
  else continuation b.

Definition isChar (c : string) : bool :=
  match c with
  | EmptyString => false
  | String a t =>
      match width a, t with
      | 1%nat, EmptyString => true
      | 2%nat, String b EmptyString => second a b
      | 3%nat, String b (String c EmptyString) => second a b && continuation c
      | 4%nat, String b (String c (String d EmptyString)) =>
          second a b && continuation c && continuation d
      | _, _ => false
      end
  end.

Definition andThen (c : string) (rest : option (list string))
  : option (list string) :=
  option_map (cons c) rest.

Fixpoint chars (s : string) : option (list string) :=
  match s with
  | EmptyString => Some []
  | String a r1 =>
      match width a, r1 with
      | 1%nat, _ => andThen (String a EmptyString) (chars r1)
      | 2%nat, String b r2 =>
          if second a b
          then andThen (String a (String b EmptyString)) (chars r2)
          else None
      | 3%nat, String b (String c r3) =>
          if second a b && continuation c
          then andThen (String a (String b (String c EmptyString))) (chars r3)
          else None
      | 4%nat, String b (String c (String d r4)) =>
          if second a b && continuation c && continuation d
          then andThen (String a (String b (String c (String d EmptyString))))
                       (chars r4)
          else None
      | _, _ => None
      end
  end.

Definition join (cs : list string) : string :=
  fold_right String.append EmptyString cs.

(** The code point of a character. *)
Definition codePoint (c : string) : Z :=
  match map byte (list_ascii_of_string c) with
  | [a] => a
  | [a; b] => (a - 192) * 64 + (b - 128)
  | [a; b; c] => (a - 224) * 4096 + (b - 128) * 64 + (c - 128)
  | [a; b; c; d] =>
      (a - 240) * 262144 + (b - 128) * 4096 + (c - 128) * 64 + (d - 128)
  | _ => -1
  end.

Definition ofByte (z : Z) : ascii := ascii_of_N (Z.to_N z).

(** [String.fromCodePoint] of one code point. *)
Definition fromCodePoint (z : Z) : string :=
  if z <? 128 then String (ofByte z) EmptyString
  else if z <? 2048 then
    String (ofByte (192 + z / 64)) (String (ofByte (128 + z mod 64)) EmptyString)
  else if z <? 65536 then
    String (ofByte (224 + z / 4096))
      (String (ofByte (128 + (z / 64) mod 64))
         (String (ofByte (128 + z mod 64)) EmptyString))
  else
    String (ofByte (240 + z / 262144))
      (String (ofByte (128 + (z / 4096) mod 64))
         (String (ofByte (128 + (z / 64) mod 64))
            (String (ofByte (128 + z mod 64)) EmptyString))).

(** [String.fromCodePoint(...points)] *)
Definition text (points : list Z) : string := join (map fromCodePoint points).

(** *** [String.prototype.trim]

    The white space and the line terminators of ECMAScript: TAB, LF, VT, FF,
    CR, SPACE, NO-BREAK SPACE, the other space separators (Zs) of Unicode,
    LINE SEPARATOR, PARAGRAPH SEPARATOR and ZERO WIDTH NO-BREAK SPACE. *)
Definition whiteSpace : list Z :=
  [9; 10; 11; 12; 13; 32; 160; 5760; 8192; 8193; 8194; 8195; 8196; 8197; 8198;
   8199; 8200; 8201; 8202; 8232; 8233; 8239; 8287; 12288; 65279].

Definition isWhitespace (c : string) : bool :=
  existsb (Z.eqb (codePoint c)) whiteSpace.

(** A character other than white space. *)
Definition nonWhite (c : string) : bool := isChar c && negb (isWhitespace c).

Fixpoint trimStart (cs : list string) : list string :=
  match cs with
  | [] => []
  | c :: cs' => if isWhitespace c then trimStart cs' else cs
  end.

Fixpoint trimEnd (cs : list string) : list string :=
  match cs with
  | [] => []
  | c :: cs' =>
      match trimEnd cs' with
      | [] => if isWhitespace c then [] else [c]
      | r => c :: r
      end
  end.

Definition trim (s : string) : string :=
  match chars s with
  | Some cs => join (trimEnd (trimStart cs))
  | None => s
  end.

(** *** [String.prototype.toLowerCase]

    The lower-case mapping of Unicode 14, which does not depend on the
    locale.  [lowerCase] lists the code points that change, as progressions
    (first, last, step, shift): every [step]-th code point from [first] to
    [last] maps to itself plus [shift].  Two code points have a mapping of
    their own: U+0130 maps to U+0069 U+0307, and U+03A3 (capital sigma) maps
    to U+03C2 (final sigma) at the end of a word and to U+03C3 elsewhere.
    The end of a word is the context Final_Sigma, which [caseIgnorable] and
    [casedLetter] decide. *)
Definition lowerCase : list (Z * Z * Z * Z) :=
  [(65, 90, 1, 32); (192, 214, 1, 32); (216, 222, 1, 32); (256, 302, 2, 1);
   (306, 310, 2, 1); (313, 327, 2, 1); (330, 374, 2, 1); (376, 376, 1, -121);
   (377, 381, 2, 1); (385, 385, 1, 210); (386, 388, 2, 1); (390, 390, 1, 206);
   (391, 391, 1, 1); (393, 394, 1, 205); (395, 395, 1, 1); (398, 398, 1, 79);
   (399, 399, 1, 202); (400, 400, 1, 203); (401, 401, 1, 1);
   (403, 403, 1, 205); (404, 404, 1, 207); (406, 406, 1, 211);
   (407, 407, 1, 209); (408, 408, 1, 1); (412, 412, 1, 211);
   (413, 413, 1, 213); (415, 415, 1, 214); (416, 420, 2, 1);
   (422, 422, 1, 218); (423, 423, 1, 1); (425, 425, 1, 218); (428, 428, 1, 1);
   (430, 430, 1, 218); (431, 431, 1, 1); (433, 434, 1, 217); (435, 437, 2, 1);
   (439, 439, 1, 219); (440, 440, 1, 1); (444, 444, 1, 1); (452, 452, 1, 2);
   (453, 453, 1, 1); (455, 455, 1, 2); (456, 456, 1, 1); (458, 458, 1, 2);
   (459, 475, 2, 1); (478, 494, 2, 1); (497, 497, 1, 2); (498, 500, 2, 1);
   (502, 502, 1, -97); (503, 503, 1, -56); (504, 542, 2, 1);
   (544, 544, 1, -130); (546, 562, 2, 1); (570, 570, 1, 10795);
   (571, 571, 1, 1); (573, 573, 1, -163); (574, 574, 1, 10792);
   (577, 577, 1, 1); (579, 579, 1, -195); (580, 580, 1, 69);
   (581, 581, 1, 71); (582, 590, 2, 1); (880, 882, 2, 1); (886, 886, 1, 1);
   (895, 895, 1, 116); (902, 902, 1, 38); (904, 906, 1, 37);
   (908, 908, 1, 64); (910, 911, 1, 63); (913, 929, 1, 32); (931, 939, 1, 32);
   (975, 975, 1, 8); (984, 1006, 2, 1); (1012, 1012, 1, -60);
   (1015, 1015, 1, 1); (1017, 1017, 1, -7); (1018, 1018, 1, 1);
   (1021, 1023, 1, -130); (1024, 1039, 1, 80); (1040, 1071, 1, 32);
   (1120, 1152, 2, 1); (1162, 1214, 2, 1); (1216, 1216, 1, 15);
   (1217, 1229, 2, 1); (1232, 1326, 2, 1); (1329, 1366, 1, 48);
   (4256, 4293, 1, 7264); (4295, 4295, 1, 7264); (4301, 4301, 1, 7264);
   (5024, 5103, 1, 38864); (5104, 5109, 1, 8); (7312, 7354, 1, -3008);
   (7357, 7359, 1, -3008); (7680, 7828, 2, 1); (7838, 7838, 1, -7615);
   (7840, 7934, 2, 1); (7944, 7951, 1, -8); (7960, 7965, 1, -8);
   (7976, 7983, 1, -8); (7992, 7999, 1, -8); (8008, 8013, 1, -8);
   (8025, 8031, 2, -8); (8040, 8047, 1, -8); (8072, 8079, 1, -8);
   (8088, 8095, 1, -8); (8104, 8111, 1, -8); (8120, 8121, 1, -8);
   (8122, 8123, 1, -74); (8124, 8124, 1, -9); (8136, 8139, 1, -86);
   (8140, 8140, 1, -9); (8152, 8153, 1, -8); (8154, 8155, 1, -100);
   (8168, 8169, 1, -8); (8170, 8171, 1, -112); (8172, 8172, 1, -7);
   (8184, 8185, 1, -128); (8186, 8187, 1, -126); (8188, 8188, 1, -9);
   (8486, 8486, 1, -7517); (8490, 8490, 1, -8383); (8491, 8491, 1, -8262);
   (8498, 8498, 1, 28); (8544, 8559, 1, 16); (8579, 8579, 1, 1);
   (9398, 9423, 1, 26); (11264, 11311, 1, 48); (11360, 11360, 1, 1);
   (11362, 11362, 1, -10743); (11363, 11363, 1, -3814);
   (11364, 11364, 1, -10727); (11367, 11371, 2, 1); (11373, 11373, 1, -10780);
   (11374, 11374, 1, -10749); (11375, 11375, 1, -10783);
   (11376, 11376, 1, -10782); (11378, 11378, 1, 1); (11381, 11381, 1, 1);
   (11390, 11391, 1, -10815); (11392, 11490, 2, 1); (11499, 11501, 2, 1);
   (11506, 11506, 1, 1); (42560, 42604, 2, 1); (42624, 42650, 2, 1);
   (42786, 42798, 2, 1); (42802, 42862, 2, 1); (42873, 42875, 2, 1);
   (42877, 42877, 1, -35332); (42878, 42886, 2, 1); (42891, 42891, 1, 1);
   (42893, 42893, 1, -42280); (42896, 42898, 2, 1); (42902, 42920, 2, 1);
   (42922, 42922, 1, -42308); (42923, 42923, 1, -42319);
   (42924, 42924, 1, -42315); (42925, 42925, 1, -42305);
   (42926, 42926, 1, -42308); (42928, 42928, 1, -42258);
   (42929, 42929, 1, -42282); (42930, 42930, 1, -42261);
   (42931, 42931, 1, 928); (42932, 42946, 2, 1); (42948, 42948, 1, -48);
   (42949, 42949, 1, -42307); (42950, 42950, 1, -35384); (42951, 42953, 2, 1);
   (42960, 42960, 1, 1); (42966, 42968, 2, 1); (42997, 42997, 1, 1);
   (65313, 65338, 1, 32); (66560, 66599, 1, 40); (66736, 66771, 1, 40);
   (66928, 66938, 1, 39); (66940, 66954, 1, 39); (66956, 66962, 1, 39);
   (66964, 66965, 1, 39); (68736, 68786, 1, 64); (71840, 71871, 1, 32);
   (93760, 93791, 1, 32); (125184, 125217, 1, 34)].

Definition caseIgnorable : list (Z * Z) :=
  [(39, 39); (46, 46); (58, 58); (94, 94); (96, 96); (168, 168); (173, 173);
   (175, 175); (180, 180); (183, 184); (688, 879); (884, 885); (890, 890);
   (900, 901); (903, 903); (1155, 1161); (1369, 1369); (1375, 1375);
   (1425, 1469); (1471, 1471); (1473, 1474); (1476, 1477); (1479, 1479);
   (1524, 1524); (1536, 1541); (1552, 1562); (1564, 1564); (1600, 1600);
   (1611, 1631); (1648, 1648); (1750, 1757); (1759, 1768); (1770, 1773);
   (1807, 1807); (1809, 1809); (1840, 1866); (1958, 1968); (2027, 2037);
   (2042, 2042); (2045, 2045); (2070, 2093); (2137, 2139); (2184, 2184);
   (2192, 2193); (2200, 2207); (2249, 2306); (2362, 2362); (2364, 2364);
   (2369, 2376); (2381, 2381); (2385, 2391); (2402, 2403); (2417, 2417);
   (2433, 2433); (2492, 2492); (2497, 2500); (2509, 2509); (2530, 2531);
   (2558, 2558); (2561, 2562); (2620, 2620); (2625, 2626); (2631, 2632);
   (2635, 2637); (2641, 2641); (2672, 2673); (2677, 2677); (2689, 2690);
   (2748, 2748); (2753, 2757); (2759, 2760); (2765, 2765); (2786, 2787);
   (2810, 2815); (2817, 2817); (2876, 2876); (2879, 2879); (2881, 2884);
   (2893, 2893); (2901, 2902); (2914, 2915); (2946, 2946); (3008, 3008);
   (3021, 3021); (3072, 3072); (3076, 3076); (3132, 3132); (3134, 3136);
   (3142, 3144); (3146, 3149); (3157, 3158); (3170, 3171); (3201, 3201);
   (3260, 3260); (3263, 3263); (3270, 3270); (3276, 3277); (3298, 3299);
   (3328, 3329); (3387, 3388); (3393, 3396); (3405, 3405); (3426, 3427);
   (3457, 3457); (3530, 3530); (3538, 3540); (3542, 3542); (3633, 3633);
   (3636, 3642); (3654, 3662); (3761, 3761); (3764, 3772); (3782, 3782);
   (3784, 3789); (3864, 3865); (3893, 3893); (3895, 3895); (3897, 3897);
   (3953, 3966); (3968, 3972); (3974, 3975); (3981, 3991); (3993, 4028);
   (4038, 4038); (4141, 4144); (4146, 4151); (4153, 4154); (4157, 4158);
   (4184, 4185); (4190, 4192); (4209, 4212); (4226, 4226); (4229, 4230);
   (4237, 4237); (4253, 4253); (4348, 4348); (4957, 4959); (5906, 5908);
   (5938, 5939); (5970, 5971); (6002, 6003); (6068, 6069); (6071, 6077);
   (6086, 6086); (6089, 6099); (6103, 6103); (6109, 6109); (6155, 6159);
   (6211, 6211); (6277, 6278); (6313, 6313); (6432, 6434); (6439, 6440);
   (6450, 6450); (6457, 6459); (6679, 6680); (6683, 6683); (6742, 6742);
   (6744, 6750); (6752, 6752); (6754, 6754); (6757, 6764); (6771, 6780);
   (6783, 6783); (6823, 6823); (6832, 6862); (6912, 6915); (6964, 6964);
   (6966, 6970); (6972, 6972); (6978, 6978); (7019, 7027); (7040, 7041);
   (7074, 7077); (7080, 7081); (7083, 7085); (7142, 7142); (7144, 7145);
   (7149, 7149); (7151, 7153); (7212, 7219); (7222, 7223); (7288, 7293);
   (7376, 7378); (7380, 7392); (7394, 7400); (7405, 7405); (7412, 7412);
   (7416, 7417); (7468, 7530); (7544, 7544); (7579, 7679); (8125, 8125);
   (8127, 8129); (8141, 8143); (8157, 8159); (8173, 8175); (8189, 8190);
   (8203, 8207); (8216, 8217); (8228, 8228); (8231, 8231); (8234, 8238);
   (8288, 8292); (8294, 8303); (8305, 8305); (8319, 8319); (8336, 8348);
   (8400, 8432); (11388, 11389); (11503, 11505); (11631, 11631);
   (11647, 11647); (11744, 11775); (11823, 11823); (12293, 12293);
   (12330, 12333); (12337, 12341); (12347, 12347); (12441, 12446);
   (12540, 12542); (40981, 40981); (42232, 42237); (42508, 42508);
   (42607, 42610); (42612, 42621); (42623, 42623); (42652, 42655);
   (42736, 42737); (42752, 42785); (42864, 42864); (42888, 42890);
   (42994, 42996); (43000, 43001); (43010, 43010); (43014, 43014);
   (43019, 43019); (43045, 43046); (43052, 43052); (43204, 43205);
   (43232, 43249); (43263, 43263); (43302, 43309); (43335, 43345);
   (43392, 43394); (43443, 43443); (43446, 43449); (43452, 43453);
   (43471, 43471); (43493, 43494); (43561, 43566); (43569, 43570);
   (43573, 43574); (43587, 43587); (43596, 43596); (43632, 43632);
   (43644, 43644); (43696, 43696); (43698, 43700); (43703, 43704);
   (43710, 43711); (43713, 43713); (43741, 43741); (43756, 43757);
   (43763, 43764); (43766, 43766); (43867, 43871); (43881, 43883);
   (44005, 44005); (44008, 44008); (44013, 44013); (64286, 64286);
   (64434, 64450); (65024, 65039); (65043, 65043); (65056, 65071);
   (65106, 65106); (65109, 65109); (65279, 65279); (65287, 65287);
   (65294, 65294); (65306, 65306); (65342, 65342); (65344, 65344);
   (65392, 65392); (65438, 65439); (65507, 65507); (65529, 65531);
   (66045, 66045); (66272, 66272); (66422, 66426); (67456, 67461);
   (67463, 67504); (67506, 67514); (68097, 68099); (68101, 68102);
   (68108, 68111); (68152, 68154); (68159, 68159); (68325, 68326);
   (68900, 68903); (69291, 69292); (69446, 69456); (69506, 69509);
   (69633, 69633); (69688, 69702); (69744, 69744); (69747, 69748);
   (69759, 69761); (69811, 69814); (69817, 69818); (69821, 69821);
   (69826, 69826); (69837, 69837); (69888, 69890); (69927, 69931);
   (69933, 69940); (70003, 70003); (70016, 70017); (70070, 70078);
   (70089, 70092); (70095, 70095); (70191, 70193); (70196, 70196);
   (70198, 70199); (70206, 70206); (70367, 70367); (70371, 70378);
   (70400, 70401); (70459, 70460); (70464, 70464); (70502, 70508);
   (70512, 70516); (70712, 70719); (70722, 70724); (70726, 70726);
   (70750, 70750); (70835, 70840); (70842, 70842); (70847, 70848);
   (70850, 70851); (71090, 71093); (71100, 71101); (71103, 71104);
   (71132, 71133); (71219, 71226); (71229, 71229); (71231, 71232);
   (71339, 71339); (71341, 71341); (71344, 71349); (71351, 71351);
   (71453, 71455); (71458, 71461); (71463, 71467); (71727, 71735);
   (71737, 71738); (71995, 71996); (71998, 71998); (72003, 72003);
   (72148, 72151); (72154, 72155); (72160, 72160); (72193, 72202);
   (72243, 72248); (72251, 72254); (72263, 72263); (72273, 72278);
   (72281, 72283); (72330, 72342); (72344, 72345); (72752, 72758);
   (72760, 72765); (72767, 72767); (72850, 72871); (72874, 72880);
   (72882, 72883); (72885, 72886); (73009, 73014); (73018, 73018);
   (73020, 73021); (73023, 73029); (73031, 73031); (73104, 73105);
   (73109, 73109); (73111, 73111); (73459, 73460); (78896, 78904);
   (92912, 92916); (92976, 92982); (92992, 92995); (94031, 94031);
   (94095, 94111); (94176, 94177); (94179, 94180); (110576, 110579);
   (110581, 110587); (110589, 110590); (113821, 113822); (113824, 113827);
   (118528, 118573); (118576, 118598); (119143, 119145); (119155, 119170);
   (119173, 119179); (119210, 119213); (119362, 119364); (121344, 121398);
   (121403, 121452); (121461, 121461); (121476, 121476); (121499, 121503);
   (121505, 121519); (122880, 122886); (122888, 122904); (122907, 122913);
   (122915, 122916); (122918, 122922); (123184, 123197); (123566, 123566);
   (123628, 123631); (125136, 125142); (125252, 125259); (127995, 127999);
   (917505, 917505); (917536, 917631); (917760, 917999)].

Definition casedLetter : list (Z * Z) :=
  [(65, 90); (97, 122); (170, 170); (181, 181); (186, 186); (192, 214);
   (216, 246); (248, 442); (444, 447); (452, 659); (661, 687); (880, 883);
   (886, 887); (891, 893); (895, 895); (902, 902); (904, 906); (908, 908);
   (910, 929); (931, 1013); (1015, 1153); (1162, 1327); (1329, 1366);
   (1376, 1416); (4256, 4293); (4295, 4295); (4301, 4301); (4304, 4346);
   (4349, 4351); (5024, 5109); (5112, 5117); (7296, 7304); (7312, 7354);
   (7357, 7359); (7424, 7467); (7531, 7543); (7545, 7578); (7680, 7957);
   (7960, 7965); (7968, 8005); (8008, 8013); (8016, 8023); (8025, 8025);
   (8027, 8027); (8029, 8029); (8031, 8061); (8064, 8116); (8118, 8124);
   (8126, 8126); (8130, 8132); (8134, 8140); (8144, 8147); (8150, 8155);
   (8160, 8172); (8178, 8180); (8182, 8188); (8450, 8450); (8455, 8455);
   (8458, 8467); (8469, 8469); (8473, 8477); (8484, 8484); (8486, 8486);
   (8488, 8488); (8490, 8493); (8495, 8500); (8505, 8505); (8508, 8511);
   (8517, 8521); (8526, 8526); (8544, 8575); (8579, 8580); (9398, 9449);
   (11264, 11387); (11390, 11492); (11499, 11502); (11506, 11507);
   (11520, 11557); (11559, 11559); (11565, 11565); (42560, 42605);
   (42624, 42651); (42786, 42863); (42865, 42887); (42891, 42894);
   (42896, 42954); (42960, 42961); (42963, 42963); (42965, 42969);
   (42997, 42998); (43002, 43002); (43824, 43866); (43872, 43880);
   (43888, 43967); (64256, 64262); (64275, 64279); (65313, 65338);
   (65345, 65370); (66560, 66639); (66736, 66771); (66776, 66811);
   (66928, 66938); (66940, 66954); (66956, 66962); (66964, 66965);
   (66967, 66977); (66979, 66993); (66995, 67001); (67003, 67004);
   (68736, 68786); (68800, 68850); (71840, 71903); (93760, 93823);
   (119808, 119892); (119894, 119964); (119966, 119967); (119970, 119970);
   (119973, 119974); (119977, 119980); (119982, 119993); (119995, 119995);
   (119997, 120003); (120005, 120069); (120071, 120074); (120077, 120084);
   (120086, 120092); (120094, 120121); (120123, 120126); (120128, 120132);
   (120134, 120134); (120138, 120144); (120146, 120485); (120488, 120512);
   (120514, 120538); (120540, 120570); (120572, 120596); (120598, 120628);
   (120630, 120654); (120656, 120686); (120688, 120712); (120714, 120744);
   (120746, 120770); (120772, 120779); (122624, 122633); (122635, 122654);
   (125184, 125251); (127280, 127305); (127312, 127337); (127344, 127369)].

Definition within (z : Z) (r : Z * Z) : bool := (fst r <=? z) && (z <=? snd r).

(** Case_Ignorable. *)
Definition isCaseIgnorable (c : string) : bool :=
  existsb (within (codePoint c)) caseIgnorable.

(** Cased, for a character that is not case-ignorable. *)
Definition isCased (c : string) : bool :=
  existsb (within (codePoint c)) casedLetter.

Definition maps (z : Z) (row : Z * Z * Z * Z) : bool :=
  let '(first, last, step, _) := row in
  (first <=? z) && (z <=? last) && ((z - first) mod step =? 0).

Definition shift (row : Z * Z * Z * Z) : Z := snd row.

(** The lower-case form of a character out of context. *)
Definition lowerChar (c : string) : list string :=
  let z := codePoint c in
  if z =? 304 then [fromCodePoint 105; fromCodePoint 775]
  else match find (maps z) lowerCase with
       | Some row => [fromCodePoint (z + shift row)]
       | None => [c]
       end.

(** The second half of Final_Sigma: what follows is not a cased letter,
    case-ignorable characters skipped. *)
Fixpoint endsWord (cs : list string) : bool :=
  match cs with
  | [] => true
  | c :: cs' => if isCaseIgnorable c then endsWord cs' else negb (isCased c)
  end.

(** [inWord] is the first half of Final_Sigma: what precedes is a cased
    letter, case-ignorable characters skipped. *)
Fixpoint lowerChars (inWord : bool) (cs : list string) : list string :=
  match cs with
  | [] => []
  | c :: cs' =>
      (if (codePoint c =? 931) && inWord && endsWord cs'
       then [fromCodePoint 962]
       else lowerChar c)
      ++ lowerChars (if isCaseIgnorable c then inWord else isCased c) cs'
  end.

Definition toLowerCase (s : string) : string :=
  match chars s with
  | Some cs => join (lowerChars false cs)
  | None => s
  end.

(** [s.includes(q)] *)
Fixpoint includes (s q : string) : bool :=
  prefix q s ||
  match s with
  | EmptyString => false
  | String _ s' => includes s' q
  end.

(** A string is falsy exactly when it is empty. *)
Definition isEmpty (s : string) : bool :=
  match s with EmptyString => true | _ => false end.

(** Decimal rendering of an integer, as in a template literal or in JSON. *)
Definition decimal (z : Z) : string := NilZero.string_of_int (Z.to_int z).

Definition strlen (s : string) : Z := Z.of_nat (String.length s).

End Js.

(** ** Exceptions, the adapter and the monad *)

Module Eff.

(** What a call can raise: a [DOMException] with its legacy code and its
    name, or anything else ([TypeError], [SyntaxError], [SecurityError]
    raised as a plain error, ...). *)
Inductive exn : Type :=
| DOMException (code : Z) (name : string)
| OtherError.

(** The exception a conforming browser raises when the quota is exhausted. *)
Definition QuotaExceeded : exn := DOMException 22 "QuotaExceededError".

Inductive res (A : Type) : Type :=
| Ret (a : A)
| Throw (e : exn).
Arguments Ret {A} a.
Arguments Throw {A} e.

(** The behaviour of [localStorage]: for the [n]-th call made to it, the
    exception it raises, if any, according to the kind of call. *)
Record Adapter : Type := {
  onGet : nat -> option exn;      (* getItem *)
  onSet : nat -> option exn;      (* setItem *)
  onRemove : nat -> option exn;   (* removeItem *)
  onKeys : nat -> option exn      (* length / key(i) *)
}.

(** A computation over a world [W] that returns an [A] or raises. *)
Definition M (W A : Type) : Type := W -> res A * W.

Definition ret {W A} (a : A) : M W A := fun w => (Ret a, w).

Definition bind {W A B} (m : M W A) (k : A -> M W B) : M W B :=
  fun w => match m w with
           | (Ret a, w') => k a w'
           | (Throw e, w') => (Throw e, w')
           end.

Definition throw {W A} (e : exn) : M W A := fun w => (Throw e, w).

Definition tryCatch {W A} (m : M W A) (h : exn -> M W A) : M W A :=
  fun w => match m w with
           | (Ret a, w') => (Ret a, w')
           | (Throw e, w') => h e w'
           end.

Definition getW {W} : M W W := fun w => (Ret w, w).

Definition modifyW {W} (f : W -> W) : M W unit := fun w => (Ret tt, f w).

Definition when {W} (b : bool) (m : M W unit) : M W unit :=
  if b then m else ret tt.

(** An adapter that accepts every call. *)
Definition accepting (a : Adapter) : Prop :=
  forall n, onGet a n = None /\ onSet a n = None
            /\ onRemove a n = None /\ onKeys a n = None.

(** An adapter whose [setItem] always raises an exception that [isQuota]
    recognizes. *)
Definition refusing (isQuota : exn -> bool) (a : Adapter) : Prop :=
  forall n, exists e, onSet a n = Some e /\ isQuota e = true.

(** The call returned: no exception reached the caller. *)
Definition returns {W A} (m : M W A) (w : W) : Prop :=
  exists a w', m w = (Ret a, w').

(** The call returns from every world. *)
Definition total {W A} (m : M W A) : Prop := forall w, returns m w.

End Eff.

Import Eff.

Declare Scope eff_scope.
Delimit Scope eff_scope with eff.
Notation "x <- m ;; k" := (bind m (fun x => k))
  (at level 61, m at next level, right associativity) : eff_scope.
Notation "m ;; k" := (bind m (fun _ => k))
  (at level 61, right associativity) : eff_scope.
Open Scope eff_scope.

(** ** The insertion-ordered [Map] with string keys *)

Module JsMap.

Section Map.

Variable V : Type.

Definition t : Type := list (string * V).

Fixpoint get (k : string) (m : t) : option V :=
  match m with
  | [] => None
  | (k', v) :: r => if String.eqb k k' then Some v else get k r
  end.

(** [Map.prototype.set]: an existing key keeps its place, a new one goes
    last. *)
Fixpoint set (k : string) (v : V) (m : t) : t :=
  match m with
  | [] => [(k, v)]
  | (k', v') :: r => if String.eqb k k' then (k, v) :: r else (k', v') :: set k v r
  end.

Definition delete (k : string) (m : t) : t :=
  filter (fun p => negb (String.eqb k (fst p))) m.

Definition has (k : string) (m : t) : bool :=
  match get k m with Some _ => true | None => false end.

Definition keys (m : t) : list string := map fst m.

Definition values (m : t) : list V := map snd m.

(** An array index is the canonical numeral of an integer below 2^32 - 1. *)
Definition arrayIndex (k : string) : option Z :=
  match NilEmpty.uint_of_string k with
  | Some u =>
      let z := Z.of_N (N.of_uint u) in
      if String.eqb (Js.decimal z) k && (z <? 4294967295) then Some z else None
  | None => None
  end.

Fixpoint insertIndexed (i : Z) (p : string * V) (l : list (Z * (string * V)))
  : list (Z * (string * V)) :=
  match l with
  | [] => [(i, p)]
  | (j, q) :: r =>
      if i <? j then (i, p) :: l
      else if i =? j then (i, p) :: r
      else (j, q) :: insertIndexed i p r
  end.

(** An object keeps its properties in two parts: the array indices in
    ascending order, then the other keys in the order of their creation. *)
Definition defineProperty (o : list (Z * (string * V)) * t) (p : string * V)
  : list (Z * (string * V)) * t :=
  match arrayIndex (fst p) with
  | Some i => (insertIndexed i p (fst o), snd o)
  | None => (fst o, set (fst p) (snd p) (snd o))
  end.

(** [Object.entries(Object.fromEntries(m))] *)
Definition fromEntries (m : t) : t :=
  let o := fold_left defineProperty m ([], []) in
  map snd (fst o) ++ snd o.

End Map.

Arguments get {V} _ _.
Arguments set {V} _ _ _.
Arguments delete {V} _ _.
Arguments has {V} _ _.
Arguments keys {V} _.
Arguments values {V} _.
Arguments fromEntries {V} _.

End JsMap.

(** ** The TTL cache ([SimpleCache]) *)

Module Cache.

Section SimpleCache.

(** The type of the cached values, and whether [JSON.stringify] accepts a
    value of it (it raises on cycles and on [BigInt]). *)
Variable T : Type.
Variable stringifies : T -> bool.

Record CacheEntry : Type := {
  data : T;
  timestamp : Z;
  ttl : Z
}.

(** [Required<CacheConfig>]; [storageKey] names the one slot of the adapter
    that the instance uses, which is the field [stored] of the world. *)
Record CacheConfig : Type := {
  defaultTTL : Z;
  maxSize : Z
}.

(** What [JSON.parse] makes of a property of the stored object: an entry,
    [null] (reading a field of it raises), or a value without numeric
    [timestamp] and [ttl] (every comparison on it is false). *)
Inductive RawEntry : Type :=
| Entry (e : CacheEntry)
| NullEntry
| NotAnEntry.

(** The text stored under [storageKey]: the empty text, a text that
    [JSON.parse] rejects, [null], or an object, given by its properties in
    the order of [Object.entries]. *)
Inductive Blob : Type :=
| EmptyText
| Unparsable
| ParsedNull
| Parsed (kvs : list (string * RawEntry)).

(** The instance and its slot of the adapter.  [cache] is the [Map] in
    insertion order; [oldestTimestamp = None] is [Infinity]. *)
Record World : Type := {
  cache : JsMap.t CacheEntry;
  oldestKey : option string;
  oldestTimestamp : option Z;
  stored : option Blob;
  calls : nat;
  writes : nat
}.

Definition setCache (c : list (string * CacheEntry)) (w : World) : World :=
  {| cache := c; oldestKey := oldestKey w; oldestTimestamp := oldestTimestamp w;
     stored := stored w; calls := calls w; writes := writes w |}.

Definition setOldest (k : option string) (t : option Z) (w : World) : World :=
  {| cache := cache w; oldestKey := k; oldestTimestamp := t;
     stored := stored w; calls := calls w; writes := writes w |}.

Definition setStored (b : option Blob) (w : World) : World :=
  {| cache := cache w; oldestKey := oldestKey w; oldestTimestamp := oldestTimestamp w;
     stored := b; calls := calls w; writes := writes w |}.

Definition called (isWrite : bool) (w : World) : World :=
  {| cache := cache w; oldestKey := oldestKey w; oldestTimestamp := oldestTimestamp w;
     stored := stored w; calls := S (calls w);
     writes := if isWrite then S (writes w) else writes w |}.

(** A new instance over a given content of the slot. *)
Definition fresh (b : option Blob) : World :=
  {| cache := []; oldestKey := None; oldestTimestamp := None;
     stored := b; calls := 0; writes := 0 |}.

Definition size (w : World) : Z := Z.of_nat (length (cache w)).

(** [x < bound] where the bound may be [Infinity]. *)
Definition ltBound (x : Z) (bound : option Z) : bool :=
  match bound with
  | None => true
  | Some b => x <? b
  end.

(** A key is truthy unless it is [null] or the empty string. *)
Definition truthy (k : option string) : option string :=
  match k with
  | Some s => if Js.isEmpty s then None else Some s
  | None => None
  end.

Definition expired (now : Z) (e : CacheEntry) : bool :=
  now - timestamp e >? ttl e.

(** *** The adapter calls *)

Variable adapter : Adapter.

Definition getItem : M World (option Blob) :=
  fun w => match onGet adapter (calls w) with
           | Some e => (Throw e, called false w)
           | None => (Ret (stored w), called false w)
           end.

Definition setItem (b : Blob) : M World unit :=
  fun w => match onSet adapter (calls w) with
           | Some e => (Throw e, called true w)
           | None => (Ret tt, setStored (Some b) (called true w))
           end.

Definition removeItem : M World unit :=
  fun w => match onRemove adapter (calls w) with
           | Some e => (Throw e, called false w)
           | None => (Ret tt, setStored None (called false w))
           end.

(** [JSON.stringify(Object.fromEntries(this.cache))]: the entries are
    written in the order of the properties of the object, not of the map. *)
Definition serialize (m : list (string * CacheEntry)) : option Blob :=
  if forallb (fun p => stringifies (data (snd p))) m
  then Some (Parsed (map (fun p => (fst p, Entry (snd p)))
                         (JsMap.fromEntries m)))
  else None.

(** The body of both [try] blocks of [saveToStorage]. *)
Definition writeCache : M World unit :=
  w <- getW ;;
  match serialize (cache w) with
  | Some b => setItem b
  | None => throw OtherError
  end.

(** *** The private methods *)

Variable config : CacheConfig.

Definition scanOldest (m : list (string * CacheEntry)) : option string * option Z :=
  fold_left
    (fun acc p => if ltBound (timestamp (snd p)) (snd acc)
                  then (Some (fst p), Some (timestamp (snd p)))
                  else acc)
    m (None, None).

Definition updateOldestKey : M World unit :=
  modifyW (fun w => setOldest (fst (scanOldest (cache w))) (snd (scanOldest (cache w))) w).

(** [error instanceof DOMException && error.code === 22] *)
Definition isQuota (e : exn) : bool :=
  match e with
  | DOMException code _ => code =? 22
  | OtherError => false
  end.

Definition expiredKeys (now : Z) (m : list (string * CacheEntry)) : list string :=
  map fst (filter (fun p => expired now (snd p)) m).

Definition deleteAll (ks : list string) (m : list (string * CacheEntry))
  : list (string * CacheEntry) :=
  fold_left (fun acc k => JsMap.delete k acc) ks m.

(** [cleanExpired], with the [saveToStorage] it ends in as an argument. *)
Definition cleanExpiredWith (save : M World unit) (now : Z) : M World Z :=
  w <- getW ;;
  let keysToDelete := expiredKeys now (cache w) in
  modifyW (fun w => setCache (deleteAll keysToDelete (cache w)) w) ;;
  let cleaned := Z.of_nat (length keysToDelete) in
  if cleaned >? 0
  then updateOldestKey ;; save ;; ret cleaned
  else ret cleaned.

(** The [while] loop of [saveToStorage]; [fuel] bounds its iterations.
    [size > maxSize * 0.5] is [2 * size > maxSize]. *)
Fixpoint pruneOldest (fuel : nat) : M World unit :=
  match fuel with
  | O => ret tt
  | S fuel' =>
      w <- getW ;;
      if 2 * size w >? maxSize config
      then match truthy (oldestKey w) with
           | Some k =>
               modifyW (fun w => setCache (JsMap.delete k (cache w)) w) ;;
               updateOldestKey ;;
               pruneOldest fuel'
           | None => ret tt
           end
      else ret tt
  end.

(** [saveToStorage].  It calls [cleanExpired], which calls it back when it
    removed something: [n] bounds the depth of that recursion. *)
Fixpoint saveToStorageN (n : nat) (now : Z) : M World unit :=
  tryCatch writeCache
    (fun error =>
       if isQuota error
       then
         cleanExpiredWith
           (match n with
            | O => ret tt
            | S n' => saveToStorageN n' now
            end) now ;;
         w <- getW ;;
         pruneOldest (S (length (cache w))) ;;
         tryCatch writeCache (fun _ => ret tt)
       else ret tt).

Definition saveToStorage (now : Z) : M World unit :=
  w <- getW ;;
  saveToStorageN (length (cache w)) now.

(** The loop of [loadFromStorage] over [Object.entries(parsed)]. *)
Fixpoint loadEntries (now : Z) (kvs : list (string * RawEntry)) : M World unit :=
  match kvs with
  | [] => ret tt
  | (key, NullEntry) :: _ => throw OtherError
  | (key, NotAnEntry) :: rest => loadEntries now rest
  | (key, Entry entry) :: rest =>
      (if now - timestamp entry <=? ttl entry
       then
         modifyW (fun w => setCache (JsMap.set key entry (cache w)) w) ;;
         w <- getW ;;
         when (ltBound (timestamp entry) (oldestTimestamp w))
              (modifyW (setOldest (Some key) (Some (timestamp entry))))
       else ret tt) ;;
      loadEntries now rest
  end.

Definition loadFromStorage (now : Z) : M World unit :=
  tryCatch
    (stored <- getItem ;;
     match stored with
     | None => ret tt
     | Some EmptyText => ret tt
     | Some Unparsable => throw OtherError
     | Some ParsedNull => throw OtherError
     | Some (Parsed kvs) =>
         loadEntries now kvs ;;
         w <- getW ;;
         when (negb (Nat.eqb (length kvs) (length (cache w)))) (saveToStorage now)
     end)
    (fun _ => tryCatch removeItem (fun _ => ret tt)).

(** *** The public methods *)

(** [new SimpleCache(config)] at instant [now]. *)
Definition construct (now : Z) : M World unit :=
  modifyW (fun w => setOldest None None (setCache [] w)) ;;
  loadFromStorage now.

(** [get] answers [Some] of the cached value or [None] for [null]; a cached
    value that is itself [null] stays apart from absence here. *)
Definition get (key : string) (now : Z) : M World (option T) :=
  w <- getW ;;
  match JsMap.get key (cache w) with
  | None => ret None
  | Some entry =>
      if now - timestamp entry >? ttl entry
      then
        modifyW (fun w => setCache (JsMap.delete key (cache w)) w) ;;
        saveToStorage now ;;
        ret None
      else ret (Some (data entry))
  end.

Definition set (key : string) (value : T) (ttl0 : option Z) (now : Z) : M World unit :=
  let entry := {| data := value; timestamp := now;
                  ttl := match ttl0 with Some t => t | None => defaultTTL config end |} in
  w <- getW ;;
  (if size w >=? maxSize config
   then match truthy (oldestKey w) with
        | Some k =>
            modifyW (fun w => setCache (JsMap.delete k (cache w)) w) ;;
            updateOldestKey
        | None => ret tt
        end
   else ret tt) ;;
  modifyW (fun w => setCache (JsMap.set key entry (cache w)) w) ;;
  w <- getW ;;
  when (ltBound now (oldestTimestamp w))
       (modifyW (setOldest (Some key) (Some now))) ;;
  saveToStorage now.

Definition has (key : string) (now : Z) : M World bool :=
  w <- getW ;;
  match JsMap.get key (cache w) with
  | None => ret false
  | Some entry =>
      if now - timestamp entry >? ttl entry
      then
        modifyW (fun w => setCache (JsMap.delete key (cache w)) w) ;;
        saveToStorage now ;;
        ret false
      else ret true
  end.

Definition optEqb (k : string) (o : option string) : bool :=
  match o with
  | Some k' => String.eqb k k'
  | None => false
  end.

Definition delete (key : string) (now : Z) : M World bool :=
  w <- getW ;;
  let deleted := JsMap.has key (cache w) in
  modifyW (fun w => setCache (JsMap.delete key (cache w)) w) ;;
  (if deleted
   then when (optEqb key (oldestKey w)) updateOldestKey ;; saveToStorage now
   else ret tt) ;;
  ret deleted.

Definition clear (now : Z) : M World unit :=
  modifyW (fun w => setOldest None None (setCache [] w)) ;;
  saveToStorage now.

Record Stats : Type := {
  statSize : Z;
  statMaxSize : Z;
  statKeys : list string;
  oldestEntry : option Z;
  newestEntry : option Z
}.

Definition minimum (l : list Z) : option Z :=
  match l with
  | [] => None
  | x :: r => Some (fold_left Z.min r x)
  end.

Definition maximum (l : list Z) : option Z :=
  match l with
  | [] => None
  | x :: r => Some (fold_left Z.max r x)
  end.

Definition getStats : M World Stats :=
  w <- getW ;;
  let timestamps := map (fun p => timestamp (snd p)) (cache w) in
  ret {| statSize := size w;
         statMaxSize := maxSize config;
         statKeys := map fst (cache w);
         oldestEntry := minimum timestamps;
         newestEntry := maximum timestamps |}.

Definition cleanExpired (now : Z) : M World Z :=
  cleanExpiredWith (saveToStorage now) now.

(** *** Notions used in the statements *)

(** The map of [w'] is the map of [w] with some entries removed. *)
Definition Shrinks (w w' : World) : Prop :=
  exists f, cache w' = filter f (cache w).

(** A computation that returns and only removes entries. *)
Definition safe {A} (m : M World A) : Prop :=
  forall w, exists a w', m w = (Ret a, w') /\ Shrinks w w'.

(** Where the loop of [saveToStorage] stops: at the threshold, or without a
    key to evict. *)
Definition pruned (w : World) : Prop :=
  2 * size w <= maxSize config \/ truthy (oldestKey w) = None.

(** One round of the eviction: the key is deleted and the pointer is
    recomputed by a scan of what is left. *)
Definition evict (k : string) (w : World) : World :=
  let m := JsMap.delete k (cache w) in
  setOldest (fst (scanOldest m)) (snd (scanOldest m)) (setCache m w).

(** Step (b) of the recovery in the words of the specification: while the
    size exceeds half of [maxSize], the tracked oldest key is deleted and
    the pointer recomputed; the rounds end at or below the threshold, or
    when no key is tracked. *)
Inductive Evicted : World -> World -> Prop :=
| EvictedStop w : pruned w -> Evicted w w
| EvictedStep w k w' :
    2 * size w > maxSize config ->
    truthy (oldestKey w) = Some k ->
    Evicted (evict k w) w' ->
    Evicted w w'.

(** The first write of [w] is not refused for quota. *)
Definition writeAccepted (w : World) : Prop :=
  forall e, onSet adapter (calls w) = Some e -> isQuota e = false.

(** What [set] does before it persists: the eviction, the insertion and the
    update of the pointer. *)
Definition inserted (key : string) (entry : CacheEntry) (w : World) : World :=
  let w1 :=
    if size w >=? maxSize config
    then match truthy (oldestKey w) with
         | Some k =>
             let m := JsMap.delete k (cache w) in
             setOldest (fst (scanOldest m)) (snd (scanOldest m)) (setCache m w)
         | None => w
         end
    else w in
  let w2 := setCache (JsMap.set key entry (cache w1)) w1 in
  if ltBound (timestamp entry) (oldestTimestamp w2)
  then setOldest (Some key) (Some (timestamp entry)) w2
  else w2.

(** Calls that never leave the pointer on a removed key. *)
Inductive Call : Type :=
| CallSet (key : string) (value : T) (ttl0 : option Z) (now : Z)
| CallDelete (key : string) (now : Z)
| CallCleanExpired (now : Z)
| CallClear (now : Z).

Definition step (w : World) (c : Call) : World :=
  match c with
  | CallSet key value ttl0 now => snd (set key value ttl0 now w)
  | CallDelete key now => snd (delete key now w)
  | CallCleanExpired now => snd (cleanExpired now w)
  | CallClear now => snd (clear now w)
  end.

Definition run (cs : list Call) (w : World) : World := fold_left step cs w.

(** No call inserts the empty key. *)
Definition properKeys (cs : list Call) : Prop :=
  forall key value ttl0 now, In (CallSet key value ttl0 now) cs -> key <> EmptyString.

(** The pointer names a key of the map, unless the map is empty and no
    instant is recorded. *)
Definition live (w : World) : Prop :=
  (cache w = [] /\ oldestTimestamp w = None)
  \/ exists k, oldestKey w = Some k /\ In k (JsMap.keys (cache w)).

(** The pointer is what [updateOldestKey] computes. *)
Definition recomputed (w : World) : Prop :=
  oldestKey w = fst (scanOldest (cache w))
  /\ oldestTimestamp w = snd (scanOldest (cache w)).

(** The invariant under which [set] keeps the cap. *)
Definition capped (w : World) : Prop :=
  NoDup (JsMap.keys (cache w))
  /\ size w <= maxSize config
  /\ live w
  /\ forall k, In k (JsMap.keys (cache w)) -> k <> EmptyString.

(** A computation that returns and keeps the pointer live. *)
Definition steady {A} (m : M World A) : Prop :=
  forall w, live w -> exists a w', m w = (Ret a, w') /\ live w'.

End SimpleCache.

Arguments data {T} _.
Arguments timestamp {T} _.
Arguments ttl {T} _.
Arguments cache {T} _.
Arguments oldestKey {T} _.
Arguments oldestTimestamp {T} _.
Arguments stored {T} _.
Arguments calls {T} _.
Arguments writes {T} _.
Arguments fresh {T} _.
Arguments size {T} _.
Arguments expired {T} _ _.
Arguments scanOldest {T} _.
Arguments Entry {T} _.
Arguments Parsed {T} _.

End Cache.

(** ** The key of a text ([hashString]) *)

Module Hash.

(** [ToInt32]: the signed 32-bit integer congruent to [z]. *)
Definition toInt32 (z : Z) : Z := (z + 2 ^ 31) mod 2 ^ 32 - 2 ^ 31.

(** One turn of the loop, [char] being [str.charCodeAt(i)]: the shift and
    the [&] work on 32-bit integers, the subtraction and the addition on
    numbers. *)
Definition step (hash char : Z) : Z :=
  let hash := toInt32 (Z.shiftl (toInt32 hash) 5) - hash + char in
  toInt32 (Z.land (toInt32 hash) (toInt32 hash)).

(** The value of [hash] after the loop over the UTF-16 code units of the
    text. *)
Definition hashCode (str : list Z) : Z := fold_left step str 0.

(** A digit of [Number.prototype.toString(36)]: [0]-[9], then [a]-[z]. *)
Definition digit (d : Z) : ascii :=
  if d <? 10 then ascii_of_nat (48 + Z.to_nat d) else ascii_of_nat (87 + Z.to_nat d).

Fixpoint toBase36 (fuel : nat) (n : Z) (acc : string) : string :=
  match fuel with
  | O => acc
  | S fuel' =>
      let acc := String (digit (n mod 36)) acc in
      if n <? 36 then acc else toBase36 fuel' (n / 36) acc
  end.

(** [n.toString(36)] for an integer [n >= 0]; a number below [2 ^ k] has at
    most [k] digits, so that the fuel is never used up. *)
Definition toString36 (n : Z) : string :=
  toBase36 (S (Z.to_nat (Z.log2 n))) n EmptyString.

Definition hashString (str : list Z) : string :=
  toString36 (Z.abs (hashCode str)).

(** The code units of a text whose characters are all ASCII. *)
Definition codeUnits (s : string) : list Z :=
  map (fun c => Z.of_nat (nat_of_ascii c)) (list_ascii_of_string s).

(** *** Notions used in the statements *)

(** The polynomial of the code units in [31], without wrap-around. *)
Definition polynomial (str : list Z) : Z := fold_left (fun h c => 31 * h + c) str 0.

Definition isBase36 (c : ascii) : bool :=
  let n := nat_of_ascii c in
  (Nat.leb 48 n && Nat.leb n 57) || (Nat.leb 97 n && Nat.leb n 122).

Fixpoint allBase36 (s : string) : bool :=
  match s with
  | EmptyString => true
  | String c s' => isBase36 c && allBase36 s'
  end.

(** The integer that a text in base [36] denotes. *)
Definition digitValue (c : ascii) : Z :=
  let n := Z.of_nat (nat_of_ascii c) in
  if n <? 58 then n - 48 else n - 87.

Fixpoint parseBase36 (s : string) (acc : Z) : Z :=
  match s with
  | EmptyString => acc
  | String c s' => parseBase36 s' (36 * acc + digitValue c)
  end.

Definition parse36 (s : string) : Z := parseBase36 s 0.

End Hash.

(** ** The history store *)

Module History.

(** [STORAGE_LIMITS] and [STORAGE_CLEANUP] *)
Definition MAX_HISTORY_ITEMS : Z := 100.
Definition MAX_ITEM_SIZE : Z := 5 * 1024 * 1024.
Definition MAX_TOTAL_SIZE : Z := 10 * 1024 * 1024.

(** [Math.floor(n * PRUNING_RATIO)] with the ratio [0.8], in double
    arithmetic: it is the exact quotient for every length up to [2000]. *)
Definition pruningKeep (n : nat) : nat := Nat.div (n * 4) 5.

(** [Math.floor(n * AGGRESSIVE_PRUNING_RATIO)] with the ratio [0.7].  The
    lists it is applied to come out of [cleanupOldItems] and have at most
    [MAX_HISTORY_ITEMS] items; up to that length the double product floors
    to the exact quotient except at [90], where it is [62.99999999999999]. *)
Definition aggressiveKeep (n : nat) : nat :=
  if Nat.eqb n 90 then 62%nat else Nat.div (n * 7) 10.

(** [ComparisonResult] is opaque to the store, which only serializes it: a
    payload is known by a label and by the number of bytes of its JSON
    text. *)
Record ComparisonResult : Type := {
  label : string;
  jsonLength : N
}.

Record SavedComparison : Type := {
  id : string;
  timestamp : Z;
  inputText : string;
  result : ComparisonResult;
  tags : option (list string);
  notes : option string
}.

(** [Partial<Pick<SavedComparison, 'tags' | 'notes'>>]: a key can be missing,
    or present with a value that can be [undefined]. *)
Record Updates : Type := {
  newTags : option (option (list string));
  newNotes : option (option string)
}.

(** An element of the stored array: one that [validateSavedComparison]
    accepts, or anything else, of a given number of bytes. *)
Inductive RawItem : Type :=
| Valid (c : SavedComparison)
| Invalid (bytes : Z).

(** The text stored under [STORAGE_KEY]: the empty text, a text that
    [JSON.parse] rejects, [null], another value that is not an array (with
    whether its [length] is [0]), or an array. *)
Inductive Blob : Type :=
| EmptyText
| Unparsable (bytes : Z)
| ParsedNull (bytes : Z)
| ParsedOther (lengthIsZero : bool) (bytes : Z)
| ParsedArray (items : list RawItem).

(** [localStorage]: the slot of the history, the sizes in bytes of the
    values under the other keys, and the calls made so far. *)
Record World : Type := {
  stored : option Blob;
  others : list Z;
  calls : nat;
  writes : nat
}.

Definition setStored (b : option Blob) (w : World) : World :=
  {| stored := b; others := others w; calls := calls w; writes := writes w |}.

Definition called (isWrite : bool) (w : World) : World :=
  {| stored := stored w; others := others w; calls := S (calls w);
     writes := if isWrite then S (writes w) else writes w |}.

(** *** Sizes: [new Blob([JSON.stringify(x)]).size] *)

(** Bytes that [JSON.stringify] writes for one byte of a string. *)
Definition escapedLength (c : ascii) : Z :=
  let n := nat_of_ascii c in
  if Nat.eqb n 34 || Nat.eqb n 92 then 2
  else if Nat.eqb n 8 || Nat.eqb n 9 || Nat.eqb n 10 || Nat.eqb n 12 || Nat.eqb n 13 then 2
  else if Nat.ltb n 32 then 6
  else 1.

Fixpoint escapedBytes (s : string) : Z :=
  match s with
  | EmptyString => 0
  | String c s' => escapedLength c + escapedBytes s'
  end.

Definition quotedBytes (s : string) : Z := 2 + escapedBytes s.

Definition sumZ (l : list Z) : Z := fold_right Z.add 0 l.

(** An array: the brackets, the elements and the commas between them. *)
Definition arrayBytes (elements : list Z) : Z :=
  2 + sumZ elements + Z.max 0 (Z.of_nat (length elements) - 1).

(** The keys are written in the order [id], [timestamp], [inputText],
    [result], [tags], [notes]; an [undefined] field is left out. *)
Definition jsonBytes (item : SavedComparison) : Z :=
  6 + quotedBytes (id item)
  + 13 + Js.strlen (Js.decimal (timestamp item))
  + 13 + quotedBytes (inputText item)
  + 10 + Z.of_N (jsonLength (result item))
  + match tags item with
    | Some ts => 8 + arrayBytes (map quotedBytes ts)
    | None => 0
    end
  + match notes item with
    | Some n => 9 + quotedBytes n
    | None => 0
    end
  + 1.

(** [estimateItemSize]; its [catch], which answers [0], is never reached:
    [JSON.stringify] accepts every record of strings and numbers. *)
Definition estimateItemSize (item : SavedComparison) : Z := jsonBytes item.

Definition rawBytes (r : RawItem) : Z :=
  match r with
  | Valid c => jsonBytes c
  | Invalid b => b
  end.

Definition blobBytes (b : Blob) : Z :=
  match b with
  | EmptyText => 0
  | Unparsable n => n
  | ParsedNull n => n
  | ParsedOther _ n => n
  | ParsedArray items => arrayBytes (map rawBytes items)
  end.

(** [JSON.stringify(history)] as it is stored. *)
Definition serialize (history : list SavedComparison) : Blob :=
  ParsedArray (map Valid history).

(** *** The pure helpers *)

Definition isQuotaExceededError (e : exn) : bool :=
  match e with
  | DOMException code name =>
      (code =? 22) || (code =? 1014)
      || String.eqb name "QuotaExceededError"
      || String.eqb name "NS_ERROR_DOM_QUOTA_REACHED"
  | OtherError => false
  end.

Definition validateHistoryArray (b : Blob) : list SavedComparison :=
  match b with
  | ParsedArray items =>
      flat_map (fun r => match r with Valid c => [c] | Invalid _ => [] end) items
  | _ => []
  end.

(** [[...history].sort((a, b) => b.timestamp - a.timestamp)]: the sort is
    stable. *)
Fixpoint insertDesc (x : SavedComparison) (l : list SavedComparison)
  : list SavedComparison :=
  match l with
  | [] => [x]
  | y :: r => if timestamp y <=? timestamp x then x :: y :: r else y :: insertDesc x r
  end.

Definition sortDesc (l : list SavedComparison) : list SavedComparison :=
  fold_right insertDesc [] l.

Fixpoint cleanupLoop (sorted cleaned : list SavedComparison) (totalSize : Z)
  : list SavedComparison :=
  match sorted with
  | [] => cleaned
  | item :: rest =>
      let itemSize := estimateItemSize item in
      if itemSize >? MAX_ITEM_SIZE then cleanupLoop rest cleaned totalSize
      else if (totalSize + itemSize >? MAX_TOTAL_SIZE) && (0 <? Z.of_nat (length cleaned))
      then cleaned
      else if Z.of_nat (length cleaned) >=? MAX_HISTORY_ITEMS then cleaned
      else cleanupLoop rest (cleaned ++ [item]) (totalSize + itemSize)
  end.

Definition cleanupOldItems (history : list SavedComparison) : list SavedComparison :=
  cleanupLoop (sortDesc history) [] 0.

Definition normalize (s : string) : string := Js.toLowerCase (Js.trim s).

(** One turn of the deduplication loop. *)
Definition keepMostRecent (seen : JsMap.t SavedComparison) (item : SavedComparison)
  : JsMap.t SavedComparison :=
  let key := normalize (inputText item) in
  match JsMap.get key seen with
  | None => JsMap.set key item seen
  | Some existing =>
      if timestamp item >? timestamp existing then JsMap.set key item seen else seen
  end.

Definition deduplicateHistory (history : list SavedComparison) : list SavedComparison :=
  sortDesc (JsMap.values (fold_left keepMostRecent history [])).

(** The loop of [saveComparison] that builds [deduplicatedMap]. *)
Definition withoutInput (normalizedInput : string) (history : list SavedComparison)
  : JsMap.t SavedComparison :=
  fold_left
    (fun seen item =>
       if String.eqb (normalize (inputText item)) normalizedInput
       then seen
       else keepMostRecent seen item)
    history [].

(** [new Map(history.map(item => [item.id, item]))] *)
Definition byId (history : list SavedComparison) : JsMap.t SavedComparison :=
  fold_left (fun m item => JsMap.set (id item) item m) history [].

(** [{ ...existing, ...updates }] *)
Definition applyUpdates (existing : SavedComparison) (u : Updates) : SavedComparison :=
  {| id := id existing;
     timestamp := timestamp existing;
     inputText := inputText existing;
     result := result existing;
     tags := match newTags u with Some t => t | None => tags existing end;
     notes := match newNotes u with Some n => n | None => notes existing end |}.

(** The test that [searchHistory] makes on one item. *)
Definition matchesQuery (lowerQuery : string) (item : SavedComparison) : bool :=
  if Js.includes (Js.toLowerCase (inputText item)) lowerQuery then true
  else if match tags item with
          | Some ts => existsb (fun tag => Js.includes (Js.toLowerCase tag) lowerQuery) ts
          | None => false
          end then true
  else match notes item with
       | Some n => negb (Js.isEmpty n) && Js.includes (Js.toLowerCase n) lowerQuery
       | None => false
       end.

Definition hasTagIn (wanted : list string) (item : SavedComparison) : bool :=
  match tags item with
  | Some ts =>
      existsb (fun tag => existsb (String.eqb (Js.toLowerCase tag)) wanted) ts
  | None => false
  end.

(** *** Notions used in the statements *)

(** The key under which the store identifies an item. *)
Definition keyOf (item : SavedComparison) : string := normalize (inputText item).

(** The valid items of the stored array. *)
Definition items (w : World) : list SavedComparison :=
  match stored w with
  | Some b => validateHistoryArray b
  | None => []
  end.

Definition totalBytes (l : list SavedComparison) : Z := sumZ (map jsonBytes l).

(** Newest first. *)
Definition newestFirst (x y : SavedComparison) : Prop := timestamp y <= timestamp x.

(** The history that [saveComparison] builds from what it loaded. *)
Definition merged (saved : SavedComparison) (loaded : list SavedComparison)
  : list SavedComparison :=
  cleanupOldItems (saved :: JsMap.values (withoutInput (normalize (inputText saved)) loaded)).

(** Two worlds with the same content and the same number of writes. *)
Definition sameStore (w w' : World) : Prop :=
  stored w' = stored w /\ others w' = others w /\ writes w' = writes w.

(** The bytes of the slot of the history. *)
Definition ownBytes (w : World) : Z :=
  match stored w with
  | Some b => blobBytes b
  | None => 0
  end.

(** The slot is empty or holds an array of valid items within the count
    budget and, when [bytes] is set, within the byte budget. *)
Definition fits (bytes : bool) (w : World) : Prop :=
  match stored w with
  | None => True
  | Some b =>
      exists l, b = serialize l
                /\ Z.of_nat (length l) <= MAX_HISTORY_ITEMS
                /\ (bytes = true -> totalBytes l <= MAX_TOTAL_SIZE)
  end.

(** [saveComparison] validates the candidate before it touches the store. *)
Definition rejected (saved : SavedComparison) : Prop :=
  Js.isEmpty (inputText saved) = true \/ estimateItemSize saved > MAX_ITEM_SIZE.

(** *** The adapter calls *)

Section Store.

Variable adapter : Adapter.

Definition getItem : M World (option Blob) :=
  fun w => match onGet adapter (calls w) with
           | Some e => (Throw e, called false w)
           | None => (Ret (stored w), called false w)
           end.

Definition setItem (b : Blob) : M World unit :=
  fun w => match onSet adapter (calls w) with
           | Some e => (Throw e, called true w)
           | None => (Ret tt, setStored (Some b) (called true w))
           end.

Definition removeItem : M World unit :=
  fun w => match onRemove adapter (calls w) with
           | Some e => (Throw e, called false w)
           | None => (Ret tt, setStored None (called false w))
           end.

(** [getItem] on another key, whose value has [bytes] bytes. *)
Definition getOther (bytes : Z) : M World Z :=
  fun w => match onGet adapter (calls w) with
           | Some e => (Throw e, called false w)
           | None => (Ret bytes, called false w)
           end.

(** [localStorage.length] and [localStorage.key(i)] at one turn of the loop
    of [getTotalStorageSize]. *)
Definition nextKey : M World unit :=
  fun w => match onKeys adapter (calls w) with
           | Some e => (Throw e, called false w)
           | None => (Ret tt, called false w)
           end.

(** [getStorageSize(STORAGE_KEY)] *)
Definition getStorageSize : M World Z :=
  tryCatch
    (item <- getItem ;;
     ret match item with
         | Some b => blobBytes b
         | None => 0
         end)
    (fun _ => ret 0).

(** [getStorageSize(key)] for another key. *)
Definition getOtherSize (bytes : Z) : M World Z :=
  tryCatch (getOther bytes) (fun _ => ret 0).

(** The loop of [getTotalStorageSize]: first the slot of the history, when
    it is there, then the other keys. *)
Fixpoint sumOthers (sizes : list Z) (total : Z) : M World Z :=
  nextKey ;;
  match sizes with
  | [] => ret total
  | bytes :: rest =>
      s <- getOtherSize bytes ;;
      sumOthers rest (total + s)
  end.

Definition getTotalStorageSize : M World Z :=
  tryCatch
    (w <- getW ;;
     match stored w with
     | Some _ =>
         nextKey ;;
         s <- getStorageSize ;;
         sumOthers (others w) s
     | None => sumOthers (others w) 0
     end)
    (fun _ => ret 0).

(** *** The public functions *)

Definition getHistory : M World (list SavedComparison) :=
  tryCatch
    (stored <- getItem ;;
     match stored with
     | None => ret []
     | Some EmptyText => ret []
     | Some (Unparsable _) => throw OtherError
     | Some parsed =>
         let validated := validateHistoryArray parsed in
         differs <-
           match parsed with
           | ParsedNull _ => throw OtherError
           | ParsedOther lengthIsZero _ => ret (negb lengthIsZero)
           | ParsedArray items => ret (negb (Nat.eqb (length validated) (length items)))
           | _ => ret false
           end ;;
         when differs
              (tryCatch (setItem (serialize validated)) (fun _ => ret tt)) ;;
         ret (deduplicateHistory validated)
     end)
    (fun _ =>
       tryCatch removeItem (fun _ => ret tt) ;;
       ret []).

(** [tags?.filter(Boolean)] and [notes?.trim() || undefined] *)
Definition candidate (inputText0 : string) (result0 : ComparisonResult)
    (tags0 : option (list string)) (notes0 : option string) (now : Z) (rnd : string)
  : SavedComparison :=
  {| id := (Js.decimal now ++ "-" ++ rnd)%string;
     timestamp := now;
     inputText := Js.trim inputText0;
     result := result0;
     tags := option_map (filter (fun t => negb (Js.isEmpty t))) tags0;
     notes := match notes0 with
              | Some n => if Js.isEmpty (Js.trim n) then None else Some (Js.trim n)
              | None => None
              end |}.

(** [saveComparison] at instant [now], [rnd] being the random suffix of the
    identifier.  The two sizes read before the write are read inside the
    inner [try] in the code; neither read can raise, so that [history] has
    its final value when [setItem] is reached, whichever branch is taken. *)
Definition saveComparison (inputText0 : string) (result0 : ComparisonResult)
    (tags0 : option (list string)) (notes0 : option string) (now : Z) (rnd : string)
  : M World (option SavedComparison) :=
  tryCatch
    (let saved := candidate inputText0 result0 tags0 notes0 now rnd in
     if Js.isEmpty (inputText saved) then ret None
     else if estimateItemSize saved >? MAX_ITEM_SIZE then ret None
     else
       loaded <- getHistory ;;
       let normalizedInput := normalize (inputText saved) in
       let deduplicatedMap := withoutInput normalizedInput loaded in
       let history := cleanupOldItems (saved :: JsMap.values deduplicatedMap) in
       let serializedSize := blobBytes (serialize history) in
       currentTotal <- getTotalStorageSize ;;
       currentHistorySize <- getStorageSize ;;
       let newTotalSize := currentTotal - currentHistorySize + serializedSize in
       let history :=
         if newTotalSize >? MAX_TOTAL_SIZE
         then cleanupOldItems (firstn (pruningKeep (length history)) history)
         else history in
       tryCatch
         (setItem (serialize history) ;;
          ret (Some saved))
         (fun error =>
            if isQuotaExceededError error
            then
              let history :=
                cleanupOldItems (firstn (aggressiveKeep (length history)) history) in
              tryCatch
                (setItem (serialize history) ;;
                 ret (Some saved))
                (fun _ => ret None)
            else throw error))
    (fun _ => ret None).

Definition getComparisonById (id0 : string) : M World (option SavedComparison) :=
  tryCatch
    (history <- getHistory ;;
     ret (JsMap.get id0 (byId history)))
    (fun _ => ret None).

Definition deleteComparison (id0 : string) : M World bool :=
  tryCatch
    (history <- getHistory ;;
     let filtered := filter (fun item => negb (String.eqb (id item) id0)) history in
     if Nat.eqb (length filtered) (length history) then ret false
     else
       tryCatch
         (setItem (serialize filtered) ;;
          ret true)
         (fun error => if isQuotaExceededError error then ret false else throw error))
    (fun _ => ret false).

Definition updateComparison (id0 : string) (updates : Updates) : M World bool :=
  tryCatch
    (history <- getHistory ;;
     let idMap := byId history in
     match JsMap.get id0 idMap with
     | None => ret false
     | Some existing =>
         let idMap := JsMap.set id0 (applyUpdates existing updates) idMap in
         tryCatch
           (setItem (serialize (JsMap.values idMap)) ;;
            ret true)
           (fun error => if isQuotaExceededError error then ret false else throw error)
     end)
    (fun _ => ret false).

Definition searchHistory (query : string) : M World (list SavedComparison) :=
  tryCatch
    (history <- getHistory ;;
     if Js.isEmpty (Js.trim query) then ret history
     else ret (filter (matchesQuery (Js.toLowerCase query)) history))
    (fun _ => ret []).

Definition filterByTags (tags0 : list string) : M World (list SavedComparison) :=
  tryCatch
    (history <- getHistory ;;
     if Nat.eqb (length tags0) 0 then ret history
     else ret (filter (hasTagIn (map Js.toLowerCase tags0)) history))
    (fun _ => ret []).

Definition clearHistory : M World unit :=
  tryCatch removeItem (fun _ => ret tt).

Record HistoryStats : Type := {
  count : Z;
  ownSize : Z;
  totalSize : Z
}.

Definition getHistoryStats : M World HistoryStats :=
  tryCatch
    (history <- getHistory ;;
     size <- getStorageSize ;;
     total <- getTotalStorageSize ;;
     ret {| count := Z.of_nat (length history); ownSize := size; totalSize := total |})
    (fun _ => ret {| count := 0; ownSize := 0; totalSize := 0 |}).

(** *** Sequences of calls *)

Inductive Op : Type :=
| Save (inputText0 : string) (result0 : ComparisonResult)
       (tags0 : option (list string)) (notes0 : option string) (now : Z) (rnd : string)
| Delete (id0 : string)
| Update (id0 : string) (updates : Updates)
| Clear
| Elsewhere (sizes : list Z).

(** The world after one call; [Elsewhere] is the rest of the application
    rewriting its own keys. *)
Definition step (w : World) (op : Op) : World :=
  match op with
  | Save i r t n now rnd => snd (saveComparison i r t n now rnd w)
  | Delete i => snd (deleteComparison i w)
  | Update i u => snd (updateComparison i u w)
  | Clear => snd (clearHistory w)
  | Elsewhere sizes =>
      {| stored := stored w; others := sizes; calls := calls w; writes := writes w |}
  end.

Definition run (ops : list Op) (w : World) : World := fold_left step ops w.

Definition isUpdate (op : Op) : bool :=
  match op with Update _ _ => true | _ => false end.

End Store.

(** A browser profile in which the history was never written. *)
Definition empty (sizes : list Z) : World :=
  {| stored := None; others := sizes; calls := 0; writes := 0 |}.

End History.

(** ** Concrete adapters, configurations and runs used in the examples *)

Module Scenarios.

(** An adapter that accepts every call. *)
Definition healthy : Adapter :=
  {| onGet := fun _ => None; onSet := fun _ => None;
     onRemove := fun _ => None; onKeys := fun _ => None |}.

(** An adapter whose [setItem] always raises [QuotaExceeded]. *)
Definition quotaOnSet : Adapter :=
  {| onGet := fun _ => None; onSet := fun _ => Some QuotaExceeded;
     onRemove := fun _ => None; onKeys := fun _ => None |}.

(** An adapter that accepts the first [n] calls and then refuses every
    [setItem] with [QuotaExceeded]. *)
Definition quotaAfter (n : nat) : Adapter :=
  {| onGet := fun _ => None;
     onSet := fun i => if Nat.ltb i n then None else Some QuotaExceeded;
     onRemove := fun _ => None; onKeys := fun _ => None |}.

(** Every string can be serialized. *)
Definition anyString (_ : string) : bool := true.

Definition day : Z := 24 * 60 * 60 * 1000.

Definition capacity (n : Z) : Cache.CacheConfig :=
  {| Cache.defaultTTL := day; Cache.maxSize := n |}.

(** The world after a computation. *)
Definition after {W A} (m : M W A) (w : W) : W := snd (m w).

(** [set("k", "v", 1000)] at instant [0] on a new cache of capacity [1]
    whose adapter is out of quota. *)
Definition setUnderQuota : Cache.World string :=
  after (Cache.set string anyString quotaOnSet (capacity 1) "k" "v" (Some 1000) 0)
        (Cache.fresh None).

(** Capacity [2]: ["a"] is inserted with a short life and found expired by
    [get], which removes it and leaves the pointer on it; two more
    insertions follow. *)
Definition afterStalePointer : Cache.World string :=
  let set := Cache.set string anyString healthy (capacity 2) in
  let get := Cache.get string anyString healthy (capacity 2) in
  let w1 := after (set "a" "1" (Some 10) 0) (Cache.fresh None) in
  let w2 := after (set "b" "2" None 1) w1 in
  let w3 := after (get "a" 100) w2 in
  let w4 := after (set "c" "3" None 101) w3 in
  after (set "d" "4" None 102) w4.

(** Capacity [2], three insertions into a new cache. *)
Definition afterThreeSets : Cache.World string :=
  let set := Cache.set string anyString healthy (capacity 2) in
  let w1 := after (set "a" "1" None 0) (Cache.fresh None) in
  let w2 := after (set "b" "2" None 1) w1 in
  after (set "c" "3" None 2) w2.

(** Capacity [4], filled by four insertions that the adapter accepts; from
    then on the adapter is out of quota. *)
Definition full : Cache.World string :=
  let set := Cache.set string anyString (quotaAfter 4) (capacity 4) in
  let w1 := after (set "a" "1" None 1) (Cache.fresh None) in
  let w2 := after (set "b" "2" None 2) w1 in
  let w3 := after (set "c" "3" None 3) w2 in
  after (set "d" "4" None 4) w3.

Definition overwrittenUnderQuota : Cache.World string :=
  after (Cache.set string anyString (quotaAfter 4) (capacity 4) "b" "5" None 5) full.

(** *** The history store *)

Definition small (name : string) : History.ComparisonResult :=
  {| History.label := name; History.jsonLength := 400 |}.

(** A store written by two accepted calls. *)
Definition twoItems : History.World :=
  let w1 := after (History.saveComparison healthy "Order 123" (small "A") None None
                     1700000000000 "k3j9x2a")
                  (History.empty []) in
  after (History.saveComparison healthy "Invoice 7" (small "B") (Some ["billing"]) None
           1700000000500 "p0q8r5t") w1.

(** A payload that brings an item to two bytes under [MAX_ITEM_SIZE]. *)
Definition big (name : string) : History.ComparisonResult :=
  {| History.label := name; History.jsonLength := 5242788 |}.

(** Two saves that fill the byte budget, then a note on the first item. *)
Definition fillThenAnnotate : list History.Op :=
  [ History.Save "Order 123" (big "A") None None 1700000000000 "k3j9x2a";
    History.Save "Invoice 7" (big "B") None None 1700000000500 "p0q8r5t";
    History.Update "1700000000000-k3j9x2a"
      {| History.newTags := None; History.newNotes := Some (Some "x") |} ].

Definition annotated : History.World :=
  History.run healthy fillThenAnnotate (History.empty []).

(** Scenario C on an adapter that is out of quota. *)
Definition savedTwiceUnderQuota : History.World :=
  let w1 := after (History.saveComparison quotaOnSet "Order 123" (small "A") None None
                     1700000000000 "k3j9x2a")
                  (History.empty []) in
  after (History.saveComparison quotaOnSet "  order 123 " (small "B") None None
           1700000000500 "p0q8r5t") w1.

(** Scenario C on an adapter that accepts every call. *)
Definition savedTwice : History.World :=
  let w1 := after (History.saveComparison healthy "Order 123" (small "A") None None
                     1700000000000 "k3j9x2a")
                  (History.empty []) in
  after (History.saveComparison healthy "  order 123 " (small "B") None None
           1700000000500 "p0q8r5t") w1.

(** *** Further runs *)

(** Capacity [2]: ["a"] with a life of [10] at instant [0], then ["b"] with
    the default life at instant [1]. *)
Definition aThenB : Cache.World string :=
  let set := Cache.set string anyString healthy (capacity 2) in
  after (set "b" "2" None 1) (after (set "a" "1" (Some 10) 0) (Cache.fresh None)).


(** A new instance over the slot that [aThenB] left. *)
Definition reopened : Cache.World string := Cache.fresh (Cache.stored aThenB).

(** A new instance over a slot that does not parse. *)
Definition corrupted : Cache.World string := Cache.fresh (Some (Cache.Unparsable string)).

(** The exception with the other code and name that
    [isQuotaExceededError] tests. *)
Definition quotaReached : exn := DOMException 1014 "NS_ERROR_DOM_QUOTA_REACHED".

(** An adapter whose [setItem] always raises [quotaReached]. *)
Definition quotaReachedOnSet : Adapter :=
  {| onGet := fun _ => None; onSet := fun _ => Some quotaReached;
     onRemove := fun _ => None; onKeys := fun _ => None |}.

(** An adapter that refuses one call, the one of number [k], with
    [QuotaExceeded] when it is a [setItem]. *)
Definition quotaOnce (k : nat) : Adapter :=
  {| onGet := fun _ => None;
     onSet := fun i => if Nat.eqb i k then Some QuotaExceeded else None;
     onRemove := fun _ => None; onKeys := fun _ => None |}.

(** The texts ["Aa"] and ["BB"] as code units. *)
Definition textAa : list Z := Hash.codeUnits "Aa".
Definition textBB : list Z := Hash.codeUnits "BB".

(** *** Texts outside ASCII *)

(** NO-BREAK SPACE, which [trim] strips. *)
Definition nbsp : string := Js.fromCodePoint 160.

(** The word with a capital E acute and with a small one. *)
Definition ecoleUpper : string := Js.text [201; 99; 111; 108; 101].
Definition ecoleLower : string := Js.text [233; 99; 111; 108; 101].

(** A slot that holds the two spellings, the first saved with the tag of a
    capital E acute and the second, more recent, without tags. *)
Definition twoSpellings : History.World :=
  let first := History.candidate ecoleUpper (small "A")
                 (Some [Js.fromCodePoint 201]) None 1700000000000 "k3j9x2a" in
  let second := History.candidate ecoleLower (small "B") None None
                  1700000000500 "p0q8r5t" in
  {| History.stored := Some (History.serialize [first; second]);
     History.others := []; History.calls := 0; History.writes := 0 |}.

(** A slot that holds the first spelling alone. *)
Definition oneSpelling : History.World :=
  after (History.saveComparison healthy ecoleUpper (small "A")
           (Some [Js.fromCodePoint 201]) None 1700000000000 "k3j9x2a")
        (History.empty []).

(** A profile whose history slot holds seven bytes that do not parse. *)
Definition garbled : History.World :=
  {| History.stored := Some (History.Unparsable 7); History.others := [];
     History.calls := 0; History.writes := 0 |}.

End Scenarios.

(** * Properties *)

(** ** Strings *)

Section StringFacts.

(** *** Characters *)

(** A character in front of a string is the first that [chars] cuts. *)
Lemma chars_app c r :
  Js.isChar c = true ->
  Js.chars (c ++ r)%string = option_map (cons c) (Js.chars r).
Proof.
  destruct c as [|a t]; [discriminate|].
  cbn [Js.isChar String.append Js.chars].
  destruct (Js.width a) as [|[|[|[|[|n]]]]]; try discriminate.
  - destruct t; [reflexivity | discriminate].
  - destruct t as [|b [|? ?]]; try discriminate.
    intros H. cbn [String.append]. now rewrite H.
  - destruct t as [|b [|c [|? ?]]]; try discriminate.
    intros H. cbn [String.append]. now rewrite H.
  - destruct t as [|b [|c [|d [|? ?]]]]; try discriminate.
    intros H. cbn [String.append]. now rewrite H.
Qed.

(** The first character that [chars] cuts is in front of the string. *)
Lemma chars_cons s c cs :
  Js.chars s = Some (c :: cs) ->
  Js.isChar c = true /\ exists r, s = (c ++ r)%string /\ Js.chars r = Some cs.
Proof.
  destruct s as [|a r1]; [discriminate|].
  cbn [Js.chars]. unfold Js.andThen.
  destruct (Js.width a) as [|[|[|[|[|n]]]]] eqn:W;
    destruct r1 as [|b [|c' [|d r4]]]; cbv beta iota;
    repeat match goal with
           | |- context [if ?b then _ else _] => destruct b eqn:?
           end;
    try discriminate;
    match goal with
    | |- context [Js.chars ?r] => destruct (Js.chars r) eqn:?
    end;
    try discriminate;
    cbn [option_map]; intros H; injection H as <- <-;
    cbn [Js.isChar]; rewrite W;
    repeat match goal with H : _ = true |- _ => rewrite H end;
    (split; [reflexivity|]); eexists; (split; [reflexivity|]); assumption.
Qed.

(** [chars] and [join] are inverse of one another. *)
Lemma chars_join cs :
  forallb Js.isChar cs = true -> Js.chars (Js.join cs) = Some cs.
Proof.
  induction cs as [|c cs IH]; cbn [forallb Js.join fold_right]; [reflexivity|].
  intros H. apply andb_true_iff in H as [Hc Hcs].
  rewrite (chars_app _ _ Hc). fold (Js.join cs). now rewrite (IH Hcs).
Qed.

Lemma chars_spec s cs :
  Js.chars s = Some cs -> s = Js.join cs /\ forallb Js.isChar cs = true.
Proof.
  revert s. induction cs as [|c cs IH]; intros s H.
  - destruct s as [|a r]; [now split|].
    exfalso. revert H. cbn [Js.chars]. unfold Js.andThen.
    destruct (Js.width a) as [|[|[|[|[|n]]]]];
      destruct r as [|b [|c [|d r4]]]; cbv beta iota;
      repeat match goal with
             | |- context [if ?b then _ else _] => destruct b
             end;
      try discriminate;
      match goal with
      | |- context [Js.chars ?r] => destruct (Js.chars r)
      end; discriminate.
  - apply chars_cons in H as (Hc & r & -> & Hr).
    destruct (IH _ Hr) as [-> Hcs]. cbn [forallb]. now rewrite Hc, Hcs.
Qed.

Lemma isChar_nonempty c : Js.isChar c = true -> c <> EmptyString.
Proof. now destruct c. Qed.

Lemma join_empty cs :
  forallb Js.isChar cs = true ->
  Js.isEmpty (Js.join cs) = match cs with [] => true | _ => false end.
Proof.
  destruct cs as [|c cs]; [reflexivity|]. cbn [forallb Js.join fold_right].
  intros H. apply andb_true_iff in H as [Hc _]. now destruct c.
Qed.

(** *** [trim] *)

Lemma trimStart_chars cs :
  forallb Js.isChar cs = true -> forallb Js.isChar (Js.trimStart cs) = true.
Proof.
  induction cs as [|c cs IH]; [reflexivity|]. intros H. cbn [Js.trimStart].
  destruct (Js.isWhitespace c); [|exact H].
  cbn [forallb] in H. apply andb_true_iff in H as [_ H]. auto.
Qed.

Lemma trimEnd_chars cs :
  forallb Js.isChar cs = true -> forallb Js.isChar (Js.trimEnd cs) = true.
Proof.
  induction cs as [|c cs IH]; [reflexivity|]. intros H.
  cbn [forallb] in H. apply andb_true_iff in H as [Hc H]. specialize (IH H).
  cbn [Js.trimEnd]. destruct (Js.trimEnd cs) as [|d r].
  - destruct (Js.isWhitespace c); cbn [forallb]; [reflexivity | now rewrite Hc].
  - cbn [forallb] in *. now rewrite Hc, IH.
Qed.

Lemma trimEnd_head c cs :
  Js.isWhitespace c = false ->
  exists r, Js.trimEnd (c :: cs) = c :: r.
Proof.
  intros Hc. cbn [Js.trimEnd]. destruct (Js.trimEnd cs); rewrite ?Hc; eauto.
Qed.

Lemma trimStart_fixed c cs :
  Js.isWhitespace c = false -> Js.trimStart (c :: cs) = c :: cs.
Proof. intros Hc. cbn [Js.trimStart]. now rewrite Hc. Qed.

Lemma trimStart_head cs :
  Js.trimStart cs = [] \/
  exists c r, Js.trimStart cs = c :: r /\ Js.isWhitespace c = false.
Proof.
  induction cs as [|c cs IH]; [now left|]. cbn [Js.trimStart].
  destruct (Js.isWhitespace c) eqn:E; eauto.
Qed.

Lemma trimEnd_idempotent cs : Js.trimEnd (Js.trimEnd cs) = Js.trimEnd cs.
Proof.
  induction cs as [|c cs IH]; [reflexivity|]. cbn [Js.trimEnd].
  destruct (Js.trimEnd cs) as [|d r] eqn:E.
  - destruct (Js.isWhitespace c) eqn:Ec; cbn [Js.trimEnd]; auto. now rewrite Ec.
  - change (Js.trimEnd (c :: d :: r)) with
      (match Js.trimEnd (d :: r) with
       | [] => if Js.isWhitespace c then [] else [c]
       | r' => c :: r'
       end).
    rewrite IH. reflexivity.
Qed.

Lemma trimmed_fixed cs :
  Js.trimEnd (Js.trimStart (Js.trimEnd (Js.trimStart cs))) =
  Js.trimEnd (Js.trimStart cs).
Proof.
  destruct (trimStart_head cs) as [E | (c & r & E & Hc)]; rewrite E.
  - reflexivity.
  - destruct (trimEnd_head c r Hc) as [r' E'].
    rewrite E', (trimStart_fixed _ _ Hc), <- E'.
    apply trimEnd_idempotent.
Qed.

Lemma trim_idempotent s : Js.trim (Js.trim s) = Js.trim s.
Proof.
  unfold Js.trim at 2 3. destruct (Js.chars s) as [cs|] eqn:E.
  - apply chars_spec in E as [_ Hcs].
    unfold Js.trim.
    rewrite (chars_join _ (trimEnd_chars _ (trimStart_chars _ Hcs))).
    now rewrite trimmed_fixed.
  - unfold Js.trim. now rewrite E.
Qed.

(** *** [toLowerCase]

    Lower-casing keeps white space, and makes white space of nothing else. *)

Lemma lowerCase_plain :
  forallb (fun row =>
     let '(first, last, step, shift) := row in
     (0 <? step) &&
     forallb (fun i => Js.nonWhite
                         (Js.fromCodePoint (first + step * Z.of_nat i + shift)))
             (seq 0 (Z.to_nat ((last - first) / step) + 1)))
    Js.lowerCase = true.
Proof. vm_compute. reflexivity. Qed.

Lemma mapped_plain z row :
  find (Js.maps z) Js.lowerCase = Some row ->
  Js.nonWhite (Js.fromCodePoint (z + Js.shift row)) = true.
Proof.
  intros H. apply find_some in H as [Hin Hz].
  pose proof lowerCase_plain as Hall.
  rewrite forallb_forall in Hall. specialize (Hall _ Hin).
  destruct row as [[[first last] step] sh]. cbn [Js.shift snd].
  unfold Js.maps in Hz.
  apply andb_true_iff in Hall as [Hstep Hall].
  apply andb_true_iff in Hz as [Hz Hmod].
  apply andb_true_iff in Hz as [Hlo Hhi].
  rewrite forallb_forall in Hall.
  assert (Hq : z = first + step * Z.of_nat (Z.to_nat ((z - first) / step))).
  { rewrite Z2Nat.id by (apply Z.div_pos; lia).
    pose proof (Z.div_mod (z - first) step ltac:(lia)) as Hd.
    apply Z.eqb_eq in Hmod. lia. }
  rewrite Hq. apply Hall. apply in_seq. split; [lia|].
  cbn [plus]. 
  assert ((z - first) / step <= (last - first) / step)
    by (apply Z.div_le_mono; lia).
  assert (0 <= (z - first) / step) by (apply Z.div_pos; lia).
  lia.
Qed.

Lemma whiteSpace_fixed :
  forallb (fun z => negb (z =? 304) && negb (z =? 931) &&
                    match find (Js.maps z) Js.lowerCase with
                    | Some _ => false
                    | None => true
                    end) Js.whiteSpace = true.
Proof. vm_compute. reflexivity. Qed.

Lemma lowerChar_white c :
  Js.isWhitespace c = true ->
  Js.lowerChar c = [c] /\ (Js.codePoint c =? 931) = false.
Proof.
  unfold Js.isWhitespace. intros H.
  apply existsb_exists in H as (z & Hin & Hz). apply Z.eqb_eq in Hz.
  pose proof whiteSpace_fixed as Hall. rewrite forallb_forall in Hall.
  specialize (Hall _ Hin). rewrite <- Hz in Hall.
  apply andb_true_iff in Hall as [Hall Hfind].
  apply andb_true_iff in Hall as [H304 H931].
  apply negb_true_iff in H304, H931.
  unfold Js.lowerChar. rewrite H304.
  destruct (find (Js.maps (Js.codePoint c)) Js.lowerCase); [discriminate|].
  now split.
Qed.

Lemma lowerChar_plain c :
  Js.nonWhite c = true ->
  forallb Js.nonWhite (Js.lowerChar c) = true /\ Js.lowerChar c <> [].
Proof.
  intros Hc. unfold Js.lowerChar.
  destruct (Js.codePoint c =? 304);
    [split; [vm_compute; reflexivity | discriminate]|].
  destruct (find (Js.maps (Js.codePoint c)) Js.lowerCase) as [row|] eqn:E.
  - split; [|discriminate]. cbn [forallb]. now rewrite (mapped_plain _ _ E).
  - split; [|discriminate]. cbn [forallb]. now rewrite Hc.
Qed.

Lemma lowerChars_chars cs inWord :
  forallb Js.isChar cs = true ->
  forallb Js.isChar (Js.lowerChars inWord cs) = true /\
  forallb Js.isWhitespace (Js.lowerChars inWord cs) =
  forallb Js.isWhitespace cs.
Proof.
  revert inWord. induction cs as [|c cs IH]; intros inWord H; [now split|].
  cbn [forallb] in H. apply andb_true_iff in H as [Hc H].
  cbn [Js.lowerChars forallb]. rewrite !forallb_app.
  destruct (IH (if Js.isCaseIgnorable c then inWord else Js.isCased c) H)
    as [IH1 IH2].
  rewrite IH1, IH2.
  destruct (Js.isWhitespace c) eqn:Hw.
  - destruct (lowerChar_white _ Hw) as [-> ->].
    cbn [andb forallb]. now rewrite Hc, Hw.
  - assert (Hp : Js.nonWhite c = true) by (unfold Js.nonWhite; now rewrite Hc, Hw).
    assert (Himage :
      forallb Js.nonWhite
        (if (Js.codePoint c =? 931) && inWord && Js.endsWord cs
         then [Js.fromCodePoint 962] else Js.lowerChar c) = true /\
      (if (Js.codePoint c =? 931) && inWord && Js.endsWord cs
       then [Js.fromCodePoint 962] else Js.lowerChar c) <> []).
    { destruct ((Js.codePoint c =? 931) && inWord && Js.endsWord cs).
      - split; [vm_compute; reflexivity | discriminate].
      - now apply lowerChar_plain. }
    destruct Himage as [Hall Hne].
    set (image := if (Js.codePoint c =? 931) && inWord && Js.endsWord cs
                  then [Js.fromCodePoint 962] else Js.lowerChar c) in *.
    split.
    + apply andb_true_iff. split; [|reflexivity].
      apply forallb_forall. intros x Hx.
      rewrite forallb_forall in Hall. specialize (Hall _ Hx).
      unfold Js.nonWhite in Hall. now apply andb_true_iff in Hall as [-> _].
    + destruct image as [|d image]; [congruence|].
      cbn [forallb] in *. apply andb_true_iff in Hall as [Hd _].
      unfold Js.nonWhite in Hd. apply andb_true_iff in Hd as [_ Hd].
      apply negb_true_iff in Hd. now rewrite Hd.
Qed.

Lemma trimStart_empty cs :
  match Js.trimStart cs with [] => true | _ => false end =
  forallb Js.isWhitespace cs.
Proof.
  induction cs as [|c cs IH]; [reflexivity|]. cbn [Js.trimStart forallb].
  destruct (Js.isWhitespace c); [exact IH | reflexivity].
Qed.

Lemma trimmed_empty cs :
  match Js.trimEnd (Js.trimStart cs) with [] => true | _ => false end =
  forallb Js.isWhitespace cs.
Proof.
  rewrite <- trimStart_empty.
  destruct (trimStart_head cs) as [-> | (c & r & -> & Hc)]; [reflexivity|].
  now destruct (trimEnd_head c r Hc) as [r' ->].
Qed.

Lemma trim_empty s cs :
  Js.chars s = Some cs ->
  Js.isEmpty (Js.trim s) = forallb Js.isWhitespace cs.
Proof.
  intros E. unfold Js.trim. rewrite E.
  apply chars_spec in E as [_ Hcs].
  rewrite (join_empty _ (trimEnd_chars _ (trimStart_chars _ Hcs))).
  apply trimmed_empty.
Qed.

Lemma trim_lower_empty s :
  Js.isEmpty (Js.trim (Js.toLowerCase s)) = Js.isEmpty (Js.trim s).
Proof.
  unfold Js.toLowerCase. destruct (Js.chars s) as [cs|] eqn:E; [|reflexivity].
  pose proof E as E'. apply chars_spec in E' as [_ Hcs].
  destruct (lowerChars_chars cs false Hcs) as [H1 H2].
  now rewrite (trim_empty _ _ (chars_join _ H1)), (trim_empty _ _ E).
Qed.

Lemma normalize_trim s : History.normalize (Js.trim s) = History.normalize s.
Proof. unfold History.normalize. now rewrite trim_idempotent. Qed.

(** The two functions on texts outside ASCII: a capital E acute, the capital
    I with a dot, whose lower-case form has two characters, the capital
    sigma at the end of a word and inside one, and white space of several
    kinds around a letter. *)
Lemma platform_examples :
  Js.toLowerCase Scenarios.ecoleUpper = Scenarios.ecoleLower
  /\ Js.toLowerCase (Js.text [304]) = Js.text [105; 775]
  /\ Js.toLowerCase (Js.text [927; 916; 927; 931]) = Js.text [959; 948; 959; 962]
  /\ Js.toLowerCase (Js.text [931; 927; 931; 46; 32; 931])
     = Js.text [963; 959; 962; 46; 32; 963]
  /\ Js.toLowerCase "Order 123" = "order 123"
  /\ Js.trim (Js.text [160; 65279; 32; 120; 8232; 12288; 10]) = "x"
  /\ Js.trim Scenarios.nbsp = EmptyString
  /\ Js.trim (Js.text [133; 120; 8203]) = Js.text [133; 120; 8203].
Proof. vm_compute. repeat split; reflexivity. Qed.

End StringFacts.

(** ** The map *)

Section MapFacts.

Context {V : Type}.

Implicit Types (m : JsMap.t V) (k : string) (v : V).

Lemma get_set_same k v m : JsMap.get k (JsMap.set k v m) = Some v.
Proof.
  induction m as [|[k' v'] r IH]; simpl.
  - now rewrite String.eqb_refl.
  - destruct (String.eqb k k') eqn:E; simpl; rewrite ?E, ?String.eqb_refl; auto.
Qed.

Lemma get_set_other k k' v m :
  k <> k' -> JsMap.get k (JsMap.set k' v m) = JsMap.get k m.
Proof.
  intros Hne. apply String.eqb_neq in Hne.
  induction m as [|[k2 v2] r IH]; simpl.
  - now rewrite Hne.
  - destruct (String.eqb k' k2) eqn:E; simpl.
    + apply String.eqb_eq in E. subst k2. now rewrite Hne.
    + now rewrite IH.
Qed.

Lemma get_in k v m : JsMap.get k m = Some v -> In (k, v) m.
Proof.
  induction m as [|[k' v'] r IH]; simpl; [discriminate|].
  destruct (String.eqb k k') eqn:E.
  - apply String.eqb_eq in E. intros [= ->]. subst. now left.
  - intros H. right. auto.
Qed.

Lemma get_none k m : JsMap.get k m = None <-> ~ In k (JsMap.keys m).
Proof.
  induction m as [|[k' v'] r IH]; simpl; [tauto|].
  destruct (String.eqb k k') eqn:E.
  - apply String.eqb_eq in E. subst. split; [discriminate | tauto].
  - apply String.eqb_neq in E. rewrite IH. unfold JsMap.keys. split; intuition congruence.
Qed.

Lemma in_get k v m : NoDup (JsMap.keys m) -> In (k, v) m -> JsMap.get k m = Some v.
Proof.
  induction m as [|[k' v'] r IH]; simpl; [tauto|].
  intros Hnd [H | H].
  - injection H as -> ->. now rewrite String.eqb_refl.
  - inversion Hnd as [|? ? Hnotin Hnd']; subst.
    destruct (String.eqb k k') eqn:E; auto.
    apply String.eqb_eq in E. subst k'.
    exfalso. apply Hnotin. unfold JsMap.keys. change k with (fst (k, v)). now apply in_map.
Qed.

Lemma get_filter_none k m f : JsMap.get k m = None -> JsMap.get k (filter f m) = None.
Proof.
  rewrite !get_none. unfold JsMap.keys. intros H Hin. apply H.
  apply in_map_iff in Hin as ((k1 & v1) & <- & Hin).
  apply filter_In in Hin as [Hin _]. now apply (in_map fst) in Hin.
Qed.

Lemma get_delete_same k m : JsMap.get k (JsMap.delete k m) = None.
Proof.
  apply get_none. unfold JsMap.keys, JsMap.delete. intros Hin.
  apply in_map_iff in Hin as ((k1 & v1) & <- & Hin).
  apply filter_In in Hin as [_ Hin]. simpl in Hin. now rewrite String.eqb_refl in Hin.
Qed.

Lemma get_delete_other k k' m :
  k <> k' -> JsMap.get k (JsMap.delete k' m) = JsMap.get k m.
Proof.
  intros Hne. induction m as [|[k2 v2] r IH]; simpl; auto.
  destruct (String.eqb k' k2) eqn:E; simpl.
  - apply String.eqb_eq in E. subst k2.
    apply String.eqb_neq in Hne. now rewrite Hne.
  - now rewrite IH.
Qed.

Lemma keys_set k v m :
  JsMap.keys (JsMap.set k v m) =
  if JsMap.has k m then JsMap.keys m else JsMap.keys m ++ [k].
Proof.
  unfold JsMap.has. induction m as [|[k' v'] r IH]; simpl; auto.
  destruct (String.eqb k k') eqn:E; simpl.
  - apply String.eqb_eq in E. now subst.
  - rewrite IH. now destruct (JsMap.get k r).
Qed.

Lemma has_true k m : JsMap.has k m = true <-> In k (JsMap.keys m).
Proof.
  unfold JsMap.has. destruct (JsMap.get k m) eqn:E.
  - split; auto. intros _. apply get_in in E. now apply (in_map fst) in E.
  - apply get_none in E. split; [discriminate | tauto].
Qed.

Lemma length_set k v m :
  length (JsMap.set k v m) = if JsMap.has k m then length m else S (length m).
Proof.
  rewrite <- (length_map fst (JsMap.set k v m)).
  fold (JsMap.keys (JsMap.set k v m)). rewrite keys_set.
  destruct (JsMap.has k m); unfold JsMap.keys.
  - now rewrite length_map.
  - rewrite length_app, length_map. simpl. lia.
Qed.

Lemma nodup_set k v m : NoDup (JsMap.keys m) -> NoDup (JsMap.keys (JsMap.set k v m)).
Proof.
  intros Hnd. rewrite keys_set. destruct (JsMap.has k m) eqn:E; auto.
  apply NoDup_app; auto.
  - constructor; [simpl; tauto | constructor].
  - intros x Hx [<- | []].
    apply has_true in Hx. congruence.
Qed.

Lemma keys_filter_incl m f : incl (JsMap.keys (filter f m)) (JsMap.keys m).
Proof.
  intros k Hin. unfold JsMap.keys in *.
  apply in_map_iff in Hin as (p & <- & Hin).
  apply filter_In in Hin as [Hin _]. now apply in_map.
Qed.

Lemma nodup_filter m f : NoDup (JsMap.keys m) -> NoDup (JsMap.keys (filter f m)).
Proof.
  unfold JsMap.keys. induction m as [|p r IH]; simpl; auto.
  intros Hnd. inversion Hnd as [|? ? Hnotin Hnd']; subst.
  destruct (f p); simpl; auto.
  constructor; auto.
  intros Hin. apply Hnotin. now apply (keys_filter_incl r f).
Qed.

Lemma in_set k v k' v' m :
  In (k', v') (JsMap.set k v m) -> (k' = k /\ v' = v) \/ In (k', v') m.
Proof.
  induction m as [|[k2 v2] r IH]; simpl.
  - intros [[= <- <-] | []]. now left.
  - destruct (String.eqb k k2) eqn:E; simpl.
    + intros [[= <- <-] | H]; [now left | right; now right].
    + intros [H | H]; [right; now left|].
      destruct (IH H); [now left | right; now right].
Qed.


Lemma delete_absent k m : ~ In k (JsMap.keys m) -> JsMap.delete k m = m.
Proof.
  unfold JsMap.delete, JsMap.keys.
  induction m as [|[k2 v2] r IH]; simpl; auto.
  intros Hnot. destruct (String.eqb_spec k k2) as [-> | Hne]; [tauto|].
  simpl. f_equal. apply IH. tauto.
Qed.

Lemma length_delete k m :
  NoDup (JsMap.keys m) -> In k (JsMap.keys m) ->
  S (length (JsMap.delete k m)) = length m.
Proof.
  unfold JsMap.keys.
  induction m as [|[k2 v2] r IH]; simpl; [tauto|].
  intros Hnd Hin. inversion Hnd as [|? ? Hnotin Hnd']; subst.
  destruct (String.eqb_spec k k2) as [-> | Hne]; simpl.
  - f_equal. f_equal. fold (JsMap.delete k2 r). now apply delete_absent.
  - f_equal. apply IH; auto. destruct Hin; congruence.
Qed.

End MapFacts.

(** ** The monad *)

Section MonadFacts.

Context {W : Type}.

Lemma bind_ret_eq {A B} (m : M W A) (k : A -> M W B) w a w1 :
  m w = (Ret a, w1) -> bind m k w = k a w1.
Proof. intros E. unfold bind. now rewrite E. Qed.

Lemma bind_throw_eq {A B} (m : M W A) (k : A -> M W B) w e w1 :
  m w = (Throw e, w1) -> bind m k w = (Throw e, w1).
Proof. intros E. unfold bind. now rewrite E. Qed.

Lemma returns_ret {A} (a : A) (w : W) : returns (ret a) w.
Proof. now exists a, w. Qed.

Lemma returns_bind {A B} (m : M W A) (k : A -> M W B) w :
  returns m w -> (forall a w1, returns (k a) w1) -> returns (bind m k) w.
Proof.
  intros (a & w1 & E) Hk. destruct (Hk a w1) as (b & w2 & E2).
  exists b, w2. now rewrite (bind_ret_eq _ _ _ _ _ E).
Qed.

(** A [try] whose handler returns lets nothing through. *)
Lemma returns_tryCatch {A} (m : M W A) (h : exn -> M W A) w :
  (forall e w1, returns (h e) w1) -> returns (tryCatch m h) w.
Proof.
  intros Hh. unfold returns, tryCatch.
  destruct (m w) as [[a | e] w1]; eauto.
  apply Hh.
Qed.

Lemma returns_when (b : bool) (m : M W unit) w :
  (forall w1, returns m w1) -> returns (when b m) w.
Proof. intros H. destruct b; simpl; [apply H | apply returns_ret]. Qed.

End MonadFacts.

(** ** The cache *)

Section CacheFacts.

Variable T : Type.
Variable stringifies : T -> bool.
Variable adapter : Adapter.
Variable config : Cache.CacheConfig.

Local Abbreviation World := (Cache.World T).
Local Abbreviation writeCache := (Cache.writeCache T stringifies adapter).
Local Abbreviation updateOldestKey := (Cache.updateOldestKey T).
Local Abbreviation pruneOldest := (Cache.pruneOldest T config).
Local Abbreviation cleanExpiredWith := (Cache.cleanExpiredWith T).
Local Abbreviation saveToStorageN := (Cache.saveToStorageN T stringifies adapter config).
Local Abbreviation saveToStorage := (Cache.saveToStorage T stringifies adapter config).
Local Abbreviation cleanExpired := (Cache.cleanExpired T stringifies adapter config).
Local Abbreviation Shrinks := (Cache.Shrinks T).
Local Abbreviation safe := (Cache.safe T).

Lemma filter_all {A} (l : list A) : filter (fun _ => true) l = l.
Proof. induction l; simpl; congruence. Qed.

Lemma filter_twice {A} (f g : A -> bool) (l : list A) :
  filter g (filter f l) = filter (fun x => f x && g x) l.
Proof.
  induction l as [|x l IH]; simpl; auto.
  destruct (f x); simpl; [destruct (g x); simpl; congruence | auto].
Qed.

Lemma Shrinks_refl w : Shrinks w w.
Proof. exists (fun _ => true). now rewrite filter_all. Qed.

Lemma Shrinks_same w w' : Cache.cache w' = Cache.cache w -> Shrinks w w'.
Proof. intros E. exists (fun _ => true). now rewrite filter_all. Qed.

Lemma Shrinks_trans w1 w2 w3 : Shrinks w1 w2 -> Shrinks w2 w3 -> Shrinks w1 w3.
Proof.
  intros [f E1] [g E2]. exists (fun x => f x && g x).
  now rewrite E2, E1, filter_twice.
Qed.

Lemma Shrinks_length w w' :
  Shrinks w w' -> (length (Cache.cache w') <= length (Cache.cache w))%nat.
Proof. intros [f ->]. apply filter_length_le. Qed.

Lemma Shrinks_absent w w' k :
  Shrinks w w' ->
  JsMap.get k (Cache.cache w) = None -> JsMap.get k (Cache.cache w') = None.
Proof. intros [f ->]. apply get_filter_none. Qed.

Lemma Shrinks_in w w' p :
  Shrinks w w' -> In p (Cache.cache w') -> In p (Cache.cache w).
Proof. intros [f ->] H. now apply filter_In in H. Qed.

Lemma safe_returns {A} (m : M World A) w : safe m -> returns m w.
Proof. intros H. destruct (H w) as (a & w' & E & _). now exists a, w'. Qed.

Lemma safe_ret {A} (a : A) : safe (ret a : M World A).
Proof. intros w. exists a, w. split; [reflexivity | apply Shrinks_refl]. Qed.

Lemma safe_bind {A B} (m : M World A) (k : A -> M World B) :
  safe m -> (forall a, safe (k a)) -> safe (bind m k).
Proof.
  intros Hm Hk w. destruct (Hm w) as (a & w1 & E & S1).
  destruct (Hk a w1) as (b & w2 & E2 & S2).
  exists b, w2. rewrite (bind_ret_eq _ _ _ _ _ E). split; auto.
  eapply Shrinks_trans; eauto.
Qed.

Lemma safe_getW : safe (getW : M World World).
Proof. intros w. exists w, w. split; [reflexivity | apply Shrinks_refl]. Qed.

Lemma safe_modify (f : World -> World) :
  (forall w, Shrinks w (f w)) -> safe (modifyW f).
Proof. intros H w. exists tt, (f w). split; [reflexivity | apply H]. Qed.

Lemma safe_when (b : bool) (m : M World unit) : safe m -> safe (when b m).
Proof. intros H. destruct b; simpl; [exact H | apply safe_ret]. Qed.

Lemma safe_delete k :
  safe (modifyW (fun w : World => Cache.setCache T (JsMap.delete k (Cache.cache w)) w)).
Proof. apply safe_modify. intros w. now exists (fun p => negb (String.eqb k (fst p))). Qed.

Lemma safe_updateOldestKey : safe updateOldestKey.
Proof. apply safe_modify. intros w. now apply Shrinks_same. Qed.

(** A write changes neither the map nor the pointer, whether it raises or
    not. *)
Lemma writeCache_keeps w :
  exists r w', writeCache w = (r, w')
    /\ Cache.cache w' = Cache.cache w
    /\ Cache.oldestKey w' = Cache.oldestKey w
    /\ Cache.oldestTimestamp w' = Cache.oldestTimestamp w.
Proof.
  unfold Cache.writeCache, bind, getW, Cache.setItem, throw.
  destruct (Cache.serialize T stringifies (Cache.cache w)).
  - destruct (onSet adapter (Cache.calls w)); eexists; eexists; split; eauto.
  - eexists; eexists; split; eauto.
Qed.

Lemma safe_retry : safe (tryCatch writeCache (fun _ => ret tt)).
Proof.
  intros w. destruct (writeCache_keeps w) as (r & w' & E & Hc & _).
  unfold tryCatch. rewrite E. destruct r as [[] | e].
  - exists tt, w'. split; auto. now apply Shrinks_same.
  - exists tt, w'. split; auto. now apply Shrinks_same.
Qed.

Lemma safe_pruneOldest fuel : safe (pruneOldest fuel).
Proof.
  induction fuel as [|fuel IH]; cbn [Cache.pruneOldest].
  - apply safe_ret.
  - apply safe_bind; [apply safe_getW|]. intros w.
    destruct (_ >? _); [|apply safe_ret].
    destruct (Cache.truthy (Cache.oldestKey w)); [|apply safe_ret].
    apply safe_bind; [apply safe_delete|]. intros _.
    apply safe_bind; [apply safe_updateOldestKey|]. intros _. exact IH.
Qed.

Lemma deleteAll_filter ks (m : JsMap.t (Cache.CacheEntry T)) :
  exists f, Cache.deleteAll T ks m = filter f m.
Proof.
  unfold Cache.deleteAll. revert m.
  induction ks as [|k ks IH]; intros m; simpl.
  - exists (fun _ => true). now rewrite filter_all.
  - destruct (IH (JsMap.delete k m)) as [f E].
    exists (fun p => negb (String.eqb k (fst p)) && f p).
    rewrite E. unfold JsMap.delete. apply filter_twice.
Qed.

Lemma safe_cleanExpiredWith save now : safe save -> safe (cleanExpiredWith save now).
Proof.
  intros Hs. unfold Cache.cleanExpiredWith.
  apply safe_bind; [apply safe_getW|]. intros w.
  apply safe_bind.
  - apply safe_modify. intros w1. apply deleteAll_filter.
  - intros _. destruct (_ >? 0); [|apply safe_ret].
    apply safe_bind; [apply safe_updateOldestKey|]. intros _.
    apply safe_bind; [exact Hs|]. intros _. apply safe_ret.
Qed.

Lemma safe_recover save now :
  safe save ->
  safe (cleanExpiredWith save now ;;
        w0 <- getW ;;
        pruneOldest (S (length (Cache.cache w0))) ;;
        tryCatch writeCache (fun _ => ret tt)).
Proof.
  intros Hs.
  apply safe_bind; [now apply safe_cleanExpiredWith|]. intros _.
  apply safe_bind; [apply safe_getW|]. intros w0.
  apply safe_bind; [apply safe_pruneOldest|]. intros _. apply safe_retry.
Qed.

Lemma safe_saveToStorageN n now : safe (saveToStorageN n now).
Proof.
  induction n as [|n IH]; intros w; cbn [Cache.saveToStorageN];
    destruct (writeCache_keeps w) as (r & w1 & E & Hc & _);
    unfold tryCatch at 1; rewrite E; destruct r as [[] | e];
    try (exists tt, w1; split; [reflexivity | now apply Shrinks_same]);
    (destruct (Cache.isQuota e);
     [|exists tt, w1; split; [reflexivity | now apply Shrinks_same]]).
  - destruct (safe_recover (ret tt) now (safe_ret tt) w1) as (a & w2 & E2 & S2).
    exists a, w2. split; auto.
    apply (Shrinks_trans w w1 w2); [now apply Shrinks_same | exact S2].
  - destruct (safe_recover (saveToStorageN n now) now IH w1) as (a & w2 & E2 & S2).
    exists a, w2. split; auto.
    apply (Shrinks_trans w w1 w2); [now apply Shrinks_same | exact S2].
Qed.

Lemma safe_saveToStorage now : safe (saveToStorage now).
Proof.
  unfold Cache.saveToStorage. apply safe_bind; [apply safe_getW|].
  intros w. apply safe_saveToStorageN.
Qed.

Lemma safe_cleanExpired now : safe (cleanExpired now).
Proof. apply safe_cleanExpiredWith, safe_saveToStorage. Qed.

End CacheFacts.

(** ** Expiry *)

Section CacheExpiry.

Variable T : Type.
Variable stringifies : T -> bool.
Variable adapter : Adapter.
Variable config : Cache.CacheConfig.

Local Abbreviation World := (Cache.World T).
Local Abbreviation saveToStorage := (Cache.saveToStorage T stringifies adapter config).
Local Abbreviation get := (Cache.get T stringifies adapter config).
Local Abbreviation set := (Cache.set T stringifies adapter config).
Local Abbreviation writeAccepted := (Cache.writeAccepted T adapter).
Local Abbreviation inserted := (Cache.inserted T config).

(** Without a quota failure [saveToStorage] leaves the instance alone. *)
Lemma saveToStorage_accepted now (w : World) :
  writeAccepted w ->
  exists w', saveToStorage now w = (Ret tt, w')
    /\ Cache.cache w' = Cache.cache w
    /\ Cache.oldestKey w' = Cache.oldestKey w
    /\ Cache.oldestTimestamp w' = Cache.oldestTimestamp w.
Proof.
  intros Hw. unfold Cache.saveToStorage, bind at 1, getW.
  assert (H : forall n, exists w',
             Cache.saveToStorageN T stringifies adapter config n now w = (Ret tt, w')
             /\ Cache.cache w' = Cache.cache w
             /\ Cache.oldestKey w' = Cache.oldestKey w
             /\ Cache.oldestTimestamp w' = Cache.oldestTimestamp w).
  { intros n.
    destruct n; cbn [Cache.saveToStorageN];
      unfold tryCatch at 1, Cache.writeCache, bind at 1, getW, Cache.setItem, throw;
      destruct (Cache.serialize T stringifies (Cache.cache w));
      try (destruct (onSet adapter (Cache.calls w)) as [e|] eqn:E;
           [rewrite (Hw e E)|]); cbn [Cache.isQuota];
      eexists; (split; [reflexivity | auto]). }
  apply H.
Qed.

Lemma get_live key now (w : World) entry :
  JsMap.get key (Cache.cache w) = Some entry ->
  now - Cache.timestamp entry <= Cache.ttl entry ->
  get key now w = (Ret (Some (Cache.data entry)), w).
Proof.
  intros Hk Hage. unfold Cache.get, bind at 1, getW. rewrite Hk.
  destruct (Z.gtb_spec (now - Cache.timestamp entry) (Cache.ttl entry)); [lia|].
  reflexivity.
Qed.

Lemma get_expired key now (w : World) entry :
  JsMap.get key (Cache.cache w) = Some entry ->
  now - Cache.timestamp entry > Cache.ttl entry ->
  exists w', get key now w = (Ret None, w')
    /\ JsMap.get key (Cache.cache w') = None.
Proof.
  intros Hk Hage. unfold Cache.get, bind at 1, getW. rewrite Hk.
  destruct (Z.gtb_spec (now - Cache.timestamp entry) (Cache.ttl entry)); [|lia].
  unfold bind at 1, modifyW.
  destruct (safe_saveToStorage T stringifies adapter config now
              (Cache.setCache T (JsMap.delete key (Cache.cache w)) w))
    as ([] & w' & E & HS).
  exists w'. rewrite (bind_ret_eq _ _ _ _ _ E). split; [reflexivity|].
  eapply Shrinks_absent; [exact HS|]. apply get_delete_same.
Qed.

Lemma get_absent key now (w : World) :
  JsMap.get key (Cache.cache w) = None -> get key now w = (Ret None, w).
Proof. intros Hk. unfold Cache.get, bind at 1, getW. now rewrite Hk. Qed.

Lemma set_unfold key value ttl0 now (w : World) :
  set key value ttl0 now w =
  saveToStorage now
    (inserted key
       {| Cache.data := value; Cache.timestamp := now;
          Cache.ttl := match ttl0 with
                       | Some t => t
                       | None => Cache.defaultTTL config
                       end |} w).
Proof.
  unfold Cache.set, inserted, bind at 1, getW.
  destruct (Cache.size w >=? Cache.maxSize config);
    [destruct (Cache.truthy (Cache.oldestKey w))|];
    cbn [bind modifyW ret Cache.updateOldestKey Cache.cache Cache.setCache
         Cache.setOldest Cache.oldestTimestamp Cache.timestamp getW when];
    match goal with
    | |- context [Cache.ltBound ?a ?b] => destruct (Cache.ltBound a b)
    end; reflexivity.
Qed.

Lemma inserted_calls key entry (w : World) :
  Cache.calls (inserted key entry w) = Cache.calls w.
Proof.
  unfold inserted.
  destruct (Cache.size w >=? Cache.maxSize config);
    [destruct (Cache.truthy (Cache.oldestKey w))|];
    cbn [Cache.cache Cache.setCache Cache.setOldest Cache.oldestTimestamp];
    match goal with
    | |- context [Cache.ltBound ?a ?b] => destruct (Cache.ltBound a b)
    end; reflexivity.
Qed.

Lemma inserted_binds key entry (w : World) :
  JsMap.get key (Cache.cache (inserted key entry w)) = Some entry.
Proof.
  unfold inserted.
  destruct (Cache.size w >=? Cache.maxSize config);
    [destruct (Cache.truthy (Cache.oldestKey w))|];
    cbn [Cache.cache Cache.setCache Cache.setOldest Cache.oldestTimestamp];
    match goal with
    | |- context [Cache.ltBound ?a ?b] => destruct (Cache.ltBound a b)
    end; cbn [Cache.cache Cache.setCache Cache.setOldest]; apply get_set_same.
Qed.

(** C1, as amended.  When the write that ends [set(k, v, t)] at [t0] is not
    refused for quota, [k] is bound to the new entry afterwards; and in any
    later state in which [k] is still bound to that entry, [get(k)] at [t1]
    returns [v] and changes nothing while [t1 - t0 <= t], and returns absent
    with [k] removed from the map once [t1 - t0 > t]. *)
Theorem get_after_set key value t t0 (w : World) :
  writeAccepted w ->
  let entry := {| Cache.data := value; Cache.timestamp := t0; Cache.ttl := t |} in
  exists w1,
    set key value (Some t) t0 w = (Ret tt, w1)
    /\ JsMap.get key (Cache.cache w1) = Some entry
    /\ forall (w2 : World) t1,
         JsMap.get key (Cache.cache w2) = Some entry ->
         (t1 - t0 <= t -> get key t1 w2 = (Ret (Some value), w2))
         /\ (t1 - t0 > t ->
             exists w3, get key t1 w2 = (Ret None, w3)
                        /\ JsMap.get key (Cache.cache w3) = None).
Proof.
  intros Hw entry. rewrite set_unfold. fold entry.
  destruct (saveToStorage_accepted t0 (inserted key entry w)) as (w1 & E & Hc & _).
  { unfold writeAccepted. rewrite inserted_calls. exact Hw. }
  exists w1. split; [exact E|]. split.
  - rewrite Hc. apply inserted_binds.
  - intros w2 t1 Hk. split; intros Hage.
    + exact (get_live key t1 w2 entry Hk Hage).
    + exact (get_expired key t1 w2 entry Hk Hage).
Qed.

End CacheExpiry.

(** The amended C1 at [set("k", "v", 1000)] on a new cache over an adapter
    that accepts every call. *)
Lemma get_after_set_witness :
  exists w1,
    Cache.set string Scenarios.anyString Scenarios.healthy (Scenarios.capacity 2)
      "k" "v" (Some 1000) 0 (Cache.fresh None) = (Ret tt, w1)
    /\ JsMap.get "k" (Cache.cache w1)
       = Some {| Cache.data := "v"; Cache.timestamp := 0; Cache.ttl := 1000 |}
    /\ forall (w2 : Cache.World string) t1,
         JsMap.get "k" (Cache.cache w2)
         = Some {| Cache.data := "v"; Cache.timestamp := 0; Cache.ttl := 1000 |} ->
         (t1 - 0 <= 1000 ->
          Cache.get string Scenarios.anyString Scenarios.healthy (Scenarios.capacity 2)
            "k" t1 w2 = (Ret (Some "v"), w2))
         /\ (t1 - 0 > 1000 ->
             exists w3,
               Cache.get string Scenarios.anyString Scenarios.healthy
                 (Scenarios.capacity 2) "k" t1 w2 = (Ret None, w3)
               /\ JsMap.get "k" (Cache.cache w3) = None).
Proof.
  apply (get_after_set string Scenarios.anyString Scenarios.healthy
           (Scenarios.capacity 2) "k" "v" 1000 0 (Cache.fresh None)).
  intros e H. simpl in H. discriminate.
Defined.

(** C1 as stated fails when the write of [set] is refused for quota: with
    capacity [1] the recovery evicts the entry that was just inserted, and
    the [get] that follows at once finds nothing. *)
Lemma get_after_set_under_quota :
  0 - 0 <= 1000
  /\ Cache.get string Scenarios.anyString Scenarios.quotaOnSet (Scenarios.capacity 1)
       "k" 0 Scenarios.setUnderQuota
     = (Ret None, Scenarios.setUnderQuota)
  /\ Cache.cache Scenarios.setUnderQuota = [].
Proof. split; [lia|]. split; reflexivity. Qed.

(** ** Capacity *)

(** C2 fails on the code.  [get] removes an expired entry without moving
    the pointer; when that entry was the tracked oldest one, the next [set]
    at capacity deletes a key that is no longer there and inserts all the
    same: capacity [2], three entries. *)
Theorem capacity_exceeded_after_lazy_expiry :
  Cache.maxSize (Scenarios.capacity 2) = 2
  /\ Cache.size Scenarios.afterStalePointer = 3
  /\ JsMap.keys (Cache.cache Scenarios.afterStalePointer) = ["b"; "c"; "d"].
Proof. repeat split; reflexivity. Qed.

(** Scenario B: three insertions into a new cache of capacity [2] leave two
    entries. *)
Example three_sets_capacity_two :
  Cache.size Scenarios.afterThreeSets = 2
  /\ JsMap.keys (Cache.cache Scenarios.afterThreeSets) = ["b"; "c"].
Proof. split; reflexivity. Qed.

Section CacheOverwrite.

Variable T : Type.
Variable stringifies : T -> bool.
Variable adapter : Adapter.
Variable config : Cache.CacheConfig.

Local Abbreviation World := (Cache.World T).
Local Abbreviation set := (Cache.set T stringifies adapter config).
Local Abbreviation writeAccepted := (Cache.writeAccepted T adapter).

(** C10, as amended.  The map is full, [k] is one of its keys, the tracked
    oldest key is another key of the map and is not the empty string, and
    the write is not refused for quota: [set(k, v)] removes the tracked
    oldest entry, rebinds [k], and leaves [maxSize - 1] entries. *)
Theorem overwrite_at_capacity key value ttl0 now (w : World) oldest :
  NoDup (JsMap.keys (Cache.cache w)) ->
  Cache.size w = Cache.maxSize config ->
  In key (JsMap.keys (Cache.cache w)) ->
  Cache.oldestKey w = Some oldest ->
  oldest <> EmptyString ->
  oldest <> key ->
  In oldest (JsMap.keys (Cache.cache w)) ->
  writeAccepted w ->
  exists w',
    set key value ttl0 now w = (Ret tt, w')
    /\ JsMap.get oldest (Cache.cache w') = None
    /\ JsMap.get key (Cache.cache w')
       = Some {| Cache.data := value; Cache.timestamp := now;
                 Cache.ttl := match ttl0 with
                              | Some t => t
                              | None => Cache.defaultTTL config
                              end |}
    /\ Cache.size w' = Cache.maxSize config - 1.
Proof.
  intros Hnd Hsize Hkey Hold Hne Hdiff Hin Hw.
  rewrite set_unfold.
  set (entry := {| Cache.data := value; Cache.timestamp := now; Cache.ttl := _ |}).
  destruct (saveToStorage_accepted T stringifies adapter config now
              (Cache.inserted T config key entry w)) as (w' & E & Hc & _).
  { unfold Cache.writeAccepted. rewrite inserted_calls. exact Hw. }
  exists w'. split; [exact E|].
  assert (Hm : Cache.cache (Cache.inserted T config key entry w)
               = JsMap.set key entry (JsMap.delete oldest (Cache.cache w))).
  { unfold Cache.inserted. rewrite Hold.
    replace (Cache.size w >=? Cache.maxSize config) with true
      by (symmetry; apply Z.geb_le; lia).
    assert (Ht : Cache.truthy (Some oldest) = Some oldest).
    { unfold Cache.truthy. destruct oldest; [congruence | reflexivity]. }
    rewrite Ht.
    cbn [Cache.cache Cache.setCache Cache.setOldest Cache.oldestTimestamp].
    match goal with
    | |- context [Cache.ltBound ?a ?b] => destruct (Cache.ltBound a b)
    end; reflexivity. }
  unfold Cache.size. rewrite Hc, Hm. repeat split.
  - rewrite get_set_other by exact Hdiff. apply get_delete_same.
  - apply get_set_same.
  - rewrite length_set.
    assert (Hhas : JsMap.has key (JsMap.delete oldest (Cache.cache w)) = true).
    { unfold JsMap.has. rewrite get_delete_other by congruence.
      apply has_true in Hkey. exact Hkey. }
    rewrite Hhas. unfold Cache.size in Hsize.
    pose proof (length_delete oldest (Cache.cache w) Hnd Hin). lia.
Qed.

End CacheOverwrite.

(** The amended C10 on a full cache of capacity [2]: overwriting ["b"]
    evicts ["a"]. *)
Lemma overwrite_at_capacity_witness :
  exists w',
    Cache.set string Scenarios.anyString Scenarios.healthy (Scenarios.capacity 2)
      "b" "3" None 2
      (Scenarios.after
         (Cache.set string Scenarios.anyString Scenarios.healthy (Scenarios.capacity 2)
            "b" "2" None 1)
         (Scenarios.after
            (Cache.set string Scenarios.anyString Scenarios.healthy
               (Scenarios.capacity 2) "a" "1" None 0)
            (Cache.fresh None)))
    = (Ret tt, w')
    /\ JsMap.get "a" (Cache.cache w') = None
    /\ JsMap.get "b" (Cache.cache w')
       = Some {| Cache.data := "3"; Cache.timestamp := 2;
                 Cache.ttl := Cache.defaultTTL (Scenarios.capacity 2) |}
    /\ Cache.size w' = Cache.maxSize (Scenarios.capacity 2) - 1.
Proof.
  apply (overwrite_at_capacity string Scenarios.anyString Scenarios.healthy
           (Scenarios.capacity 2) "b" "3" None 2 _ "a").
  - vm_compute. repeat constructor; simpl; intuition discriminate.
  - reflexivity.
  - vm_compute. auto.
  - reflexivity.
  - discriminate.
  - discriminate.
  - vm_compute. auto.
  - intros e H. vm_compute in H. discriminate.
Defined.

(** C10 as stated fails when the write is refused for quota: the full cache
    of capacity [4] tracks ["a"], [set("b", ...)] evicts it, and the
    recovery prunes down to two entries, the rewritten ["b"] among the
    removed ones. *)
Lemma overwrite_under_quota :
  Cache.size Scenarios.full = Cache.maxSize (Scenarios.capacity 4)
  /\ JsMap.has "b" (Cache.cache Scenarios.full) = true
  /\ Cache.oldestKey Scenarios.full = Some "a"
  /\ JsMap.keys (Cache.cache Scenarios.overwrittenUnderQuota) = ["c"; "d"]
  /\ Cache.size Scenarios.overwrittenUnderQuota
     <> Cache.maxSize (Scenarios.capacity 4) - 1.
Proof. repeat split; try reflexivity. vm_compute. discriminate. Qed.

(** ** Recovery from a refused write *)

Section CacheRecovery.

Variable T : Type.
Variable stringifies : T -> bool.
Variable adapter : Adapter.
Variable config : Cache.CacheConfig.

Local Abbreviation World := (Cache.World T).
Local Abbreviation writeCache := (Cache.writeCache T stringifies adapter).
Local Abbreviation pruneOldest := (Cache.pruneOldest T config).
Local Abbreviation cleanExpiredWith := (Cache.cleanExpiredWith T).
Local Abbreviation saveToStorageN := (Cache.saveToStorageN T stringifies adapter config).
Local Abbreviation saveToStorage := (Cache.saveToStorage T stringifies adapter config).
Local Abbreviation cleanExpired := (Cache.cleanExpired T stringifies adapter config).
Local Abbreviation Shrinks := (Cache.Shrinks T).
Local Abbreviation pruned := (Cache.pruned T config).
Local Abbreviation Evicted := (Cache.Evicted T config).

Implicit Types (m : JsMap.t (Cache.CacheEntry T)) (w : World).

(** *** The sweep *)

Lemma deleteAll_spec ks m :
  Cache.deleteAll T ks m
  = filter (fun p => negb (existsb (String.eqb (fst p)) ks)) m.
Proof.
  unfold Cache.deleteAll. revert m.
  induction ks as [|k ks IH]; intros m; simpl.
  - now rewrite filter_all.
  - rewrite IH. unfold JsMap.delete. rewrite filter_twice.
    apply filter_ext. intros p. rewrite negb_orb.
    now rewrite (String.eqb_sym k (fst p)).
Qed.



(** [cleanExpired] step by step. *)
Lemma cleanExpiredWith_unfold save now w :
  cleanExpiredWith save now w =
  let ks := Cache.expiredKeys T now (Cache.cache w) in
  let w1 := Cache.setCache T (Cache.deleteAll T ks (Cache.cache w)) w in
  if Z.of_nat (length ks) >? 0
  then match save (Cache.setOldest T (fst (Cache.scanOldest (Cache.cache w1)))
                     (snd (Cache.scanOldest (Cache.cache w1))) w1) with
       | (Ret _, w2) => (Ret (Z.of_nat (length ks)), w2)
       | (Throw e, w2) => (Throw e, w2)
       end
  else (Ret (Z.of_nat (length ks)), w1).
Proof.
  unfold Cache.cleanExpiredWith, bind, getW, modifyW, Cache.updateOldestKey, ret.
  cbv zeta. destruct (_ >? 0); reflexivity.
Qed.




(** *** The pointer *)

Lemma scanOldest_acc m (acc : option string * option Z) :
  let r := fold_left
             (fun acc p => if Cache.ltBound (Cache.timestamp (snd p)) (snd acc)
                           then (Some (fst p), Some (Cache.timestamp (snd p)))
                           else acc) m acc in
  (fst r = fst acc \/ exists k, fst r = Some k /\ In k (JsMap.keys m))
  /\ (fst acc <> None -> fst r <> None)
  /\ (snd acc = None -> m <> [] -> fst r <> None).
Proof.
  revert acc. induction m as [|[k e] m IH]; intros acc; simpl.
  - repeat split; auto; congruence.
  - specialize (IH (if Cache.ltBound (Cache.timestamp e) (snd acc)
                    then (Some k, Some (Cache.timestamp e)) else acc)).
    simpl in IH. destruct IH as (H1 & H2 & H3).
    destruct (Cache.ltBound (Cache.timestamp e) (snd acc)) eqn:E; simpl in *.
    + repeat split.
      * right. destruct H1 as [H1 | (k' & H1 & Hin)]; eauto.
      * intros _. apply H2. discriminate.
      * intros _ _. apply H2. discriminate.
    + repeat split.
      * destruct H1 as [H1 | (k' & H1 & Hin)]; eauto.
      * exact H2.
      * intros Hn. rewrite Hn in E. discriminate.
Qed.

Lemma scanOldest_key m k :
  fst (Cache.scanOldest m) = Some k -> In k (JsMap.keys m).
Proof.
  intros H. destruct (scanOldest_acc m (None, None)) as ([H1 | (k' & H1 & Hin)] & _).
  - unfold Cache.scanOldest in H. simpl in H1. congruence.
  - unfold Cache.scanOldest in H. congruence.
Qed.

Lemma scanOldest_none m : fst (Cache.scanOldest m) = None -> m = [].
Proof.
  intros H. destruct m as [|p m]; auto.
  destruct (scanOldest_acc (p :: m) (None, None)) as (_ & _ & H3).
  exfalso. apply H3; [reflexivity | discriminate | exact H].
Qed.


(** *** The loop *)



(** *** The handler *)



(** The eviction has one outcome. *)
Lemma Evicted_unique w w1 w2 : Evicted w w1 -> Evicted w w2 -> w1 = w2.
Proof.
  intros H1. revert w2. induction H1 as [w Hp | w k w' Hgt Hk _ IH]; intros w2 H2.
  - destruct H2 as [w _ | w k w' Hgt Hk _]; [reflexivity|].
    destruct Hp as [Hp | Hp]; [lia | congruence].
  - destruct H2 as [w Hp | w k2 w2 _ Hk2 H2].
    + destruct Hp as [Hp | Hp]; [lia | congruence].
    + apply IH. congruence.
Qed.






End CacheRecovery.



(** ** The cap along runs without lazy expiry *)

Section CacheCapacity.

Variable T : Type.
Variable stringifies : T -> bool.
Variable adapter : Adapter.
Variable config : Cache.CacheConfig.

Local Abbreviation World := (Cache.World T).
Local Abbreviation writeCache := (Cache.writeCache T stringifies adapter).
Local Abbreviation pruneOldest := (Cache.pruneOldest T config).
Local Abbreviation cleanExpiredWith := (Cache.cleanExpiredWith T).
Local Abbreviation saveToStorageN := (Cache.saveToStorageN T stringifies adapter config).
Local Abbreviation saveToStorage := (Cache.saveToStorage T stringifies adapter config).
Local Abbreviation live := (Cache.live T).
Local Abbreviation recomputed := (Cache.recomputed T).
Local Abbreviation steady := (Cache.steady T).
Local Abbreviation capped := (Cache.capped T config).

Implicit Types (m : JsMap.t (Cache.CacheEntry T)) (w : World).

Lemma recomputed_live w : recomputed w -> live w.
Proof.
  intros [Hk Ht].
  destruct (fst (Cache.scanOldest (Cache.cache w))) as [k|] eqn:Ek.
  - right. exists k. split; [exact Hk | now apply scanOldest_key].
  - left. apply scanOldest_none in Ek. split; [exact Ek|].
    rewrite Ht, Ek. reflexivity.
Qed.

Lemma live_same w w' :
  Cache.cache w' = Cache.cache w ->
  Cache.oldestKey w' = Cache.oldestKey w ->
  Cache.oldestTimestamp w' = Cache.oldestTimestamp w ->
  live w -> live w'.
Proof. unfold Cache.live. intros -> -> ->. auto. Qed.

Lemma steady_ret {A} (a : A) : steady (ret a).
Proof. intros w H. now exists a, w. Qed.

Lemma steady_bind {A B} (f : M World A) (k : A -> M World B) :
  steady f -> (forall a, steady (k a)) -> steady (bind f k).
Proof.
  intros Hf Hk w H. destruct (Hf w H) as (a & w1 & E & H1).
  destruct (Hk a w1 H1) as (b & w2 & E2 & H2).
  exists b, w2. now rewrite (bind_ret_eq _ _ _ _ _ E).
Qed.

Lemma steady_getW : steady getW.
Proof. intros w H. now exists w, w. Qed.

Lemma steady_retry : steady (tryCatch writeCache (fun _ => ret tt)).
Proof.
  intros w H. destruct (writeCache_keeps T stringifies adapter w) as (r & w' & E & Hc & Hk & Ht).
  unfold tryCatch. rewrite E.
  destruct r as [[] | e]; exists tt, w'; (split; [reflexivity | now apply (live_same w)]).
Qed.

Lemma steady_pruneOldest fuel : steady (pruneOldest fuel).
Proof.
  induction fuel as [|fuel IH]; cbn [Cache.pruneOldest]; [apply steady_ret|].
  apply steady_bind; [apply steady_getW|]. intros w0.
  destruct (_ >? _); [|apply steady_ret].
  destruct (Cache.truthy (Cache.oldestKey w0)); [|apply steady_ret].
  intros w H. unfold bind at 1, modifyW. unfold bind at 1, Cache.updateOldestKey, modifyW.
  apply IH. apply recomputed_live. split; reflexivity.
Qed.

Lemma deleteAll_nil m : Cache.deleteAll T [] m = m.
Proof. reflexivity. Qed.

Lemma steady_cleanExpiredWith save now : steady save -> steady (cleanExpiredWith save now).
Proof.
  intros Hs w H. rewrite cleanExpiredWith_unfold. cbv zeta.
  destruct (Cache.expiredKeys T now (Cache.cache w)) as [|k ks] eqn:E.
  - eexists; eexists; split; [reflexivity|]. now apply (live_same w).
  - replace (Z.of_nat (length (k :: ks)) >? 0) with true
      by (symmetry; apply Z.gtb_lt; simpl; lia).
    match goal with
    | |- context [save ?w0] =>
        destruct (Hs w0) as ([] & w2 & E2 & H2);
        [apply recomputed_live; split; reflexivity | rewrite E2]
    end.
    eexists; eexists; split; [reflexivity | exact H2].
Qed.

Lemma steady_saveToStorageN n now : steady (saveToStorageN n now).
Proof.
  assert (Hrec : forall save, steady save ->
             steady (cleanExpiredWith save now ;;
                     w0 <- getW ;;
                     pruneOldest (S (length (Cache.cache w0))) ;;
                     tryCatch writeCache (fun _ => ret tt))).
  { intros save Hs.
    apply steady_bind; [now apply steady_cleanExpiredWith|]. intros _.
    apply steady_bind; [apply steady_getW|]. intros w0.
    apply steady_bind; [apply steady_pruneOldest|]. intros _. apply steady_retry. }
  induction n as [|n IH]; intros w H; cbn [Cache.saveToStorageN];
    destruct (writeCache_keeps T stringifies adapter w) as (r & w1 & E & Hc & Hk & Ht);
    assert (H1 : live w1) by (now apply (live_same w));
    unfold tryCatch at 1; rewrite E; destruct r as [[] | e];
    try (exists tt, w1; split; [reflexivity | exact H1]);
    (destruct (Cache.isQuota e); [|exists tt, w1; split; [reflexivity | exact H1]]).
  - apply (Hrec (ret tt)); [apply steady_ret | exact H1].
  - apply (Hrec (saveToStorageN n now)); [exact IH | exact H1].
Qed.

Lemma steady_saveToStorage now : steady (saveToStorage now).
Proof.
  unfold Cache.saveToStorage. apply steady_bind; [apply steady_getW|].
  intros w. apply steady_saveToStorageN.
Qed.

(** Persisting keeps the invariant: it only removes entries and keeps the
    pointer live. *)
Lemma saveToStorage_capped now w :
  capped w -> capped (snd (saveToStorage now w)).
Proof.
  intros (Hnd & Hsize & Hlive & Hkeys).
  destruct (safe_saveToStorage T stringifies adapter config now w) as ([] & w' & E & [f Hf]).
  destruct (steady_saveToStorage now w Hlive) as ([] & w2 & E2 & H2).
  rewrite E in E2. injection E2 as <-. rewrite E. cbn [snd].
  split; [|split; [|split]].
  - rewrite Hf. now apply nodup_filter.
  - unfold Cache.size in *. rewrite Hf.
    pose proof (filter_length_le f (Cache.cache w)). lia.
  - exact H2.
  - intros k Hk. apply Hkeys. rewrite Hf in Hk. now apply keys_filter_incl in Hk.
Qed.

Lemma keys_delete_other k k' m :
  k <> k' -> In k (JsMap.keys m) -> In k (JsMap.keys (JsMap.delete k' m)).
Proof.
  intros Hne Hin. apply has_true. apply has_true in Hin.
  unfold JsMap.has in *. now rewrite get_delete_other.
Qed.

Lemma keys_set_incl k v m k' :
  In k' (JsMap.keys m) -> In k' (JsMap.keys (JsMap.set k v m)).
Proof.
  intros Hin. rewrite keys_set. destruct (JsMap.has k m); auto.
  apply in_or_app. now left.
Qed.

Lemma keys_set_new k v m : In k (JsMap.keys (JsMap.set k v m)).
Proof. apply has_true. unfold JsMap.has. now rewrite get_set_same. Qed.

Lemma keys_set_inv k v m k' :
  In k' (JsMap.keys (JsMap.set k v m)) -> k' = k \/ In k' (JsMap.keys m).
Proof.
  rewrite keys_set. destruct (JsMap.has k m); auto.
  intros H. apply in_app_or in H as [H | [<- | []]]; auto.
Qed.

(** The insertion of [set] keeps the invariant. *)
Lemma inserted_capped key entry w :
  1 <= Cache.maxSize config -> key <> EmptyString ->
  capped w -> capped (Cache.inserted T config key entry w).
Proof.
  intros Hmax Hkey (Hnd & Hsize & Hlive & Hkeys).
  unfold Cache.inserted.
  set (w1 := if Cache.size w >=? Cache.maxSize config then _ else w).
  assert (H1 : NoDup (JsMap.keys (Cache.cache w1))
                /\ Cache.size w1 + 1 <= Cache.maxSize config
                /\ live w1
                /\ forall k, In k (JsMap.keys (Cache.cache w1)) -> k <> EmptyString).
  { unfold w1. destruct (Z.geb_spec (Cache.size w) (Cache.maxSize config)) as [Hfull | Hroom].
    - destruct Hlive as [[Hnil _] | (k & Hk & Hin)].
      { unfold Cache.size in Hfull. rewrite Hnil in Hfull. simpl in Hfull. lia. }
      rewrite Hk.
      assert (Ht : Cache.truthy (Some k) = Some k).
      { unfold Cache.truthy. specialize (Hkeys k Hin). destruct k; [congruence | reflexivity]. }
      rewrite Ht. cbn [Cache.cache Cache.setCache Cache.setOldest].
      split; [|split; [|split]].
      + now apply nodup_filter.
      + pose proof (length_delete k (Cache.cache w) Hnd Hin).
        unfold Cache.size in *. cbn [Cache.cache Cache.setCache Cache.setOldest]. lia.
      + apply recomputed_live. split; reflexivity.
      + intros k' Hk'. apply Hkeys. now apply (keys_filter_incl (Cache.cache w)) in Hk'.
    - repeat split; auto. lia. }
  destruct H1 as (Hnd1 & Hsize1 & Hlive1 & Hkeys1).
  cbn [Cache.cache Cache.oldestTimestamp Cache.setCache].
  assert (Hbase : NoDup (JsMap.keys (JsMap.set key entry (Cache.cache w1)))
                  /\ Z.of_nat (length (JsMap.set key entry (Cache.cache w1)))
                     <= Cache.maxSize config
                  /\ forall k, In k (JsMap.keys (JsMap.set key entry (Cache.cache w1))) ->
                               k <> EmptyString).
  { split; [now apply nodup_set|]. split.
    - rewrite length_set. unfold Cache.size in Hsize1.
      destruct (JsMap.has key (Cache.cache w1)); lia.
    - intros k Hk. apply keys_set_inv in Hk as [-> | Hk]; auto. }
  destruct Hbase as (Hnd2 & Hsize2 & Hkeys2).
  destruct (Cache.ltBound (Cache.timestamp entry) (Cache.oldestTimestamp w1)) eqn:El;
    (split; [exact Hnd2 | split; [exact Hsize2 | split; [|exact Hkeys2]]]).
  - right. exists key. split; [reflexivity|]. apply keys_set_new.
  - destruct Hlive1 as [[_ Hnone] | (k & Hk & Hin)].
    + rewrite Hnone in El. discriminate.
    + right. exists k. split; [exact Hk|]. now apply keys_set_incl.
Qed.

Lemma set_capped key value ttl0 now w :
  1 <= Cache.maxSize config -> key <> EmptyString ->
  capped w -> capped (snd (Cache.set T stringifies adapter config key value ttl0 now w)).
Proof.
  intros Hmax Hkey Hc. rewrite set_unfold.
  apply saveToStorage_capped. now apply inserted_capped.
Qed.

Lemma delete_capped key now w :
  capped w -> capped (snd (Cache.delete T stringifies adapter config key now w)).
Proof.
  intros (Hnd & Hsize & Hlive & Hkeys).
  unfold Cache.delete, bind at 1, getW. unfold bind at 1, modifyW.
  set (w1 := Cache.setCache T (JsMap.delete key (Cache.cache w)) w).
  assert (Hbase : NoDup (JsMap.keys (Cache.cache w1))
                  /\ Cache.size w1 <= Cache.maxSize config
                  /\ forall k, In k (JsMap.keys (Cache.cache w1)) -> k <> EmptyString).
  { unfold w1, Cache.size in *. cbn [Cache.cache Cache.setCache].
    split; [now apply nodup_filter|]. split.
    - pose proof (filter_length_le (fun p => negb (String.eqb key (fst p))) (Cache.cache w)).
      unfold JsMap.delete. lia.
    - intros k Hk. apply Hkeys. now apply (keys_filter_incl (Cache.cache w)) in Hk. }
  destruct Hbase as (Hnd1 & Hsize1 & Hkeys1).
  destruct (JsMap.has key (Cache.cache w)) eqn:Eh.
  - unfold bind at 1.
    assert (Hw2 : forall w2, Cache.cache w2 = Cache.cache w1 -> live w2 -> capped w2).
    { intros w2 Hc H2. unfold Cache.capped, Cache.size in *. rewrite Hc. auto. }
    destruct (Cache.optEqb key (Cache.oldestKey w)) eqn:Eo; cbn [when].
    + unfold bind at 1, Cache.updateOldestKey, modifyW.
      match goal with
      | |- context [saveToStorage now ?w2] =>
          destruct (safe_saveToStorage T stringifies adapter config now w2) as ([] & w3 & E3 & _);
          pose proof (saveToStorage_capped now w2) as Hs; rewrite E3 in *
      end.
      cbn [snd] in *. apply Hs. apply Hw2; [reflexivity|].
      apply recomputed_live. split; reflexivity.
    + unfold bind at 1, ret.
      destruct (safe_saveToStorage T stringifies adapter config now w1) as ([] & w3 & E3 & _).
      pose proof (saveToStorage_capped now w1) as Hs. rewrite E3 in *.
      cbn [snd] in *. apply Hs. apply Hw2; [reflexivity|].
      destruct Hlive as [[Hnil _] | (k & Hk & Hin)].
      * unfold JsMap.has in Eh. rewrite Hnil in Eh. discriminate.
      * right. exists k. split; [exact Hk|].
        unfold w1. cbn [Cache.cache Cache.setCache]. apply keys_delete_other; auto.
        intros ->. rewrite Hk in Eo. simpl in Eo. now rewrite String.eqb_refl in Eo.
  - unfold bind at 1, ret. cbn [snd].
    assert (Hsame : JsMap.delete key (Cache.cache w) = Cache.cache w).
    { apply delete_absent. intros Hin. apply has_true in Hin. congruence. }
    unfold Cache.capped, Cache.size in *. unfold w1 in *.
    cbn [Cache.cache Cache.setCache] in *. rewrite Hsame in *.
    repeat split; auto.
Qed.

Lemma cleanExpired_capped now w :
  capped w -> capped (snd (Cache.cleanExpired T stringifies adapter config now w)).
Proof.
  intros (Hnd & Hsize & Hlive & Hkeys).
  unfold Cache.cleanExpired. rewrite cleanExpiredWith_unfold. cbv zeta.
  destruct (deleteAll_filter T (Cache.expiredKeys T now (Cache.cache w)) (Cache.cache w))
    as [f Hf].
  destruct (Cache.expiredKeys T now (Cache.cache w)) as [|k ks] eqn:E.
  - cbn [snd]. unfold Cache.capped, Cache.size in *. auto.
  - replace (Z.of_nat (length (k :: ks)) >? 0) with true
      by (symmetry; apply Z.gtb_lt; simpl; lia).
    match goal with
    | |- context [saveToStorage now ?w2] =>
        destruct (safe_saveToStorage T stringifies adapter config now w2) as ([] & w3 & E3 & _);
        pose proof (saveToStorage_capped now w2) as Hs; rewrite E3 in *
    end.
    cbn [snd] in *. apply Hs.
    unfold Cache.capped, Cache.size. cbn [Cache.cache Cache.setCache Cache.setOldest].
    rewrite Hf. split; [|split; [|split]].
    + now apply nodup_filter.
    + unfold Cache.size in Hsize. pose proof (filter_length_le f (Cache.cache w)). lia.
    + rewrite <- Hf. apply recomputed_live. split; reflexivity.
    + intros k' Hk'. apply Hkeys. now apply keys_filter_incl in Hk'.
Qed.

Lemma clear_capped now w :
  1 <= Cache.maxSize config ->
  capped (snd (Cache.clear T stringifies adapter config now w)).
Proof.
  intros Hmax. unfold Cache.clear, bind, modifyW.
  match goal with
  | |- context [saveToStorage now ?w2] =>
      destruct (safe_saveToStorage T stringifies adapter config now w2) as ([] & w3 & E3 & _);
      pose proof (saveToStorage_capped now w2) as Hs; rewrite E3 in *
  end.
  cbn [snd] in *. apply Hs.
  unfold Cache.capped, Cache.size. cbn [Cache.cache Cache.setCache Cache.setOldest].
  split; [constructor|]. split; [simpl; lia|]. split; [now left|]. intros k [].
Qed.

(** Along runs of [set], [delete], [cleanExpired] and [clear] from an
    instance whose map is empty, with a capacity of at least one and no empty
    key, the map never holds more than [maxSize] entries.  ([get] and [has]
    are left out: they are the calls that remove an entry behind the
    pointer's back; so is the load of the constructor, which takes every
    live entry of the slot.) *)
Theorem capacity_without_lazy_expiry (cs : list (Cache.Call T)) b :
  1 <= Cache.maxSize config ->
  Cache.properKeys T cs ->
  Cache.size (Cache.run T stringifies adapter config cs (Cache.fresh b))
  <= Cache.maxSize config.
Proof.
  intros Hmax Hkeys.
  assert (H : forall w, capped w ->
                        capped (Cache.run T stringifies adapter config cs w)).
  { unfold Cache.run. induction cs as [|c cs IH]; intros w Hw; simpl; auto.
    apply IH.
    - intros key value ttl0 now Hin. apply (Hkeys key value ttl0 now). now right.
    - destruct c as [key value ttl0 now | key now | now | now]; simpl.
      + apply set_capped; auto. apply (Hkeys key value ttl0 now). now left.
      + now apply delete_capped.
      + now apply cleanExpired_capped.
      + now apply clear_capped. }
  apply H. unfold Cache.capped, Cache.size. simpl.
  split; [constructor|]. split; [lia|]. split; [now left|]. intros k [].
Qed.

End CacheCapacity.

(** What does hold of Scenario B and of every run like it. *)
Lemma capacity_without_lazy_expiry_witness :
  Cache.size
    (Cache.run string Scenarios.anyString Scenarios.healthy (Scenarios.capacity 2)
       [Cache.CallSet string "a" "1" None 0;
        Cache.CallSet string "b" "2" None 1;
        Cache.CallSet string "c" "3" None 2]
       (Cache.fresh None))
  <= Cache.maxSize (Scenarios.capacity 2).
Proof.
  apply capacity_without_lazy_expiry.
  - simpl. lia.
  - intros key value ttl0 now [H | [H | [H | []]]]; injection H as <- _ _ _; discriminate.
Defined.

(** ** The history: sorting and deduplication *)

Section HistoryOrder.

Implicit Types (x y item : History.SavedComparison)
               (l : list History.SavedComparison)
               (seen : JsMap.t History.SavedComparison).

Local Abbreviation newestFirst := History.newestFirst.

Lemma insertDesc_perm x l : Permutation (History.insertDesc x l) (x :: l).
Proof.
  induction l as [|y r IH]; simpl; auto.
  destruct (History.timestamp y <=? History.timestamp x); auto.
  rewrite IH. apply perm_swap.
Qed.

Lemma sortDesc_perm l : Permutation (History.sortDesc l) l.
Proof.
  induction l as [|x r IH]; simpl; auto.
  rewrite insertDesc_perm. now constructor.
Qed.

Lemma sortDesc_in l x : In x (History.sortDesc l) <-> In x l.
Proof.
  split; apply Permutation_in; [|symmetry]; apply sortDesc_perm.
Qed.

Lemma sortDesc_length l : length (History.sortDesc l) = length l.
Proof. apply Permutation_length, sortDesc_perm. Qed.

Lemma insertDesc_sorted x l :
  StronglySorted newestFirst l -> StronglySorted newestFirst (History.insertDesc x l).
Proof.
  induction l as [|y r IH]; simpl; intros Hs.
  - repeat constructor.
  - inversion Hs as [|? ? Hr Hall]; subst.
    destruct (Z.leb_spec (History.timestamp y) (History.timestamp x)) as [Hle | Hgt].
    + constructor; auto. constructor; auto.
      eapply Forall_impl; [|exact Hall]. unfold History.newestFirst. intros; lia.
    + constructor; auto.
      apply Forall_forall. intros z Hz.
      apply (Permutation_in _ (insertDesc_perm x r)) in Hz as [<- | Hz].
      * unfold History.newestFirst. lia.
      * rewrite Forall_forall in Hall. auto.
Qed.

Lemma sortDesc_sorted l : StronglySorted newestFirst (History.sortDesc l).
Proof.
  induction l as [|x r IH]; simpl; [constructor | now apply insertDesc_sorted].
Qed.

(** An item at least as recent as all the others comes out first. *)
Lemma sortDesc_head x l :
  (forall y, In y l -> History.timestamp y <= History.timestamp x) ->
  exists r, History.sortDesc (x :: l) = x :: r /\ Permutation r l.
Proof.
  intros H. simpl.
  destruct (History.sortDesc l) as [|y r] eqn:E; simpl.
  - exists []. split; auto. rewrite <- E. apply sortDesc_perm.
  - assert (Hy : In y l) by (apply sortDesc_in; rewrite E; now left).
    apply H, Z.leb_le in Hy. rewrite Hy.
    exists (y :: r). split; auto. rewrite <- E. apply sortDesc_perm.
Qed.

(** *** One pass of [keepMostRecent] *)

Lemma keepMostRecent_step seen item (P : list History.SavedComparison) :
  NoDup (JsMap.keys seen) ->
  (forall k v, In (k, v) seen -> k = History.keyOf v /\ In v P) ->
  (forall x, In x P ->
     exists v, JsMap.get (History.keyOf x) seen = Some v
               /\ History.timestamp x <= History.timestamp v) ->
  let seen' := History.keepMostRecent seen item in
  NoDup (JsMap.keys seen')
  /\ (forall k v, In (k, v) seen' -> k = History.keyOf v /\ In v (P ++ [item]))
  /\ (forall x, In x (P ++ [item]) ->
        exists v, JsMap.get (History.keyOf x) seen' = Some v
                  /\ History.timestamp x <= History.timestamp v).
Proof.
  intros Hnd Hin Hcov. unfold History.keepMostRecent.
  fold (History.keyOf item).
  assert (Hset : let s := JsMap.set (History.keyOf item) item seen in
                 (forall v0, JsMap.get (History.keyOf item) seen = Some v0 ->
                             History.timestamp v0 <= History.timestamp item) ->
                 NoDup (JsMap.keys s)
                 /\ (forall k v, In (k, v) s -> k = History.keyOf v /\ In v (P ++ [item]))
                 /\ (forall x, In x (P ++ [item]) ->
                       exists v, JsMap.get (History.keyOf x) s = Some v
                                 /\ History.timestamp x <= History.timestamp v)).
  { intros s Hold. split; [now apply nodup_set|]. split.
    - intros k v H. apply in_set in H as [[-> ->] | H].
      + split; auto. apply in_or_app. right. now left.
      + destruct (Hin k v H). split; auto. apply in_or_app. now left.
    - intros x Hx. apply in_app_or in Hx as [Hx | [<- | []]].
      + destruct (Hcov x Hx) as (v & Hg & Hle).
        destruct (String.eqb_spec (History.keyOf x) (History.keyOf item)) as [Heq | Hne].
        * exists item. unfold s. rewrite Heq, get_set_same. split; auto.
          rewrite Heq in Hg. specialize (Hold v Hg). lia.
        * exists v. unfold s. rewrite get_set_other by exact Hne. auto.
      + exists item. unfold s. rewrite get_set_same. split; [auto | lia]. }
  destruct (JsMap.get (History.keyOf item) seen) as [existing|] eqn:E.
  - destruct (Z.gtb_spec (History.timestamp item) (History.timestamp existing)) as [Hgt | Hle].
    + apply Hset. intros v0 [= <-]. lia.
    + split; [exact Hnd|]. split.
      * intros k v H. destruct (Hin k v H). split; auto. apply in_or_app. now left.
      * intros x Hx. apply in_app_or in Hx as [Hx | [<- | []]]; auto.
        exists existing. split; [exact E | lia].
  - apply Hset. intros v0. discriminate.
Qed.

Lemma keepMostRecent_fold l :
  forall seen (P : list History.SavedComparison),
    NoDup (JsMap.keys seen) ->
    (forall k v, In (k, v) seen -> k = History.keyOf v /\ In v P) ->
    (forall x, In x P ->
       exists v, JsMap.get (History.keyOf x) seen = Some v
                 /\ History.timestamp x <= History.timestamp v) ->
    let seen' := fold_left History.keepMostRecent l seen in
    NoDup (JsMap.keys seen')
    /\ (forall k v, In (k, v) seen' -> k = History.keyOf v /\ In v (P ++ l))
    /\ (forall x, In x (P ++ l) ->
          exists v, JsMap.get (History.keyOf x) seen' = Some v
                    /\ History.timestamp x <= History.timestamp v).
Proof.
  induction l as [|item l IH]; intros seen P Hnd Hin Hcov; simpl.
  - rewrite app_nil_r. auto.
  - destruct (keepMostRecent_step seen item P Hnd Hin Hcov) as (H1 & H2 & H3).
    specialize (IH _ _ H1 H2 H3). simpl in IH.
    rewrite <- app_assoc in IH. exact IH.
Qed.

Lemma keys_of_values seen :
  (forall k v, In (k, v) seen -> k = History.keyOf v) ->
  map History.keyOf (JsMap.values seen) = JsMap.keys seen.
Proof.
  unfold JsMap.values, JsMap.keys.
  induction seen as [|[k v] r IH]; simpl; auto.
  intros H. rewrite IH by (intros; apply H; now right).
  f_equal. symmetry. apply H. now left.
Qed.

(** What [deduplicateHistory] returns: no two items share a key, every item
    comes from the argument, every key of the argument is still there, and
    the item kept for a key is at least as recent as every item of the
    argument with that key. *)
Lemma deduplicateHistory_spec l :
  let d := History.deduplicateHistory l in
  NoDup (map History.keyOf d)
  /\ (forall y, In y d -> In y l)
  /\ (forall x, In x l -> exists y, In y d /\ History.keyOf y = History.keyOf x
                                     /\ History.timestamp x <= History.timestamp y)
  /\ (forall y x, In y d -> In x l -> History.keyOf x = History.keyOf y ->
                  History.timestamp x <= History.timestamp y)
  /\ StronglySorted newestFirst d.
Proof.
  unfold History.deduplicateHistory.
  destruct (keepMostRecent_fold l [] []) as (Hnd & Hin & Hcov).
  { constructor. } { intros k v []. } { intros x []. }
  simpl in Hin, Hcov.
  set (seen := fold_left History.keepMostRecent l []) in *.
  assert (Hval : forall y, In y (JsMap.values seen) -> In (History.keyOf y, y) seen).
  { intros y Hy. unfold JsMap.values in Hy. apply in_map_iff in Hy as ([k v] & <- & Hy).
    simpl. destruct (Hin k v Hy) as [-> _]. exact Hy. }
  split; [|split; [|split; [|split]]].
  - eapply Permutation_NoDup.
    + apply Permutation_map. symmetry. apply sortDesc_perm.
    + rewrite keys_of_values; [exact Hnd|]. intros k v H. now apply Hin.
  - intros y Hy. apply sortDesc_in, Hval in Hy. now apply Hin in Hy.
  - intros x Hx. destruct (Hcov x Hx) as (v & Hg & Hle).
    exists v. apply get_in in Hg. destruct (Hin _ _ Hg) as [Hk _].
    split; [|split; auto].
    apply sortDesc_in. unfold JsMap.values. change v with (snd (History.keyOf x, v)).
    now apply in_map.
  - intros y x Hy Hx Hk. destruct (Hcov x Hx) as (v & Hg & Hle).
    apply sortDesc_in, Hval in Hy. apply (in_get _ _ _ Hnd) in Hy.
    rewrite Hk in Hg. congruence.
  - apply sortDesc_sorted.
Qed.

End HistoryOrder.

(** ** The history: loading *)

(** Case analysis on what the adapter answers to the calls in the goal. *)
Ltac oracle :=
  repeat match goal with
         | |- context [match onGet ?a ?n with _ => _ end] => destruct (onGet a n) eqn:?
         | |- context [match onSet ?a ?n with _ => _ end] => destruct (onSet a n) eqn:?
         | |- context [match onRemove ?a ?n with _ => _ end] => destruct (onRemove a n) eqn:?
         | |- context [match onKeys ?a ?n with _ => _ end] => destruct (onKeys a n) eqn:?
         end.

Section HistoryLoad.

Variable adapter : Adapter.

Local Abbreviation World := History.World.
Local Abbreviation getHistory := (History.getHistory adapter).

Lemma validate_serialize l : History.validateHistoryArray (History.serialize l) = l.
Proof.
  unfold History.serialize, History.validateHistoryArray.
  induction l as [|x l IH]; simpl; congruence.
Qed.

Lemma deduplicate_nil : History.deduplicateHistory [] = [].
Proof. reflexivity. Qed.

(** [getHistory] returns; when the read is refused it returns nothing; when
    it is accepted it returns the deduplicated valid items, and the slot is
    left alone, or cleared when it held no valid item, or rewritten with the
    valid items. *)
Lemma getHistory_spec (w : World) :
  exists l w',
    getHistory w = (Ret l, w')
    /\ History.others w' = History.others w
    /\ (History.writes w <= History.writes w')%nat
    /\ ((onGet adapter (History.calls w) <> None /\ l = []
         /\ (History.stored w' = History.stored w \/ History.stored w' = None))
        \/ (onGet adapter (History.calls w) = None
            /\ l = History.deduplicateHistory (History.items w)
            /\ (History.stored w' = History.stored w
                \/ (History.stored w' = None /\ History.items w = [])
                \/ History.stored w' = Some (History.serialize (History.items w))))).
Proof.
  unfold History.getHistory, History.items, tryCatch, bind, History.getItem.
  destruct (onGet adapter (History.calls w)) as [e|] eqn:Eg.
  - unfold History.removeItem.
    oracle; (eexists; eexists; split; [reflexivity|]);
      cbn; (split; [reflexivity|]); (split; [lia|]); left; repeat split; auto; discriminate.
  - destruct (History.stored w) as [[| n | n | z n | its]|] eqn:Es;
      unfold throw, ret, when, History.removeItem, History.setItem;
      cbn [History.validateHistoryArray];
      try match goal with
          | |- context [negb ?b] => destruct b; cbn [negb]
          end;
      oracle; (eexists; eexists; split; [reflexivity|]);
      cbn; rewrite ?Es; (split; [reflexivity|]); (split; [lia|]); right; auto 10.
Qed.

End HistoryLoad.

(** ** The history: what [load] returns *)

(** C3.  Whatever the slot holds and whatever the adapter does, [getHistory]
    returns a list in which no two items have the same [inputText] after
    trimming and lower-casing; every item of it is a valid item of the stored
    array and is at least as recent as every stored valid item with the same
    normalized input.  When the read is accepted the list is the
    deduplicated stored array, and every stored valid item is represented in
    it: by itself or by an item with the same normalized input that is at
    least as recent.  When the read is refused the list is empty. *)
Theorem load_deduplicated (adapter : Adapter) (w : History.World) :
  exists l w',
    History.getHistory adapter w = (Ret l, w')
    /\ (l = History.deduplicateHistory (History.items w) \/ l = [])
    /\ NoDup (map History.keyOf l)
    /\ (forall y, In y l ->
          In y (History.items w)
          /\ forall x, In x (History.items w) ->
               History.keyOf x = History.keyOf y ->
               History.timestamp x <= History.timestamp y)
    /\ (onGet adapter (History.calls w) = None ->
        l = History.deduplicateHistory (History.items w)
        /\ forall x, In x (History.items w) ->
             exists y, In y l /\ History.keyOf y = History.keyOf x
                       /\ History.timestamp x <= History.timestamp y)
    /\ (onGet adapter (History.calls w) <> None -> l = []).
Proof.
  destruct (getHistory_spec adapter w) as (l & w' & E & _ & _ & H).
  exists l, w'. split; [exact E|].
  destruct (deduplicateHistory_spec (History.items w)) as (Hnd & Hin & Hcov & Hmax & _).
  destruct H as [(Hget & -> & _) | (Hget & -> & _)].
  - split; [now right|]. split; [constructor|]. split; [intros y []|].
    split; [intros Hnone; contradiction | reflexivity].
  - split; [now left|]. split; [exact Hnd|]. split.
    + intros y Hy. split; [now apply Hin|]. intros x Hx Hk. now apply (Hmax y x).
    + split; [intros _; split; [reflexivity | exact Hcov] | intros Hne; contradiction].
Qed.

(** C9.  A query that trims to the empty string makes [searchHistory] the
    same computation as [getHistory]: same list, same order, same effect on
    the store. *)
Theorem search_empty_query (adapter : Adapter) (query : string) (w : History.World) :
  Js.trim query = EmptyString ->
  History.searchHistory adapter query w = History.getHistory adapter w.
Proof.
  intros Hq. unfold History.searchHistory, tryCatch, bind.
  destruct (getHistory_spec adapter w) as (l & w' & E & _).
  rewrite E, Hq. reflexivity.
Qed.

(** C9 on a query of two spaces and a store of two items. *)
Lemma search_empty_query_witness :
  History.searchHistory Scenarios.healthy "  " Scenarios.twoItems
  = History.getHistory Scenarios.healthy Scenarios.twoItems.
Proof.
  apply (search_empty_query Scenarios.healthy "  " Scenarios.twoItems).
  reflexivity.
Defined.

(** C6.  When the input trims to the empty string, or the candidate is
    larger than [MAX_ITEM_SIZE], [saveComparison] returns absent and the
    world is the same: no call was made to the adapter, the slot holds what
    it held, and [getHistory] computes what it computed. *)
Theorem save_rejected (adapter : Adapter) inputText0 result0 tags0 notes0 now rnd
    (w : History.World) :
  Js.trim inputText0 = EmptyString
  \/ History.estimateItemSize
       (History.candidate inputText0 result0 tags0 notes0 now rnd)
     > History.MAX_ITEM_SIZE ->
  History.saveComparison adapter inputText0 result0 tags0 notes0 now rnd w
  = (Ret None, w)
  /\ History.getHistory adapter
       (snd (History.saveComparison adapter inputText0 result0 tags0 notes0 now rnd w))
     = History.getHistory adapter w.
Proof.
  intros H.
  assert (E : History.saveComparison adapter inputText0 result0 tags0 notes0 now rnd w
              = (Ret None, w)).
  { unfold History.saveComparison, tryCatch.
    destruct (Js.isEmpty (History.inputText _)) eqn:Ee; [reflexivity|].
    destruct H as [H | H].
    - cbn [History.inputText History.candidate] in Ee. rewrite H in Ee. discriminate.
    - destruct (Z.gtb_spec
                  (History.estimateItemSize
                     (History.candidate inputText0 result0 tags0 notes0 now rnd))
                  History.MAX_ITEM_SIZE); [reflexivity | lia]. }
  rewrite E. split; reflexivity.
Qed.

(** C6 on an input of three spaces. *)
Lemma save_rejected_witness :
  History.saveComparison Scenarios.healthy "   " (Scenarios.small "A") None None
    1700000001000 "zzzzzzz" Scenarios.twoItems
  = (Ret None, Scenarios.twoItems)
  /\ History.getHistory Scenarios.healthy
       (snd (History.saveComparison Scenarios.healthy "   " (Scenarios.small "A")
               None None 1700000001000 "zzzzzzz" Scenarios.twoItems))
     = History.getHistory Scenarios.healthy Scenarios.twoItems.
Proof.
  apply (save_rejected Scenarios.healthy "   " (Scenarios.small "A") None None
           1700000001000 "zzzzzzz" Scenarios.twoItems).
  left. reflexivity.
Defined.

(** ** The history: sizes *)

Section HistorySizes.

Variable adapter : Adapter.

Local Abbreviation World := History.World.

Lemma sameStore_refl (w : World) : History.sameStore w w.
Proof. repeat split. Qed.

Lemma sameStore_trans (w1 w2 w3 : World) :
  History.sameStore w1 w2 -> History.sameStore w2 w3 -> History.sameStore w1 w3.
Proof. unfold History.sameStore. intuition congruence. Qed.

Lemma sameStore_called (w : World) : History.sameStore w (History.called false w).
Proof. repeat split. Qed.

Lemma sumOthers_spec sizes :
  forall total (w : World),
    exists r w',
      History.sumOthers adapter sizes total w = (r, w')
      /\ History.sameStore w w'
      /\ (accepting adapter -> r = Ret (total + History.sumZ sizes)).
Proof.
  induction sizes as [|bytes rest IH]; intros total w; cbn [History.sumOthers].
  - unfold bind, History.nextKey, ret.
    destruct (onKeys adapter (History.calls w)) eqn:E;
      (eexists; eexists; split; [reflexivity|]);
      (split; [apply sameStore_called|]); intros Ha.
    + destruct (Ha (History.calls w)) as (_ & _ & _ & Hk). congruence.
    + simpl. now rewrite Z.add_0_r.
  - unfold bind at 1, History.nextKey.
    destruct (onKeys adapter (History.calls w)) eqn:E.
    + eexists; eexists; split; [reflexivity|].
      split; [apply sameStore_called|]. intros Ha.
      destruct (Ha (History.calls w)) as (_ & _ & _ & Hk). congruence.
    + unfold bind at 1, History.getOtherSize, tryCatch, History.getOther, ret.
      destruct (onGet adapter (History.calls (History.called false w))) eqn:Eg.
      * destruct (IH (total + 0) (History.called false (History.called false w)))
          as (r & w' & E' & Hs & Hacc).
        exists r, w'. split; [exact E'|]. split.
        -- eapply sameStore_trans; [|exact Hs]. repeat split.
        -- intros Ha. destruct (Ha (History.calls (History.called false w))) as (Hg & _).
           congruence.
      * destruct (IH (total + bytes) (History.called false (History.called false w)))
          as (r & w' & E' & Hs & Hacc).
        exists r, w'. split; [exact E'|]. split.
        -- eapply sameStore_trans; [|exact Hs]. repeat split.
        -- intros Ha. rewrite (Hacc Ha). simpl. f_equal. lia.
Qed.

Lemma getStorageSize_spec (w : World) :
  exists z w',
    History.getStorageSize adapter w = (Ret z, w')
    /\ History.sameStore w w'
    /\ (accepting adapter -> z = History.ownBytes w).
Proof.
  unfold History.getStorageSize, tryCatch, bind, History.getItem, ret.
  destruct (onGet adapter (History.calls w)) eqn:E;
    (eexists; eexists; split; [reflexivity|]);
    (split; [apply sameStore_called|]); intros Ha.
  - destruct (Ha (History.calls w)) as (Hg & _). congruence.
  - reflexivity.
Qed.

Lemma getTotalStorageSize_spec (w : World) :
  exists z w',
    History.getTotalStorageSize adapter w = (Ret z, w')
    /\ History.sameStore w w'
    /\ (accepting adapter -> z = History.ownBytes w + History.sumZ (History.others w)).
Proof.
  unfold History.getTotalStorageSize, tryCatch, bind at 1, getW, History.ownBytes.
  destruct (History.stored w) as [b|] eqn:Es.
  - unfold bind at 1, History.nextKey.
    destruct (onKeys adapter (History.calls w)) eqn:Ek.
    + eexists; eexists; split; [reflexivity|].
      split; [apply sameStore_called|]. intros Ha.
      destruct (Ha (History.calls w)) as (_ & _ & _ & Hk). congruence.
    + destruct (getStorageSize_spec (History.called false w)) as (z & w1 & E1 & S1 & A1).
      unfold bind at 1. rewrite E1.
      destruct (sumOthers_spec (History.others w) z w1) as (r & w2 & E2 & S2 & A2).
      rewrite E2.
      assert (S : History.sameStore w w2).
      { eapply sameStore_trans; [apply sameStore_called|].
        eapply sameStore_trans; eauto. }
      destruct r as [z2 | e]; (eexists; eexists; split; [reflexivity|]);
        (split; [exact S|]); intros Ha.
      * specialize (A2 Ha). injection A2 as ->. rewrite (A1 Ha).
        unfold History.ownBytes. cbn [History.stored History.called]. now rewrite Es.
      * specialize (A2 Ha). discriminate.
  - destruct (sumOthers_spec (History.others w) 0 w) as (r & w2 & E2 & S2 & A2).
    rewrite E2.
    destruct r as [z2 | e]; (eexists; eexists; split; [reflexivity|]);
      (split; [exact S2|]); intros Ha.
    + specialize (A2 Ha). now injection A2 as ->.
    + specialize (A2 Ha). discriminate.
Qed.

End HistorySizes.

(** ** No exception escapes *)

Section Totality.

Context {W : Type}.

Lemma total_ret {A} (a : A) : total (ret a : M W A).
Proof. intros w. apply returns_ret. Qed.

Lemma total_bind {A B} (m : M W A) (k : A -> M W B) :
  total m -> (forall a, total (k a)) -> total (bind m k).
Proof. intros Hm Hk w. apply returns_bind; [apply Hm | intros a w1; apply Hk]. Qed.

Lemma total_tryCatch {A} (m : M W A) (h : exn -> M W A) :
  (forall e, total (h e)) -> total (tryCatch m h).
Proof. intros Hh w. apply returns_tryCatch. intros e w1. apply Hh. Qed.

Lemma total_getW : total (getW : M W W).
Proof. intros w. now exists w, w. Qed.

Lemma total_modifyW (f : W -> W) : total (modifyW f).
Proof. intros w. now exists tt, (f w). Qed.

Lemma total_when (b : bool) (m : M W unit) : total m -> total (when b m).
Proof. intros H. destruct b; simpl; [exact H | apply total_ret]. Qed.

End Totality.

Section CacheTotality.

Variable T : Type.
Variable stringifies : T -> bool.
Variable adapter : Adapter.
Variable config : Cache.CacheConfig.

Lemma safe_total {A} (m : M (Cache.World T) A) : Cache.safe T m -> total m.
Proof. intros H w. now apply safe_returns. Qed.

Lemma total_saveToStorage now :
  total (Cache.saveToStorage T stringifies adapter config now).
Proof. apply safe_total, safe_saveToStorage. Qed.

Lemma total_construct now : total (Cache.construct T stringifies adapter config now).
Proof.
  unfold Cache.construct, Cache.loadFromStorage.
  apply total_bind; [apply total_modifyW|]. intros _.
  apply total_tryCatch. intros _. apply total_tryCatch. intros _. apply total_ret.
Qed.

Lemma total_get key now : total (Cache.get T stringifies adapter config key now).
Proof.
  unfold Cache.get. apply total_bind; [apply total_getW|]. intros w.
  destruct (JsMap.get key (Cache.cache w)) as [entry|]; [|apply total_ret].
  destruct (_ >? _); [|apply total_ret].
  apply total_bind; [apply total_modifyW|]. intros _.
  apply total_bind; [apply total_saveToStorage|]. intros _. apply total_ret.
Qed.

Lemma total_set key value ttl0 now :
  total (Cache.set T stringifies adapter config key value ttl0 now).
Proof.
  intros w. unfold returns. rewrite set_unfold.
  apply (total_saveToStorage now).
Qed.

Lemma total_has key now : total (Cache.has T stringifies adapter config key now).
Proof.
  unfold Cache.has. apply total_bind; [apply total_getW|]. intros w.
  destruct (JsMap.get key (Cache.cache w)) as [entry|]; [|apply total_ret].
  destruct (_ >? _); [|apply total_ret].
  apply total_bind; [apply total_modifyW|]. intros _.
  apply total_bind; [apply total_saveToStorage|]. intros _. apply total_ret.
Qed.

Lemma total_delete key now : total (Cache.delete T stringifies adapter config key now).
Proof.
  unfold Cache.delete. apply total_bind; [apply total_getW|]. intros w.
  apply total_bind; [apply total_modifyW|]. intros _.
  apply total_bind; [|intros _; apply total_ret].
  destruct (JsMap.has key (Cache.cache w)); [|apply total_ret].
  apply total_bind; [|intros _; apply total_saveToStorage].
  apply total_when, total_modifyW.
Qed.

Lemma total_clear now : total (Cache.clear T stringifies adapter config now).
Proof.
  unfold Cache.clear. apply total_bind; [apply total_modifyW|]. intros _.
  apply total_saveToStorage.
Qed.

Lemma total_getStats : total (Cache.getStats T config).
Proof.
  unfold Cache.getStats. apply total_bind; [apply total_getW|]. intros w.
  apply total_ret.
Qed.

Lemma total_cleanExpired now :
  total (Cache.cleanExpired T stringifies adapter config now).
Proof. apply safe_total, safe_cleanExpired. Qed.

End CacheTotality.

Section HistoryTotality.

Variable adapter : Adapter.

Lemma total_getHistory : total (History.getHistory adapter).
Proof.
  unfold History.getHistory. apply total_tryCatch. intros _.
  apply total_bind; [|intros _; apply total_ret].
  apply total_tryCatch. intros _. apply total_ret.
Qed.

Lemma total_saveComparison i r t n now rnd :
  total (History.saveComparison adapter i r t n now rnd).
Proof. apply total_tryCatch. intros _. apply total_ret. Qed.

Lemma total_getComparisonById i : total (History.getComparisonById adapter i).
Proof. apply total_tryCatch. intros _. apply total_ret. Qed.

Lemma total_deleteComparison i : total (History.deleteComparison adapter i).
Proof. apply total_tryCatch. intros _. apply total_ret. Qed.

Lemma total_updateComparison i u : total (History.updateComparison adapter i u).
Proof. apply total_tryCatch. intros _. apply total_ret. Qed.

Lemma total_searchHistory q : total (History.searchHistory adapter q).
Proof. apply total_tryCatch. intros _. apply total_ret. Qed.

Lemma total_filterByTags ts : total (History.filterByTags adapter ts).
Proof. apply total_tryCatch. intros _. apply total_ret. Qed.

Lemma total_clearHistory : total (History.clearHistory adapter).
Proof. apply total_tryCatch. intros _. apply total_ret. Qed.

Lemma total_getHistoryStats : total (History.getHistoryStats adapter).
Proof. apply total_tryCatch. intros _. apply total_ret. Qed.

(** [saveComparison] on a valid candidate, step by step: [w1] is the world
    after the load, [w3] the world after the two sizes were read. *)
Lemma save_unfold i r t n now rnd (w w1 w2 w3 : History.World) loaded z2 z3 :
  let saved := History.candidate i r t n now rnd in
  ~ History.rejected saved ->
  History.getHistory adapter w = (Ret loaded, w1) ->
  History.getTotalStorageSize adapter w1 = (Ret z2, w2) ->
  History.getStorageSize adapter w2 = (Ret z3, w3) ->
  History.saveComparison adapter i r t n now rnd w =
  let history := History.merged saved loaded in
  let history1 :=
    if z2 - z3 + History.blobBytes (History.serialize history) >? History.MAX_TOTAL_SIZE
    then History.cleanupOldItems
           (firstn (History.pruningKeep (length history)) history)
    else history in
  match onSet adapter (History.calls w3) with
  | None =>
      (Ret (Some saved),
       History.setStored (Some (History.serialize history1)) (History.called true w3))
  | Some e =>
      if History.isQuotaExceededError e
      then
        let history2 :=
          History.cleanupOldItems
            (firstn (History.aggressiveKeep (length history1)) history1) in
        match onSet adapter (S (History.calls w3)) with
        | None =>
            (Ret (Some saved),
             History.setStored (Some (History.serialize history2))
               (History.called true (History.called true w3)))
        | Some _ => (Ret None, History.called true (History.called true w3))
        end
      else (Ret None, History.called true w3)
  end.
Proof.
  intros saved Hn E1 E2 E3.
  assert (Ee : Js.isEmpty (History.inputText saved) = false).
  { destruct (Js.isEmpty (History.inputText saved)) eqn:E; auto. elim Hn. now left. }
  assert (Es : (History.estimateItemSize saved >? History.MAX_ITEM_SIZE) = false).
  { destruct (Z.gtb_spec (History.estimateItemSize saved) History.MAX_ITEM_SIZE); auto.
    elim Hn. right. lia. }
  unfold History.saveComparison. fold saved. rewrite Ee, Es.
  unfold tryCatch, bind. rewrite E1, E2, E3.
  unfold History.setItem, ret, throw, History.merged. cbv zeta.
  destruct (onSet adapter (History.calls w3)) as [e|]; [|reflexivity].
  destruct (History.isQuotaExceededError e); [|reflexivity].
  cbv beta iota.
  change (History.calls (History.called true w3)) with (S (History.calls w3)).
  destruct (onSet adapter (S (History.calls w3))); reflexivity.
Qed.

(** With every [setItem] refused for quota, an accepted candidate costs two
    refused writes after the load, the second one after the aggressive
    pruning, and the call returns absent. *)
Lemma save_refused i r t n now rnd (w : History.World) :
  refusing History.isQuotaExceededError adapter ->
  fst (History.saveComparison adapter i r t n now rnd w) = Ret None
  /\ (~ History.rejected (History.candidate i r t n now rnd) ->
      History.writes (snd (History.saveComparison adapter i r t n now rnd w))
      = S (S (History.writes (snd (History.getHistory adapter w))))).
Proof.
  intros Hq.
  set (saved := History.candidate i r t n now rnd).
  assert (Hdec : History.rejected saved \/ ~ History.rejected saved).
  { unfold History.rejected.
    destruct (Js.isEmpty (History.inputText saved)); [now left; left|].
    destruct (Z.gtb_spec (History.estimateItemSize saved) History.MAX_ITEM_SIZE)
      as [Hgt | Hle].
    - left. right. lia.
    - right. intros [Hr | Hr]; [discriminate | lia]. }
  destruct Hdec as [Hr | Hn].
  - assert (E : History.saveComparison adapter i r t n now rnd w = (Ret None, w)).
    { unfold History.saveComparison, tryCatch. fold saved.
      destruct (Js.isEmpty (History.inputText saved)) eqn:Ee; [reflexivity|].
      destruct Hr as [Hr | Hr]; [congruence|].
      destruct (Z.gtb_spec (History.estimateItemSize saved) History.MAX_ITEM_SIZE);
        [reflexivity | lia]. }
    rewrite E. split; [reflexivity|]. intros Hn. now elim Hn.
  - destruct (getHistory_spec adapter w) as (loaded & w1 & E1 & _).
    destruct (getTotalStorageSize_spec adapter w1) as (z2 & w2 & E2 & S2 & _).
    destruct (getStorageSize_spec adapter w2) as (z3 & w3 & E3 & S3 & _).
    rewrite (save_unfold i r t n now rnd w w1 w2 w3 loaded z2 z3 Hn E1 E2 E3).
    cbv zeta.
    destruct (Hq (History.calls w3)) as (e & He & Hqe). rewrite He, Hqe.
    destruct (Hq (S (History.calls w3))) as (e' & He' & _). rewrite He'.
    split; [reflexivity|]. intros _. rewrite E1.
    cbn [snd History.writes History.called].
    destruct S2 as (_ & _ & H2), S3 as (_ & _ & H3). congruence.
Qed.

End HistoryTotality.

(** C7.  Whatever the adapter does (every call refused, [setItem] out of
    quota, a slot that does not parse), every public operation of the cache
    and of the history store returns a value: no exception reaches the
    caller.  When every [setItem] is refused for quota, [saveComparison]
    returns absent, after two refused writes (the write and its one retry)
    when the candidate was valid. *)
Theorem no_exception_escapes :
  (forall T stringifies adapter config,
      (forall now, total (Cache.construct T stringifies adapter config now))
      /\ (forall key now, total (Cache.get T stringifies adapter config key now))
      /\ (forall key value ttl0 now,
             total (Cache.set T stringifies adapter config key value ttl0 now))
      /\ (forall key now, total (Cache.has T stringifies adapter config key now))
      /\ (forall key now, total (Cache.delete T stringifies adapter config key now))
      /\ (forall now, total (Cache.clear T stringifies adapter config now))
      /\ total (Cache.getStats T config)
      /\ (forall now, total (Cache.cleanExpired T stringifies adapter config now)))
  /\ (forall adapter,
         (forall i r t n now rnd, total (History.saveComparison adapter i r t n now rnd))
         /\ total (History.getHistory adapter)
         /\ (forall i, total (History.getComparisonById adapter i))
         /\ (forall i, total (History.deleteComparison adapter i))
         /\ (forall i u, total (History.updateComparison adapter i u))
         /\ (forall q, total (History.searchHistory adapter q))
         /\ (forall ts, total (History.filterByTags adapter ts))
         /\ total (History.clearHistory adapter)
         /\ total (History.getHistoryStats adapter))
  /\ (forall adapter,
         refusing History.isQuotaExceededError adapter ->
         forall i r t n now rnd w,
           fst (History.saveComparison adapter i r t n now rnd w) = Ret None
           /\ (~ History.rejected (History.candidate i r t n now rnd) ->
               History.writes (snd (History.saveComparison adapter i r t n now rnd w))
               = S (S (History.writes (snd (History.getHistory adapter w)))))).
Proof.
  split; [|split].
  - intros T stringifies adapter config.
    repeat split; intros;
      auto using total_construct, total_get, total_set, total_has, total_delete,
                 total_clear, total_getStats, total_cleanExpired.
  - intros adapter.
    repeat split; intros;
      auto using total_saveComparison, total_getHistory, total_getComparisonById,
                 total_deleteComparison, total_updateComparison, total_searchHistory,
                 total_filterByTags, total_clearHistory, total_getHistoryStats.
  - intros adapter Hq i r t n now rnd w. now apply save_refused.
Qed.

(** C7 on the adapter that is out of quota: the save of Scenario E returns
    absent after two refused writes. *)
Lemma no_exception_escapes_witness :
  fst (History.saveComparison Scenarios.quotaOnSet "Order 123" (Scenarios.small "A")
         None None 1700000000000 "k3j9x2a" (History.empty []))
  = Ret None
  /\ History.writes
       (snd (History.saveComparison Scenarios.quotaOnSet "Order 123"
               (Scenarios.small "A") None None 1700000000000 "k3j9x2a"
               (History.empty [])))
     = 2%nat.
Proof.
  destruct no_exception_escapes as (_ & _ & H).
  destruct (H Scenarios.quotaOnSet
              (fun n => ex_intro _ QuotaExceeded (conj eq_refl eq_refl))
              "Order 123" (Scenarios.small "A") None None 1700000000000 "k3j9x2a"
              (History.empty [])) as (H1 & H2).
  split; [exact H1|].
  rewrite H2; [reflexivity|].
  intros [Hr | Hr]; [discriminate | vm_compute in Hr; discriminate].
Defined.

(** ** The history: budgets *)

Section HistoryBudgets.

Implicit Types (x y item : History.SavedComparison)
               (l : list History.SavedComparison)
               (seen : JsMap.t History.SavedComparison).

Lemma escapedBytes_nonneg s : 0 <= History.escapedBytes s.
Proof.
  induction s as [|c s IH]; simpl; [lia|].
  assert (0 <= History.escapedLength c).
  { unfold History.escapedLength.
    repeat match goal with |- context [if ?b then _ else _] => destruct b end; lia. }
  lia.
Qed.

Lemma sumZ_nonneg (zs : list Z) : Forall (fun z => 0 <= z) zs -> 0 <= History.sumZ zs.
Proof. induction 1; simpl; lia. Qed.

Lemma arrayBytes_nonneg (zs : list Z) :
  Forall (fun z => 0 <= z) zs -> 0 <= History.arrayBytes zs.
Proof.
  intros H. unfold History.arrayBytes. pose proof (sumZ_nonneg zs H). lia.
Qed.

Lemma quotedBytes_nonneg s : 0 <= History.quotedBytes s.
Proof. unfold History.quotedBytes. pose proof (escapedBytes_nonneg s). lia. Qed.

Lemma jsonBytes_nonneg item : 0 <= History.jsonBytes item.
Proof.
  unfold History.jsonBytes, Js.strlen.
  pose proof (quotedBytes_nonneg (History.id item)).
  pose proof (quotedBytes_nonneg (History.inputText item)).
  assert (0 <= match History.tags item with
               | Some ts => 8 + History.arrayBytes (map History.quotedBytes ts)
               | None => 0
               end).
  { destruct (History.tags item) as [ts|]; [|lia].
    assert (0 <= History.arrayBytes (map History.quotedBytes ts)); [|lia].
    apply arrayBytes_nonneg, Forall_forall. intros z Hz.
    apply in_map_iff in Hz as (s & <- & _). apply quotedBytes_nonneg. }
  assert (0 <= match History.notes item with
               | Some n => 9 + History.quotedBytes n
               | None => 0
               end).
  { destruct (History.notes item) as [n|]; [|lia].
    pose proof (quotedBytes_nonneg n). lia. }
  lia.
Qed.

Lemma totalBytes_nonneg l : 0 <= History.totalBytes l.
Proof.
  apply sumZ_nonneg, Forall_forall. intros z Hz.
  apply in_map_iff in Hz as (x & <- & _). apply jsonBytes_nonneg.
Qed.

Lemma totalBytes_cons x l :
  History.totalBytes (x :: l) = History.jsonBytes x + History.totalBytes l.
Proof. reflexivity. Qed.

Lemma totalBytes_app l1 l2 :
  History.totalBytes (l1 ++ l2) = History.totalBytes l1 + History.totalBytes l2.
Proof.
  induction l1 as [|x l1 IH]; simpl; [reflexivity|].
  rewrite !totalBytes_cons, IH. lia.
Qed.

Lemma totalBytes_perm l1 l2 :
  Permutation l1 l2 -> History.totalBytes l1 = History.totalBytes l2.
Proof.
  induction 1; rewrite ?totalBytes_cons in *; try lia.
Qed.

Lemma totalBytes_filter (f : History.SavedComparison -> bool) l :
  History.totalBytes (filter f l) <= History.totalBytes l.
Proof.
  induction l as [|x l IH]; simpl; [lia|].
  pose proof (jsonBytes_nonneg x).
  destruct (f x); rewrite ?totalBytes_cons; lia.
Qed.

Lemma totalBytes_firstn n l : History.totalBytes (firstn n l) <= History.totalBytes l.
Proof.
  revert n. induction l as [|x l IH]; intros [|n]; simpl;
    rewrite ?totalBytes_cons; try lia.
  - pose proof (totalBytes_nonneg (x :: l)). rewrite totalBytes_cons in *.
    change (History.totalBytes []) with 0. lia.
  - specialize (IH n). lia.
Qed.

(** *** [cleanupOldItems] *)

Lemma cleanupLoop_bounds sorted :
  forall cleaned total,
    total = History.totalBytes cleaned ->
    Z.of_nat (length cleaned) <= History.MAX_HISTORY_ITEMS ->
    History.totalBytes cleaned <= History.MAX_TOTAL_SIZE ->
    let r := History.cleanupLoop sorted cleaned total in
    Z.of_nat (length r) <= History.MAX_HISTORY_ITEMS
    /\ History.totalBytes r <= History.MAX_TOTAL_SIZE.
Proof.
  induction sorted as [|item rest IH]; intros cleaned total Ht Hn Hb; simpl; auto.
  destruct (Z.gtb_spec (History.estimateItemSize item) History.MAX_ITEM_SIZE) as [Hbig | Hok].
  { now apply IH. }
  destruct (Z.gtb_spec (total + History.estimateItemSize item) History.MAX_TOTAL_SIZE)
    as [Hover | Hfit];
    destruct (Z.ltb_spec 0 (Z.of_nat (length cleaned))) as [Hpos | Hzero];
    cbn [andb]; auto;
    destruct (Z.geb_spec (Z.of_nat (length cleaned)) History.MAX_HISTORY_ITEMS)
      as [Hfull | Hroom]; auto;
    apply IH;
    rewrite ?totalBytes_app, ?totalBytes_cons, ?length_app; simpl;
    unfold History.estimateItemSize in *;
    change (History.totalBytes []) with 0; try lia.
  - destruct cleaned; simpl in *; [|lia].
    change (History.totalBytes []) with 0.
    unfold History.MAX_ITEM_SIZE, History.MAX_TOTAL_SIZE in *. lia.
Qed.

Lemma cleanupOldItems_bounds l :
  Z.of_nat (length (History.cleanupOldItems l)) <= History.MAX_HISTORY_ITEMS
  /\ History.totalBytes (History.cleanupOldItems l) <= History.MAX_TOTAL_SIZE.
Proof.
  apply cleanupLoop_bounds; [reflexivity | |]; simpl.
  - unfold History.MAX_HISTORY_ITEMS. lia.
  - change (History.totalBytes []) with 0. unfold History.MAX_TOTAL_SIZE. lia.
Qed.

(** The loop only appends, and only items of its input. *)
Lemma cleanupLoop_prefix sorted :
  forall cleaned total,
    exists rest,
      History.cleanupLoop sorted cleaned total = cleaned ++ rest
      /\ incl rest sorted.
Proof.
  induction sorted as [|item more IH]; intros cleaned total; simpl.
  - exists []. split; [now rewrite app_nil_r | apply incl_refl].
  - destruct (_ >? History.MAX_ITEM_SIZE).
    { destruct (IH cleaned total) as (rest & E & Hi). exists rest. split; auto.
      now apply incl_tl. }
    destruct (_ && _).
    { exists []. split; [now rewrite app_nil_r | intros z []]. }
    destruct (_ >=? _).
    { exists []. split; [now rewrite app_nil_r | intros z []]. }
    destruct (IH (cleaned ++ [item]) (total + History.estimateItemSize item))
      as (rest & E & Hi).
    exists (item :: rest). split.
    + rewrite E, <- app_assoc. reflexivity.
    + intros z [<- | Hz]; [now left | right; now apply Hi].
Qed.

Lemma cleanupOldItems_incl l : incl (History.cleanupOldItems l) l.
Proof.
  unfold History.cleanupOldItems.
  destruct (cleanupLoop_prefix (History.sortDesc l) [] 0) as (rest & -> & Hi).
  intros z Hz. simpl in Hz. apply Hi in Hz. now apply sortDesc_in.
Qed.

(** *** The maps *)

Lemma set_bounds (k : string) v seen :
  (length (JsMap.set k v seen) <= S (length seen))%nat
  /\ History.totalBytes (JsMap.values (JsMap.set k v seen))
     <= History.totalBytes (JsMap.values seen) + History.jsonBytes v.
Proof.
  unfold JsMap.values.
  induction seen as [|[k' v'] r [IH1 IH2]]; simpl.
  - split; [lia|]. rewrite totalBytes_cons. change (History.totalBytes []) with 0. lia.
  - destruct (String.eqb k k'); simpl; rewrite ?totalBytes_cons.
    + pose proof (jsonBytes_nonneg v'). split; lia.
    + split; lia.
Qed.

Lemma keepMostRecent_bounds seen item :
  (length (History.keepMostRecent seen item) <= S (length seen))%nat
  /\ History.totalBytes (JsMap.values (History.keepMostRecent seen item))
     <= History.totalBytes (JsMap.values seen) + History.jsonBytes item.
Proof.
  unfold History.keepMostRecent. pose proof (jsonBytes_nonneg item).
  destruct (JsMap.get _ seen) as [existing|]; [destruct (_ >? _)|];
    try apply set_bounds.
  split; lia.
Qed.

Lemma fold_keepMostRecent_bounds l :
  forall seen,
    (length (fold_left History.keepMostRecent l seen) <= length seen + length l)%nat
    /\ History.totalBytes (JsMap.values (fold_left History.keepMostRecent l seen))
       <= History.totalBytes (JsMap.values seen) + History.totalBytes l.
Proof.
  induction l as [|item l IH]; intros seen; simpl.
  - change (History.totalBytes []) with 0. split; lia.
  - destruct (IH (History.keepMostRecent seen item)) as [H1 H2].
    destruct (keepMostRecent_bounds seen item) as [H3 H4].
    rewrite totalBytes_cons. split; lia.
Qed.

Lemma deduplicateHistory_bounds l :
  (length (History.deduplicateHistory l) <= length l)%nat
  /\ History.totalBytes (History.deduplicateHistory l) <= History.totalBytes l.
Proof.
  unfold History.deduplicateHistory.
  destruct (fold_keepMostRecent_bounds l []) as [H1 H2].
  rewrite sortDesc_length, (totalBytes_perm _ _ (sortDesc_perm _)).
  unfold JsMap.values in *. rewrite length_map. simpl in *.
  change (History.totalBytes []) with 0 in H2. split; lia.
Qed.

Lemma byId_length l :
  forall seen,
    (length (fold_left (fun m item => JsMap.set (History.id item) item m) l seen)
     <= length seen + length l)%nat.
Proof.
  induction l as [|item l IH]; intros seen; simpl; [lia|].
  specialize (IH (JsMap.set (History.id item) item seen)).
  destruct (set_bounds (History.id item) item seen) as [H _]. lia.
Qed.

End HistoryBudgets.

(** ** The history: the budgets along a run *)

Section HistoryInvariant.

Variable adapter : Adapter.

Local Abbreviation World := History.World.
Local Abbreviation fits := History.fits.

Lemma rejected_dec saved : History.rejected saved \/ ~ History.rejected saved.
Proof.
  unfold History.rejected.
  destruct (Js.isEmpty (History.inputText saved)); [now left; left|].
  destruct (Z.gtb_spec (History.estimateItemSize saved) History.MAX_ITEM_SIZE)
    as [Hgt | Hle].
  - left. right. lia.
  - right. intros [Hr | Hr]; [discriminate | lia].
Qed.

Lemma saveComparison_rejected i r t n now rnd (w : World) :
  History.rejected (History.candidate i r t n now rnd) ->
  History.saveComparison adapter i r t n now rnd w = (Ret None, w).
Proof.
  intros Hr. unfold History.saveComparison, tryCatch.
  destruct (Js.isEmpty (History.inputText _)) eqn:Ee; [reflexivity|].
  destruct Hr as [Hr | Hr]; [congruence|].
  destruct (Z.gtb_spec
              (History.estimateItemSize (History.candidate i r t n now rnd))
              History.MAX_ITEM_SIZE); [reflexivity | lia].
Qed.

Lemma fits_sameStore c (w w' : World) : History.sameStore w w' -> fits c w -> fits c w'.
Proof. intros (Hs & _) H. unfold History.fits in *. now rewrite Hs. Qed.

Lemma fits_called c b (w : World) : fits c w -> fits c (History.called b w).
Proof. auto. Qed.

Lemma fits_written c l (w : World) :
  Z.of_nat (length l) <= History.MAX_HISTORY_ITEMS ->
  (c = true -> History.totalBytes l <= History.MAX_TOTAL_SIZE) ->
  fits c (History.setStored (Some (History.serialize l)) w).
Proof. intros H1 H2. unfold History.fits. simpl. eauto. Qed.

Lemma fits_cleaned c l (w : World) :
  fits c (History.setStored (Some (History.serialize (History.cleanupOldItems l))) w).
Proof.
  destruct (cleanupOldItems_bounds l). now apply fits_written.
Qed.

Lemma fits_items c (w : World) :
  fits c w ->
  Z.of_nat (length (History.items w)) <= History.MAX_HISTORY_ITEMS
  /\ (c = true -> History.totalBytes (History.items w) <= History.MAX_TOTAL_SIZE)
  /\ (History.stored w = None \/ History.stored w = Some (History.serialize (History.items w))).
Proof.
  unfold History.fits, History.items.
  destruct (History.stored w) as [b|].
  - intros (l & -> & H1 & H2). rewrite validate_serialize. auto.
  - intros _. simpl. change (History.totalBytes []) with 0.
    unfold History.MAX_HISTORY_ITEMS, History.MAX_TOTAL_SIZE. repeat split; auto; lia.
Qed.

(** On a store within its budgets [getHistory] returns a list within them
    and leaves the store within them. *)
Lemma getHistory_fits c (w : World) :
  fits c w ->
  exists l w',
    History.getHistory adapter w = (Ret l, w')
    /\ fits c w'
    /\ Z.of_nat (length l) <= History.MAX_HISTORY_ITEMS
    /\ (c = true -> History.totalBytes l <= History.MAX_TOTAL_SIZE).
Proof.
  intros Hf. destruct (fits_items c w Hf) as (Hn & Hb & Hs).
  destruct (getHistory_spec adapter w) as (l & w' & E & _ & _ & H).
  exists l, w'. split; [exact E|].
  assert (Hf' : History.stored w' = History.stored w \/ History.stored w' = None
                \/ History.stored w' = Some (History.serialize (History.items w))).
  { destruct H as [(_ & _ & [H | H]) | (_ & _ & [H | [[H _] | H]])]; auto. }
  split.
  - unfold History.fits in *.
    destruct Hf' as [-> | [-> | Hw]]; auto.
    rewrite Hw. exists (History.items w). auto.
  - destruct (deduplicateHistory_bounds (History.items w)) as [D1 D2].
    destruct H as [(_ & -> & _) | (_ & -> & _)].
    + simpl. change (History.totalBytes []) with 0.
      unfold History.MAX_HISTORY_ITEMS, History.MAX_TOTAL_SIZE. split; intros; lia.
    + split; [lia|]. intros Hc. specialize (Hb Hc). lia.
Qed.

Lemma save_fits c i r t n now rnd (w : World) :
  fits c w -> fits c (snd (History.saveComparison adapter i r t n now rnd w)).
Proof.
  intros Hf.
  destruct (rejected_dec (History.candidate i r t n now rnd)) as [Hr | Hn].
  { now rewrite saveComparison_rejected. }
  destruct (getHistory_fits c w Hf) as (loaded & w1 & E1 & F1 & _).
  destruct (getTotalStorageSize_spec adapter w1) as (z2 & w2 & E2 & S2 & _).
  destruct (getStorageSize_spec adapter w2) as (z3 & w3 & E3 & S3 & _).
  assert (F3 : fits c w3) by (eapply fits_sameStore; eauto using fits_sameStore).
  rewrite (save_unfold adapter i r t n now rnd w w1 w2 w3 loaded z2 z3 Hn E1 E2 E3).
  cbv zeta.
  destruct (onSet adapter (History.calls w3)) as [e|].
  - destruct (History.isQuotaExceededError e); [|exact F3].
    destruct (onSet adapter (S (History.calls w3))); cbn [snd]; [exact F3|].
    apply fits_cleaned.
  - cbn [snd]. destruct (_ >? History.MAX_TOTAL_SIZE); apply fits_cleaned.
Qed.

Lemma delete_fits c i (w : World) :
  fits c w -> fits c (snd (History.deleteComparison adapter i w)).
Proof.
  intros Hf. destruct (getHistory_fits c w Hf) as (loaded & w1 & E1 & F1 & Hn & Hb).
  unfold History.deleteComparison, tryCatch, bind. rewrite E1.
  destruct (Nat.eqb _ _); [exact F1|].
  unfold History.setItem, ret, throw.
  set (filtered := filter _ loaded).
  assert (Hw : fits c (History.setStored (Some (History.serialize filtered))
                         (History.called true w1))).
  { apply fits_written.
    - pose proof (filter_length_le (fun item => negb (String.eqb (History.id item) i)) loaded).
      fold filtered in H. lia.
    - intros Hc. specialize (Hb Hc).
      pose proof (totalBytes_filter (fun item => negb (String.eqb (History.id item) i)) loaded).
      fold filtered in H. lia. }
  destruct (onSet adapter (History.calls w1)) as [e|]; [|exact Hw].
  destruct (History.isQuotaExceededError e); exact F1.
Qed.

Lemma update_fits i u (w : World) :
  fits false w -> fits false (snd (History.updateComparison adapter i u w)).
Proof.
  intros Hf. destruct (getHistory_fits false w Hf) as (loaded & w1 & E1 & F1 & Hn & _).
  unfold History.updateComparison, tryCatch, bind. rewrite E1.
  destruct (JsMap.get i (History.byId loaded)) as [existing|] eqn:Eg; [|exact F1].
  unfold History.setItem, ret, throw.
  destruct (onSet adapter (History.calls w1)) as [e|].
  - destruct (History.isQuotaExceededError e); exact F1.
  - cbn [snd]. apply fits_written; [|discriminate].
    unfold JsMap.values. rewrite length_map, length_set.
    assert (Hh : JsMap.has i (History.byId loaded) = true)
      by (unfold JsMap.has; now rewrite Eg).
    rewrite Hh. pose proof (byId_length loaded []). unfold History.byId.
    simpl in H. lia.
Qed.

Lemma clear_fits c (w : World) :
  fits c w -> fits c (snd (History.clearHistory adapter w)).
Proof.
  intros Hf. unfold History.clearHistory, tryCatch, History.removeItem.
  destruct (onRemove adapter (History.calls w)); [exact Hf|].
  unfold History.fits. simpl. exact I.
Qed.

Lemma step_fits c op (w : World) :
  (c = true -> History.isUpdate op = false) ->
  fits c w -> fits c (History.step adapter w op).
Proof.
  intros Hu Hf. destruct op as [i r t n now rnd | i | i u | | sizes]; simpl.
  - now apply save_fits.
  - now apply delete_fits.
  - destruct c; [specialize (Hu eq_refl); discriminate | now apply update_fits].
  - now apply clear_fits.
  - exact Hf.
Qed.

Lemma run_fits c ops :
  forall w : World,
    (c = true -> forallb (fun op => negb (History.isUpdate op)) ops = true) ->
    fits c w -> fits c (History.run adapter ops w).
Proof.
  unfold History.run.
  induction ops as [|op ops IH]; intros w Hu Hf; simpl; auto.
  apply IH.
  - intros Hc. specialize (Hu Hc). simpl in Hu. now apply andb_true_iff in Hu.
  - apply step_fits; auto. intros Hc. specialize (Hu Hc). simpl in Hu.
    apply andb_true_iff in Hu as [Hu _]. now apply negb_true_iff in Hu.
Qed.

(** The budgets that the code does keep.  In every state that [save],
    [delete], [update] and [clear] reach from the empty store, whatever the
    adapter does and whatever the rest of the application keeps under its own
    keys, [getHistory] returns at most [MAX_HISTORY_ITEMS] items; when no
    [update] took part, their sizes add up to at most [MAX_TOTAL_SIZE]. *)
Theorem history_budgets sizes ops :
  exists l w',
    History.getHistory adapter (History.run adapter ops (History.empty sizes)) = (Ret l, w')
    /\ Z.of_nat (length l) <= History.MAX_HISTORY_ITEMS
    /\ (forallb (fun op => negb (History.isUpdate op)) ops = true ->
        History.totalBytes l <= History.MAX_TOTAL_SIZE).
Proof.
  assert (H0 : forall c, fits c (History.empty sizes)) by (intros c; exact I).
  destruct (getHistory_fits false (History.run adapter ops (History.empty sizes)))
    as (l & w' & E & _ & Hn & _).
  { apply run_fits; [discriminate | apply H0]. }
  exists l, w'. split; [exact E|]. split; [exact Hn|].
  intros Hu.
  destruct (getHistory_fits true (History.run adapter ops (History.empty sizes)))
    as (l2 & w2 & E2 & _ & _ & Hb).
  { apply run_fits; [auto | apply H0]. }
  rewrite E in E2. injection E2 as <- <-. now apply Hb.
Qed.

End HistoryInvariant.

(** Both budgets after the two saves of the example. *)
Lemma history_budgets_witness :
  exists l w',
    History.getHistory Scenarios.healthy
      (History.run Scenarios.healthy (firstn 2 Scenarios.fillThenAnnotate)
         (History.empty []))
    = (Ret l, w')
    /\ Z.of_nat (length l) <= History.MAX_HISTORY_ITEMS
    /\ History.totalBytes l <= History.MAX_TOTAL_SIZE.
Proof.
  destruct (history_budgets Scenarios.healthy [] (firstn 2 Scenarios.fillThenAnnotate))
    as (l & w' & E & Hn & Hb).
  exists l, w'. split; [exact E|]. split; [exact Hn|].
  apply Hb. reflexivity.
Defined.

(** C4 fails on the code.  [saveComparison] refuses an oversized candidate
    and prunes to the budgets before it writes; [updateComparison] writes the
    enlarged item as it is.  Two saved items fill the byte budget, a
    one-letter note on one of them puts the sum of the sizes of what
    [getHistory] returns above [MAX_TOTAL_SIZE]. *)
Theorem update_exceeds_budget :
  exists l w',
    History.getHistory Scenarios.healthy Scenarios.annotated = (Ret l, w')
    /\ length l = 2%nat
    /\ History.totalBytes l = 10485768
    /\ History.totalBytes l > History.MAX_TOTAL_SIZE.
Proof.
  eexists. eexists. split; [vm_compute; reflexivity|].
  repeat split; vm_compute; reflexivity.
Qed.

(** ** The history: saving the same input again *)

Section HistoryResave.

Variable adapter : Adapter.
Hypothesis Haccepting : accepting adapter.

Local Abbreviation World := History.World.

Implicit Types (x y item saved : History.SavedComparison)
               (l : list History.SavedComparison).

Lemma firstn_incl {A} n (l : list A) : incl (firstn n l) l.
Proof.
  revert n. induction l as [|a l IH]; intros [|n]; simpl;
    try (intros ? []; fail).
  intros z [<- | Hz]; [now left | right; now apply (IH n)].
Qed.

Lemma withoutInput_filter key l :
  History.withoutInput key l
  = fold_left History.keepMostRecent
      (filter (fun item => negb (String.eqb (History.keyOf item) key)) l) [].
Proof.
  unfold History.withoutInput. generalize (@nil (string * History.SavedComparison)).
  induction l as [|item l IH]; intros seen; simpl; auto.
  unfold History.keyOf at 1.
  destruct (String.eqb (History.normalize (History.inputText item)) key); simpl; auto.
Qed.

Lemma withoutInput_values key l v :
  In v (JsMap.values (History.withoutInput key l)) ->
  In v l /\ History.keyOf v <> key.
Proof.
  rewrite withoutInput_filter. intros Hv.
  destruct (keepMostRecent_fold
              (filter (fun item => negb (String.eqb (History.keyOf item) key)) l) [] [])
    as (_ & Hin & _).
  { constructor. } { intros k0 v0 []. } { intros x []. }
  unfold JsMap.values in Hv. apply in_map_iff in Hv as ([k0 v0] & <- & Hv).
  destruct (Hin k0 v0 Hv) as [_ Hf]. simpl in Hf. apply filter_In in Hf as [Hl Hk].
  split; auto. apply negb_true_iff, String.eqb_neq in Hk. exact Hk.
Qed.

Lemma filter_unique l y :
  NoDup (map History.keyOf l) -> In y l ->
  filter (fun x => String.eqb (History.keyOf x) (History.keyOf y)) l = [y].
Proof.
  induction l as [|x l IH]; simpl; [tauto|].
  intros Hnd Hin. inversion Hnd as [|? ? Hnot Hnd']; subst.
  assert (Hrest : forall z, In z l -> History.keyOf z <> History.keyOf x).
  { intros z Hz Heq. apply Hnot. rewrite <- Heq. now apply in_map. }
  destruct Hin as [-> | Hin].
  - rewrite String.eqb_refl. f_equal.
    clear IH Hnd Hnot Hnd'. induction l as [|z l IH]; simpl; auto.
    destruct (String.eqb_spec (History.keyOf z) (History.keyOf y)) as [Heq | Hne].
    + exfalso. apply (Hrest z); [now left | exact Heq].
    + apply IH. intros z' Hz'. apply Hrest. now right.
  - destruct (String.eqb_spec (History.keyOf x) (History.keyOf y)) as [Heq | Hne].
    + exfalso. apply (Hrest y Hin). now symmetry.
    + now apply IH.
Qed.

(** On an adapter that accepts every call, [getHistory] returns the
    deduplicated valid items and keeps them in the store. *)
Lemma getHistory_accepting (w : World) :
  exists w',
    History.getHistory adapter w
    = (Ret (History.deduplicateHistory (History.items w)), w')
    /\ History.items w' = History.items w
    /\ History.others w' = History.others w.
Proof.
  destruct (getHistory_spec adapter w) as (l & w' & E & Ho & _ & H).
  destruct (Haccepting (History.calls w)) as (Hg & _).
  destruct H as [(Hne & _) | (_ & -> & Hs)]; [congruence|].
  exists w'. split; [exact E|]. split; [|exact Ho].
  unfold History.items in *.
  destruct Hs as [-> | [[-> Hnil] | ->]]; auto.
  now rewrite validate_serialize.
Qed.

(** The history that an accepted save writes when nothing refuses it. *)
Lemma save_accepting i r t n now rnd (w : World) :
  let saved := History.candidate i r t n now rnd in
  ~ History.rejected saved ->
  let history := History.merged saved (History.deduplicateHistory (History.items w)) in
  let history1 :=
    if History.sumZ (History.others w) + History.blobBytes (History.serialize history)
       >? History.MAX_TOTAL_SIZE
    then History.cleanupOldItems (firstn (History.pruningKeep (length history)) history)
    else history in
  exists w',
    History.saveComparison adapter i r t n now rnd w = (Ret (Some saved), w')
    /\ History.items w' = history1
    /\ History.others w' = History.others w.
Proof.
  intros saved Hn history history1.
  destruct (getHistory_accepting w) as (w1 & E1 & Hi1 & Ho1).
  destruct (getTotalStorageSize_spec adapter w1) as (z2 & w2 & E2 & S2 & A2).
  destruct (getStorageSize_spec adapter w2) as (z3 & w3 & E3 & S3 & A3).
  specialize (A2 Haccepting). specialize (A3 Haccepting).
  rewrite (save_unfold adapter i r t n now rnd w w1 w2 w3 _ z2 z3 Hn E1 E2 E3).
  cbv zeta. destruct (Haccepting (History.calls w3)) as (_ & Hset & _). rewrite Hset.
  assert (Hz : z2 - z3 = History.sumZ (History.others w)).
  { destruct S2 as (Hs2 & Ho2 & _). unfold History.ownBytes in *.
    rewrite A2, A3, Hs2, Ho1. lia. }
  rewrite Hz. fold saved. fold history. fold history1.
  eexists. split; [reflexivity|]. split.
  - unfold History.items. simpl. apply validate_serialize.
  - simpl. destruct S2 as (_ & Ho2 & _), S3 as (_ & Ho3 & _). congruence.
Qed.

(** A save adds at most its candidate to the stored items. *)
Lemma save_items i r t n now rnd (w : World) x :
  In x (History.items (snd (History.saveComparison adapter i r t n now rnd w))) ->
  x = History.candidate i r t n now rnd \/ In x (History.items w).
Proof.
  destruct (rejected_dec (History.candidate i r t n now rnd)) as [Hr | Hn].
  { rewrite saveComparison_rejected by exact Hr. auto. }
  destruct (save_accepting i r t n now rnd w Hn) as (w' & E & Hi & _).
  rewrite E. cbn [snd]. rewrite Hi. intros Hx.
  assert (Hm : In x (History.merged (History.candidate i r t n now rnd)
                        (History.deduplicateHistory (History.items w)))).
  { destruct (_ >? History.MAX_TOTAL_SIZE); auto.
    apply cleanupOldItems_incl in Hx. now apply firstn_incl in Hx. }
  apply cleanupOldItems_incl in Hm. destruct Hm as [<- | Hm]; [now left|].
  right. apply withoutInput_values in Hm as [Hm _].
  destruct (deduplicateHistory_spec (History.items w)) as (_ & Hsub & _).
  now apply Hsub.
Qed.

Lemma cleanupLoop_first saved (r : list History.SavedComparison) :
  History.estimateItemSize saved <= History.MAX_ITEM_SIZE ->
  History.cleanupLoop (saved :: r) [] 0
  = History.cleanupLoop r [saved] (0 + History.estimateItemSize saved).
Proof.
  intros Hsize. cbn [History.cleanupLoop].
  destruct (Z.gtb_spec (History.estimateItemSize saved) History.MAX_ITEM_SIZE); [lia|].
  replace (0 <? Z.of_nat (length (@nil History.SavedComparison))) with false
    by reflexivity.
  rewrite andb_false_r.
  replace (Z.of_nat (length (@nil History.SavedComparison)) >=? History.MAX_HISTORY_ITEMS)
    with false by reflexivity.
  reflexivity.
Qed.

(** The candidate, at least as recent as what was loaded, stays in the
    merged history, and nothing else there has its key. *)
Lemma merged_candidate saved loaded :
  History.estimateItemSize saved <= History.MAX_ITEM_SIZE ->
  (forall y, In y loaded -> History.timestamp y <= History.timestamp saved) ->
  In saved (History.merged saved loaded)
  /\ forall y, In y (History.merged saved loaded) ->
               y = saved \/ History.keyOf y <> History.keyOf saved.
Proof.
  intros Hsize Hts. unfold History.merged.
  set (vals := JsMap.values _).
  assert (Hvals : forall y, In y vals ->
                            In y loaded /\ History.keyOf y <> History.keyOf saved).
  { intros y Hy. now apply withoutInput_values in Hy. }
  destruct (sortDesc_head saved vals) as (r & Hsort & Hperm).
  { intros y Hy. apply Hts. now apply Hvals. }
  unfold History.cleanupOldItems. rewrite Hsort, cleanupLoop_first by exact Hsize.
  destruct (cleanupLoop_prefix r [saved] (0 + History.estimateItemSize saved))
    as (rest & -> & Hi).
  split; [now left|].
  intros y [<- | Hy]; [now left|].
  right. apply Hi in Hy. apply (Permutation_in _ Hperm) in Hy. now apply Hvals.
Qed.

(** C5, as amended.  The adapter accepts every call; an input is saved at
    [t1] and an input with the same normalized form at [t2], no earlier,
    nothing stored being more recent than [t1].  When the second candidate
    passes the validation (its input does not trim to the empty string, its
    size is within [MAX_ITEM_SIZE]) and the adapter has room for the new
    history under [MAX_TOTAL_SIZE], [getHistory] then returns exactly one
    item with that normalized input: the second candidate, with the instant
    and the result of the second call. *)
Theorem resave_replaces text1 text2 resultA resultB tags1 notes1 tags2 notes2
    t1 t2 rnd1 rnd2 (w0 : World) :
  History.normalize text1 = History.normalize text2 ->
  Js.trim text2 <> EmptyString ->
  let second := History.candidate text2 resultB tags2 notes2 t2 rnd2 in
  History.estimateItemSize second <= History.MAX_ITEM_SIZE ->
  (forall x, In x (History.items w0) -> History.timestamp x <= t1) ->
  t1 <= t2 ->
  let w1 := snd (History.saveComparison adapter text1 resultA tags1 notes1 t1 rnd1 w0) in
  History.sumZ (History.others w1)
  + History.blobBytes
      (History.serialize
         (History.merged second (History.deduplicateHistory (History.items w1))))
  <= History.MAX_TOTAL_SIZE ->
  let w2 := snd (History.saveComparison adapter text2 resultB tags2 notes2 t2 rnd2 w1) in
  exists l w3,
    History.getHistory adapter w2 = (Ret l, w3)
    /\ filter (fun x => String.eqb (History.keyOf x) (History.normalize text2)) l
       = [second]
    /\ History.timestamp second = t2
    /\ History.result second = resultB.
Proof.
  intros Hsame Hne second Hsize Hold Ht w1 Hroom w2.
  assert (Hn : ~ History.rejected second).
  { intros [Hr | Hr]; [|lia].
    cbn [History.inputText second History.candidate] in Hr.
    destruct (Js.trim text2); [congruence | discriminate]. }
  assert (Hkey : History.keyOf second = History.normalize text2).
  { unfold History.keyOf. cbn [History.inputText second History.candidate].
    apply normalize_trim. }
  (* nothing in [w1] is more recent than the second candidate *)
  assert (Hts : forall y, In y (History.deduplicateHistory (History.items w1)) ->
                          History.timestamp y <= History.timestamp second).
  { intros y Hy.
    destruct (deduplicateHistory_spec (History.items w1)) as (_ & Hsub & _).
    apply Hsub in Hy.
    apply save_items in Hy as [-> | Hy]; cbn [History.timestamp second History.candidate].
    - exact Ht.
    - specialize (Hold y Hy). lia. }
  destruct (save_accepting text2 resultB tags2 notes2 t2 rnd2 w1 Hn)
    as (w2' & E2 & Hitems & _).
  fold second in E2, Hitems.
  destruct (Z.gtb_spec
              (History.sumZ (History.others w1)
               + History.blobBytes
                   (History.serialize
                      (History.merged second
                         (History.deduplicateHistory (History.items w1)))))
              History.MAX_TOTAL_SIZE) as [Hover | _]; [lia|].
  destruct (getHistory_accepting w2) as (w3 & E3 & _).
  exists (History.deduplicateHistory (History.items w2)), w3.
  split; [exact E3|]. split; [|split; reflexivity].
  assert (Hw2 : History.items w2
                = History.merged second (History.deduplicateHistory (History.items w1))).
  { unfold w2. rewrite E2. exact Hitems. }
  destruct (merged_candidate second _ Hsize Hts) as (Hin & Honly).
  rewrite <- Hw2 in Hin, Honly.
  destruct (deduplicateHistory_spec (History.items w2)) as (Hnd & Hsub & Hcov & _).
  destruct (Hcov second Hin) as (y & Hy & Hk & _).
  assert (y = second) as ->.
  { destruct (Honly y (Hsub y Hy)); [assumption | congruence]. }
  rewrite <- Hkey. now apply filter_unique.
Qed.

End HistoryResave.

(** The amended C5 on Scenario C: ["Order 123"] with result [A], then
    ["  order 123 "] with result [B]. *)
Lemma resave_replaces_witness :
  exists l w3,
    History.getHistory Scenarios.healthy Scenarios.savedTwice = (Ret l, w3)
    /\ filter (fun x => String.eqb (History.keyOf x) (History.normalize "  order 123 ")) l
       = [History.candidate "  order 123 " (Scenarios.small "B") None None
            1700000000500 "p0q8r5t"]
    /\ History.timestamp
         (History.candidate "  order 123 " (Scenarios.small "B") None None
            1700000000500 "p0q8r5t") = 1700000000500
    /\ History.result
         (History.candidate "  order 123 " (Scenarios.small "B") None None
            1700000000500 "p0q8r5t") = Scenarios.small "B".
Proof.
  apply (resave_replaces Scenarios.healthy (fun n => conj eq_refl (conj eq_refl (conj eq_refl eq_refl)))
           "Order 123" "  order 123 " (Scenarios.small "A") (Scenarios.small "B")
           None None None None 1700000000000 1700000000500 "k3j9x2a" "p0q8r5t"
           (History.empty [])).
  - reflexivity.
  - vm_compute. discriminate.
  - vm_compute. discriminate.
  - intros x [].
  - lia.
  - vm_compute. discriminate.
Defined.

(** C5 as stated fails when the adapter is out of quota: both saves of
    Scenario C return absent and the history stays empty, so that no item
    carries the second result. *)
Lemma resave_under_quota :
  History.normalize "Order 123" = History.normalize "  order 123 "
  /\ fst (History.saveComparison Scenarios.quotaOnSet "  order 123 " (Scenarios.small "B")
            None None 1700000000500 "p0q8r5t"
            (Scenarios.after
               (History.saveComparison Scenarios.quotaOnSet "Order 123"
                  (Scenarios.small "A") None None 1700000000000 "k3j9x2a")
               (History.empty [])))
     = Ret None
  /\ fst (History.getHistory Scenarios.quotaOnSet Scenarios.savedTwiceUnderQuota) = Ret [].
Proof. repeat split; reflexivity. Qed.

(** * Further properties *)

(** ** The map: insertion of a new key *)

Section MapAppend.

Context {V : Type}.

Lemma set_absent k (v : V) m : ~ In k (JsMap.keys m) -> JsMap.set k v m = m ++ [(k, v)].
Proof.
  induction m as [|[k' v'] m IH]; intros Hk; [reflexivity|].
  cbn [JsMap.set]. destruct (String.eqb_spec k k') as [-> | Hne].
  - exfalso. apply Hk. now left.
  - cbn [app]. f_equal. apply IH. intros Hin. apply Hk. now right.
Qed.

End MapAppend.

(** ** The cache: reading, deleting, clearing and sweeping *)

(** *** Reading, deleting and clearing *)

Section CacheAccess.

Variable T : Type.
Variable stringifies : T -> bool.
Variable adapter : Adapter.
Variable config : Cache.CacheConfig.

Local Abbreviation World := (Cache.World T).
Local Abbreviation saveToStorage := (Cache.saveToStorage T stringifies adapter config).
Local Abbreviation get := (Cache.get T stringifies adapter config).
Local Abbreviation has := (Cache.has T stringifies adapter config).
Local Abbreviation delete := (Cache.delete T stringifies adapter config).
Local Abbreviation clear := (Cache.clear T stringifies adapter config).
Local Abbreviation writeAccepted := (Cache.writeAccepted T adapter).

(** [get], [has] and [delete] as functions of the world. *)
Lemma get_unfold key now (w : World) :
  get key now w =
  match JsMap.get key (Cache.cache w) with
  | None => (Ret None, w)
  | Some entry =>
      if now - Cache.timestamp entry >? Cache.ttl entry
      then match saveToStorage now (Cache.setCache T (JsMap.delete key (Cache.cache w)) w) with
           | (Ret _, w') => (Ret None, w')
           | (Throw e, w') => (Throw e, w')
           end
      else (Ret (Some (Cache.data entry)), w)
  end.
Proof.
  unfold Cache.get, bind, getW, modifyW, ret.
  destruct (JsMap.get key (Cache.cache w)) as [entry|]; [|reflexivity].
  destruct (now - Cache.timestamp entry >? Cache.ttl entry); [|reflexivity].
  destruct (saveToStorage now _) as [[[]|e] w']; reflexivity.
Qed.

Lemma has_unfold key now (w : World) :
  has key now w =
  match JsMap.get key (Cache.cache w) with
  | None => (Ret false, w)
  | Some entry =>
      if now - Cache.timestamp entry >? Cache.ttl entry
      then match saveToStorage now (Cache.setCache T (JsMap.delete key (Cache.cache w)) w) with
           | (Ret _, w') => (Ret false, w')
           | (Throw e, w') => (Throw e, w')
           end
      else (Ret true, w)
  end.
Proof.
  unfold Cache.has, bind, getW, modifyW, ret.
  destruct (JsMap.get key (Cache.cache w)) as [entry|]; [|reflexivity].
  destruct (now - Cache.timestamp entry >? Cache.ttl entry); [|reflexivity].
  destruct (saveToStorage now _) as [[[]|e] w']; reflexivity.
Qed.

(** X1.  [has] and [get] agree: on every instance, at every instant and for
    every adapter, both return, [has] answers [true] exactly when [get]
    finds a value, and both leave the same instance behind.  When the answer
    is a value nothing has changed; when it is absent the key is not in the
    map afterwards. *)
Theorem has_agrees_with_get key now (w : World) :
  exists o w',
    get key now w = (Ret o, w')
    /\ has key now w = (Ret (match o with Some _ => true | None => false end), w')
    /\ (o = None -> JsMap.get key (Cache.cache w') = None)
    /\ (forall v, o = Some v -> w' = w).
Proof.
  rewrite get_unfold, has_unfold.
  destruct (JsMap.get key (Cache.cache w)) as [entry|] eqn:E.
  - destruct (now - Cache.timestamp entry >? Cache.ttl entry).
    + destruct (safe_saveToStorage T stringifies adapter config now
                  (Cache.setCache T (JsMap.delete key (Cache.cache w)) w))
        as ([] & w' & E1 & HS).
      rewrite E1. exists None, w'. repeat split; try discriminate.
      intros _. eapply Shrinks_absent; [exact HS|]. apply get_delete_same.
    + exists (Some (Cache.data entry)), w. repeat split; try discriminate.
  - exists None, w. repeat split; auto; discriminate.
Qed.

Lemma delete_unfold key now (w : World) :
  delete key now w =
  let w1 := Cache.setCache T (JsMap.delete key (Cache.cache w)) w in
  if JsMap.has key (Cache.cache w)
  then match saveToStorage now
               (if Cache.optEqb key (Cache.oldestKey w)
                then Cache.setOldest T (fst (Cache.scanOldest (Cache.cache w1)))
                       (snd (Cache.scanOldest (Cache.cache w1))) w1
                else w1) with
       | (Ret _, w') => (Ret true, w')
       | (Throw e, w') => (Throw e, w')
       end
  else (Ret false, w1).
Proof.
  unfold Cache.delete, bind, getW, modifyW, ret, Cache.updateOldestKey. cbv zeta.
  destruct (JsMap.has key (Cache.cache w)); [|reflexivity].
  destruct (Cache.optEqb key (Cache.oldestKey w)); cbn [when];
    unfold modifyW, ret;
    destruct (saveToStorage now _) as [[[]|e] w']; reflexivity.
Qed.

Lemma setCache_same (w : World) : Cache.setCache T (Cache.cache w) w = w.
Proof. now destruct w. Qed.

(** X2.  [delete] returns whether the key was in the map; afterwards [get]
    finds nothing under the key at any instant, and no entry has been added.
    Deleting a key that is not there changes nothing and calls the adapter
    not at all; when the write that follows a removal is not refused for
    quota, the map is the former one without the key. *)
Theorem delete_removes key now (w : World) :
  exists w',
    delete key now w = (Ret (JsMap.has key (Cache.cache w)), w')
    /\ (forall t, get key t w' = (Ret None, w'))
    /\ Cache.Shrinks T w w'
    /\ (JsMap.has key (Cache.cache w) = false -> w' = w)
    /\ (writeAccepted w -> Cache.cache w' = JsMap.delete key (Cache.cache w)).
Proof.
  rewrite delete_unfold. cbv zeta.
  set (w1 := Cache.setCache T (JsMap.delete key (Cache.cache w)) w).
  assert (H1 : Cache.Shrinks T w w1) by (eexists; reflexivity).
  destruct (JsMap.has key (Cache.cache w)) eqn:Eh.
  - match goal with
    | |- context [saveToStorage now ?x] => set (w2 := x)
    end.
    assert (H2 : Cache.cache w2 = Cache.cache w1 /\ Cache.calls w2 = Cache.calls w).
    { unfold w2. destruct (Cache.optEqb key (Cache.oldestKey w)); split; reflexivity. }
    destruct H2 as [H2 H2c].
    destruct (safe_saveToStorage T stringifies adapter config now w2)
      as ([] & w' & E & HS).
    rewrite E. exists w'. split; [reflexivity|].
    assert (HS' : Cache.Shrinks T w1 w').
    { destruct HS as [f Hf]. exists f. now rewrite <- H2. }
    split; [|split; [|split]].
    + intros t. apply get_absent. eapply Shrinks_absent; [exact HS'|].
      apply get_delete_same.
    + eapply Shrinks_trans; eauto.
    + discriminate.
    + intros Hw.
      destruct (saveToStorage_accepted T stringifies adapter config now w2)
        as (w3 & E3 & Hc & _).
      { unfold Cache.writeAccepted. rewrite H2c. exact Hw. }
      rewrite E in E3. injection E3 as <-. rewrite Hc, H2. reflexivity.
  - assert (Hsame : JsMap.delete key (Cache.cache w) = Cache.cache w).
    { apply delete_absent. intros Hin. apply has_true in Hin. congruence. }
    assert (Hw1 : w1 = w) by (unfold w1; rewrite Hsame; apply setCache_same).
    exists w1. split; [reflexivity|]. rewrite Hw1. split; [|split; [|split]].
    + intros t. apply get_absent. unfold JsMap.has in Eh.
      destruct (JsMap.get key (Cache.cache w)); [discriminate | reflexivity].
    + apply Shrinks_refl.
    + reflexivity.
    + intros _. now rewrite Hsame.
Qed.

(** Persisting an empty map keeps it empty, with its pointer, whatever the
    adapter answers. *)
Lemma saveToStorage_empty now (w : World) :
  Cache.cache w = [] -> Cache.oldestKey w = None ->
  exists w',
    saveToStorage now w = (Ret tt, w')
    /\ Cache.cache w' = []
    /\ Cache.oldestKey w' = None
    /\ Cache.oldestTimestamp w' = Cache.oldestTimestamp w
    /\ (onSet adapter (Cache.calls w) = None -> Cache.stored w' = Some (Cache.Parsed []))
    /\ (Cache.writes w < Cache.writes w' <= Cache.writes w + 2)%nat.
Proof.
  destruct w as [c ok ot st n wr]. cbn [Cache.cache Cache.oldestKey Cache.oldestTimestamp
                                        Cache.calls Cache.writes].
  intros -> ->.
  unfold Cache.saveToStorage, bind at 1, getW. cbn [Cache.cache length Cache.saveToStorageN].
  unfold tryCatch at 1, Cache.writeCache at 1, bind at 1, getW, Cache.setItem at 1.
  cbn [Cache.cache Cache.serialize forallb map Cache.calls].
  destruct (onSet adapter n) as [e|] eqn:E1.
  - destruct (Cache.isQuota e).
    + unfold bind at 1. rewrite cleanExpiredWith_unfold. cbv zeta.
      cbn [Cache.cache Cache.called Cache.expiredKeys filter map length Z.of_nat Z.gtb
           Z.compare Cache.deleteAll fold_left Cache.setCache Cache.oldestKey
           Cache.oldestTimestamp Cache.stored Cache.calls Cache.writes].
      cbv [bind getW Cache.pruneOldest Cache.size Cache.cache Cache.setCache Cache.called
           length Z.of_nat Z.mul Cache.oldestKey Cache.truthy ret tryCatch Cache.writeCache
           Cache.serialize forallb map Cache.setItem Cache.calls].
      destruct (0 >? Cache.maxSize config);
        destruct (onSet adapter (S n));
        eexists; (split; [reflexivity|]);
        cbn; repeat split; try discriminate; lia.
    + eexists; (split; [reflexivity|]). cbn. repeat split; try discriminate; lia.
  - eexists; (split; [reflexivity|]). cbn. repeat split; try lia.
Qed.

(** X3.  [clear] leaves an empty map and a reset pointer whatever the
    adapter does, so that every later [get] finds nothing; when the write is
    accepted the slot holds the empty object. *)
Theorem clear_empties now (w : World) :
  exists w',
    clear now w = (Ret tt, w')
    /\ Cache.cache w' = []
    /\ Cache.oldestKey w' = None
    /\ Cache.oldestTimestamp w' = None
    /\ (onSet adapter (Cache.calls w) = None -> Cache.stored w' = Some (Cache.Parsed []))
    /\ (forall key t, get key t w' = (Ret None, w')).
Proof.
  unfold Cache.clear, bind, modifyW.
  destruct (saveToStorage_empty now (Cache.setOldest T None None (Cache.setCache T [] w)))
    as (w' & E & Hc & Hk & Ht & Hs & _); try reflexivity.
  rewrite E. exists w'. repeat split; auto.
  intros key t. apply get_absent. now rewrite Hc.
Qed.

End CacheAccess.

(** *** The sweep of the expired entries *)

Section CacheSweep.

Variable T : Type.
Variable stringifies : T -> bool.
Variable adapter : Adapter.
Variable config : Cache.CacheConfig.

Local Abbreviation World := (Cache.World T).
Local Abbreviation saveToStorage := (Cache.saveToStorage T stringifies adapter config).
Local Abbreviation cleanExpired := (Cache.cleanExpired T stringifies adapter config).
Local Abbreviation writeAccepted := (Cache.writeAccepted T adapter).

(** With distinct keys the sweep removes the expired entries and no
    other. *)
Lemma same_key_same_entry (m : JsMap.t (Cache.CacheEntry T)) k x y :
  NoDup (JsMap.keys m) -> In (k, x) m -> In (k, y) m -> x = y.
Proof.
  intros Hnd Hx Hy.
  apply (in_get k x m Hnd) in Hx. apply (in_get k y m Hnd) in Hy. congruence.
Qed.

Lemma sweep_filter now (m : JsMap.t (Cache.CacheEntry T)) :
  NoDup (JsMap.keys m) ->
  Cache.deleteAll T (Cache.expiredKeys T now m) m
  = filter (fun p => negb (Cache.expired now (snd p))) m.
Proof.
  intros Hnd. rewrite deleteAll_spec. apply filter_ext_in.
  intros [k x] Hin. cbn [fst snd]. f_equal.
  destruct (Cache.expired now x) eqn:Ex.
  - apply existsb_exists. exists k. split; [|apply String.eqb_refl].
    unfold Cache.expiredKeys. apply in_map_iff. exists (k, x). split; [reflexivity|].
    apply filter_In. auto.
  - apply not_true_is_false. intros H. apply existsb_exists in H.
    destruct H as (k' & Hk' & Heq). apply String.eqb_eq in Heq. subst k'.
    unfold Cache.expiredKeys in Hk'. apply in_map_iff in Hk'.
    destruct Hk' as ([k' y] & Hfst & Hy). cbn [fst] in Hfst. subst k'.
    apply filter_In in Hy. destruct Hy as [Hy Hexp]. cbn [snd] in Hexp.
    assert (x = y) by (eapply same_key_same_entry; eauto). congruence.
Qed.

(** X4.  On a map with pairwise distinct keys [cleanExpired] returns the
    number of entries that are expired at the instant of the call; no entry
    left is expired and none is new.  When the write that follows is not
    refused for quota, exactly the expired entries are gone; when nothing is
    expired, nothing changes and the adapter is not called. *)
Theorem cleanExpired_sweeps now (w : World) :
  NoDup (JsMap.keys (Cache.cache w)) ->
  exists w',
    cleanExpired now w
    = (Ret (Z.of_nat (length (filter (fun p => Cache.expired now (snd p)) (Cache.cache w)))),
       w')
    /\ (forall k x, In (k, x) (Cache.cache w') -> Cache.expired now x = false)
    /\ (forall k x, In (k, x) (Cache.cache w') -> In (k, x) (Cache.cache w))
    /\ (writeAccepted w ->
        Cache.cache w' = filter (fun p => negb (Cache.expired now (snd p))) (Cache.cache w))
    /\ (filter (fun p => Cache.expired now (snd p)) (Cache.cache w) = [] -> w' = w).
Proof.
  intros Hnd. unfold Cache.cleanExpired. rewrite cleanExpiredWith_unfold. cbv zeta.
  assert (Hlen : length (Cache.expiredKeys T now (Cache.cache w))
                 = length (filter (fun p => Cache.expired now (snd p)) (Cache.cache w)))
    by (unfold Cache.expiredKeys; apply length_map).
  rewrite !Hlen. clear Hlen.
  set (m' := Cache.deleteAll T (Cache.expiredKeys T now (Cache.cache w)) (Cache.cache w)).
  assert (Hm' : m' = filter (fun p => negb (Cache.expired now (snd p))) (Cache.cache w))
    by (apply sweep_filter; exact Hnd).
  assert (Hlive : forall k x, In (k, x) m' -> Cache.expired now x = false).
  { intros k x Hin. rewrite Hm' in Hin. apply filter_In in Hin.
    destruct Hin as [_ H]. cbn [snd] in H. now apply negb_true_iff in H. }
  assert (Hsub : forall k x, In (k, x) m' -> In (k, x) (Cache.cache w)).
  { intros k x Hin. rewrite Hm' in Hin. now apply filter_In in Hin. }
  destruct (filter (fun p => Cache.expired now (snd p)) (Cache.cache w)) as [|p ps] eqn:Ef.
  - cbn [length Z.of_nat Z.gtb Z.compare].
    assert (Hsame : m' = Cache.cache w).
    { unfold m', Cache.expiredKeys. rewrite Ef. reflexivity. }
    eexists. split; [reflexivity|].
    cbn [Cache.cache Cache.setCache].
    split; [exact Hlive|]. split; [exact Hsub|]. split; [intros _; exact Hm'|].
    intros _. rewrite Hsame. destruct w; reflexivity.
  - replace (Z.of_nat (length (p :: ps)) >? 0) with true
      by (symmetry; apply Z.gtb_lt; simpl; lia).
    match goal with
    | |- context [saveToStorage now ?x] => set (w2 := x)
    end.
    destruct (safe_saveToStorage T stringifies adapter config now w2)
      as ([] & w' & E & HS).
    rewrite E. exists w'. split; [reflexivity|].
    assert (Hin : forall q, In q (Cache.cache w') -> In q m').
    { intros q Hq. apply (Shrinks_in T w2 w' q HS Hq). }
    split; [|split; [|split]].
    + intros k x Hx. apply (Hlive k). now apply Hin.
    + intros k x Hx. apply Hsub. now apply Hin.
    + intros Hw.
      destruct (saveToStorage_accepted T stringifies adapter config now w2 Hw)
        as (w3 & E3 & Hc & _).
      rewrite E in E3. injection E3 as <-. rewrite Hc. exact Hm'.
    + discriminate.
Qed.

End CacheSweep.

(** X4 at instant [100] on the cache that holds ["a"], expired by then, and
    ["b"]. *)
Lemma cleanExpired_sweeps_witness :
  exists w',
    Cache.cleanExpired string Scenarios.anyString Scenarios.healthy (Scenarios.capacity 2)
      100 Scenarios.aThenB
    = (Ret (Z.of_nat (length (filter (fun p => Cache.expired 100 (snd p))
                                (Cache.cache Scenarios.aThenB)))), w')
    /\ (forall k x, In (k, x) (Cache.cache w') -> Cache.expired 100 x = false)
    /\ (forall k x, In (k, x) (Cache.cache w') -> In (k, x) (Cache.cache Scenarios.aThenB))
    /\ (Cache.writeAccepted string Scenarios.healthy Scenarios.aThenB ->
        Cache.cache w'
        = filter (fun p => negb (Cache.expired 100 (snd p))) (Cache.cache Scenarios.aThenB))
    /\ (filter (fun p => Cache.expired 100 (snd p)) (Cache.cache Scenarios.aThenB) = [] ->
        w' = Scenarios.aThenB).
Proof.
  apply (cleanExpired_sweeps string Scenarios.anyString Scenarios.healthy
           (Scenarios.capacity 2) 100 Scenarios.aThenB).
  vm_compute. repeat constructor; simpl; intuition discriminate.
Defined.

(** *** The pointer to the oldest entry and the statistics *)

Section CachePointer.

Variable T : Type.
Variable config : Cache.CacheConfig.

Local Abbreviation World := (Cache.World T).
Local Abbreviation stamp := (fun p : string * Cache.CacheEntry T => Cache.timestamp (snd p)).

(** [Math.min] and [Math.max] over the timestamps. *)
Lemma fold_min_spec (r : list Z) :
  forall x,
    let t := fold_left Z.min r x in
    (t = x \/ In t r) /\ t <= x /\ forall y, In y r -> t <= y.
Proof.
  induction r as [|a r IH]; intros x; cbn [fold_left].
  - cbv zeta. split; [now left|]. split; [lia|]. intros y [].
  - destruct (IH (Z.min x a)) as (Hin & Hle & Hall). cbv zeta.
    split; [|split].
    + destruct Hin as [-> | Hin]; [|right; now right].
      destruct (Z.min_spec x a) as [[_ ->] | [_ ->]]; [now left | right; now left].
    + lia.
    + intros y [<- | Hy]; [lia | now apply Hall].
Qed.

Lemma fold_max_spec (r : list Z) :
  forall x,
    let t := fold_left Z.max r x in
    (t = x \/ In t r) /\ x <= t /\ forall y, In y r -> y <= t.
Proof.
  induction r as [|a r IH]; intros x; cbn [fold_left].
  - cbv zeta. split; [now left|]. split; [lia|]. intros y [].
  - destruct (IH (Z.max x a)) as (Hin & Hle & Hall). cbv zeta.
    split; [|split].
    + destruct Hin as [-> | Hin]; [|right; now right].
      destruct (Z.max_spec x a) as [[_ ->] | [_ ->]]; [right; now left | now left].
    + lia.
    + intros y [<- | Hy]; [lia | now apply Hall].
Qed.

Lemma minimum_spec (l : list Z) :
  match Cache.minimum l with
  | None => l = []
  | Some t => In t l /\ forall y, In y l -> t <= y
  end.
Proof.
  destruct l as [|x r]; [reflexivity|]. cbn [Cache.minimum].
  destruct (fold_min_spec r x) as (Hin & Hle & Hall). split.
  - destruct Hin as [-> | Hin]; [now left | now right].
  - intros y [<- | Hy]; [exact Hle | now apply Hall].
Qed.

Lemma maximum_spec (l : list Z) :
  match Cache.maximum l with
  | None => l = []
  | Some t => In t l /\ forall y, In y l -> y <= t
  end.
Proof.
  destruct l as [|x r]; [reflexivity|]. cbn [Cache.maximum].
  destruct (fold_max_spec r x) as (Hin & Hle & Hall). split.
  - destruct Hin as [-> | Hin]; [now left | now right].
  - intros y [<- | Hy]; [exact Hle | now apply Hall].
Qed.

(** The scan, one entry at a time. *)
Lemma scanOldest_snoc (m : JsMap.t (Cache.CacheEntry T)) p :
  Cache.scanOldest (m ++ [p])
  = if Cache.ltBound (Cache.timestamp (snd p)) (snd (Cache.scanOldest m))
    then (Some (fst p), Some (Cache.timestamp (snd p)))
    else Cache.scanOldest m.
Proof. unfold Cache.scanOldest. rewrite fold_left_app. reflexivity. Qed.

(** The pointer that the scan computes: the first entry, in insertion order,
    among those with the least timestamp. *)
Lemma scanOldest_first (m : JsMap.t (Cache.CacheEntry T)) :
  match Cache.scanOldest m with
  | (None, None) => m = []
  | (Some k, Some t) =>
      exists m1 e m2,
        m = m1 ++ (k, e) :: m2
        /\ t = Cache.timestamp e
        /\ (forall p, In p m1 -> t < stamp p)
        /\ (forall p, In p m2 -> t <= stamp p)
  | _ => False
  end.
Proof.
  induction m as [|p m IH] using rev_ind; [reflexivity|].
  rewrite scanOldest_snoc.
  destruct (Cache.scanOldest m) as [[k|] [t|]]; try contradiction; cbn [snd Cache.ltBound].
  - destruct IH as (m1 & e & m2 & Hm & Ht & H1 & H2).
    destruct (Z.ltb_spec (Cache.timestamp (snd p)) t) as [Hlt | Hge].
    + exists m, (snd p), []. split; [destruct p; reflexivity|]. split; [reflexivity|].
      split; [|intros q []].
      intros q Hq. rewrite Hm in Hq. apply in_app_or in Hq.
      destruct Hq as [Hq | [<- | Hq]].
      * specialize (H1 q Hq). cbn in *. lia.
      * cbn [snd]. lia.
      * specialize (H2 q Hq). cbn in *. lia.
    + exists m1, e, (m2 ++ [p]). split; [rewrite Hm, <- app_assoc; reflexivity|].
      split; [exact Ht|]. split; [exact H1|].
      intros q Hq. apply in_app_or in Hq. destruct Hq as [Hq | [<- | []]].
      * now apply H2.
      * exact Hge.
  - subst m. exists [], (snd p), []. split; [destruct p; reflexivity|].
    split; [reflexivity|]. split; intros q [].
Qed.

(** The instant of the pointer is the least timestamp. *)
Lemma scanOldest_minimum (m : JsMap.t (Cache.CacheEntry T)) :
  snd (Cache.scanOldest m) = Cache.minimum (map stamp m).
Proof.
  pose proof (scanOldest_first m) as H. pose proof (minimum_spec (map stamp m)) as Hmin.
  destruct (Cache.scanOldest m) as [[k|] [t|]]; try contradiction; cbn [snd].
  - destruct H as (m1 & e & m2 & Hm & Ht & H1 & H2).
    destruct (Cache.minimum (map stamp m)) as [t'|].
    + destruct Hmin as [Hin Hall]. f_equal.
      assert (t' <= t).
      { apply Hall. apply in_map_iff. exists (k, e). split; [now rewrite Ht|].
        rewrite Hm. apply in_or_app. right. now left. }
      apply in_map_iff in Hin. destruct Hin as (q & Hq & Hin).
      rewrite Hm in Hin. apply in_app_or in Hin. destruct Hin as [Hin | [<- | Hin]].
      * specialize (H1 q Hin). cbn in *. lia.
      * cbn in Hq. lia.
      * specialize (H2 q Hin). cbn in *. lia.
    + apply map_eq_nil in Hmin. subst m. destruct m1; discriminate.
  - subst m. reflexivity.
Qed.

(** X5.  [updateOldestKey] leaves the pointer on the first entry, in
    insertion order, among those with the least timestamp (no pointer and no
    instant on an empty map), and the instant it records is the one that
    [getStats] reports as [oldestEntry]. *)
Theorem updateOldestKey_minimum (w : World) :
  exists w' stats,
    Cache.updateOldestKey T w = (Ret tt, w')
    /\ Cache.cache w' = Cache.cache w
    /\ Cache.getStats T config w' = (Ret stats, w')
    /\ Cache.oldestTimestamp w' = Cache.oldestEntry stats
    /\ match Cache.oldestKey w' with
       | None => Cache.cache w = [] /\ Cache.oldestTimestamp w' = None
       | Some k =>
           exists m1 e m2,
             Cache.cache w = m1 ++ (k, e) :: m2
             /\ Cache.oldestTimestamp w' = Some (Cache.timestamp e)
             /\ (forall p, In p m1 -> Cache.timestamp e < Cache.timestamp (snd p))
             /\ (forall p, In p m2 -> Cache.timestamp e <= Cache.timestamp (snd p))
       end.
Proof.
  unfold Cache.updateOldestKey, modifyW, Cache.getStats, bind, getW, ret.
  eexists. eexists. split; [reflexivity|]. split; [reflexivity|].
  split; [reflexivity|].
  cbn [Cache.oldestTimestamp Cache.oldestKey Cache.setOldest Cache.oldestEntry Cache.cache].
  split; [apply scanOldest_minimum|].
  pose proof (scanOldest_first (Cache.cache w)) as H.
  destruct (Cache.scanOldest (Cache.cache w)) as [[k|] [t|]]; try contradiction; cbn [fst snd].
  - destruct H as (m1 & e & m2 & Hm & Ht & H1 & H2).
    exists m1, e, m2. subst t. auto.
  - auto.
Qed.

(** X6.  [getStats] changes nothing and reports the keys in insertion
    order, their number as the size, and as [oldestEntry] and [newestEntry]
    the least and the greatest timestamp in the map: both are timestamps of
    entries, every entry lies between them, and both are absent on an empty
    map.  Expired entries that are still in the map are counted. *)
Theorem getStats_bounds (w : World) :
  exists stats,
    Cache.getStats T config w = (Ret stats, w)
    /\ Cache.statKeys stats = JsMap.keys (Cache.cache w)
    /\ Cache.statSize stats = Z.of_nat (length (Cache.statKeys stats))
    /\ Cache.statMaxSize stats = Cache.maxSize config
    /\ (Cache.cache w = [] ->
        Cache.oldestEntry stats = None /\ Cache.newestEntry stats = None)
    /\ (forall k e, In (k, e) (Cache.cache w) ->
        exists lo hi,
          Cache.oldestEntry stats = Some lo /\ Cache.newestEntry stats = Some hi
          /\ lo <= Cache.timestamp e <= hi)
    /\ (forall lo, Cache.oldestEntry stats = Some lo ->
        exists k e, In (k, e) (Cache.cache w) /\ Cache.timestamp e = lo)
    /\ (forall hi, Cache.newestEntry stats = Some hi ->
        exists k e, In (k, e) (Cache.cache w) /\ Cache.timestamp e = hi).
Proof.
  unfold Cache.getStats, bind, getW, ret. eexists. split; [reflexivity|].
  cbn [Cache.statKeys Cache.statSize Cache.statMaxSize Cache.oldestEntry Cache.newestEntry].
  pose proof (minimum_spec (map stamp (Cache.cache w))) as Hmin.
  pose proof (maximum_spec (map stamp (Cache.cache w))) as Hmax.
  assert (Hattained : forall t, In t (map stamp (Cache.cache w)) ->
            exists k e, In (k, e) (Cache.cache w) /\ Cache.timestamp e = t).
  { intros t Ht. apply in_map_iff in Ht. destruct Ht as ([k e] & <- & Hin).
    exists k, e. auto. }
  split; [reflexivity|]. split; [unfold Cache.size, JsMap.keys; now rewrite length_map|].
  split; [reflexivity|]. split; [|split; [|split]].
  - intros ->. split; reflexivity.
  - intros k e Hin.
    assert (Ht : In (Cache.timestamp e) (map stamp (Cache.cache w))).
    { apply in_map_iff. exists (k, e). auto. }
    destruct (Cache.minimum (map stamp (Cache.cache w))) as [lo|];
      [|rewrite Hmin in Ht; contradiction].
    destruct (Cache.maximum (map stamp (Cache.cache w))) as [hi|];
      [|rewrite Hmax in Ht; contradiction].
    exists lo, hi. destruct Hmin as [_ Hlo]. destruct Hmax as [_ Hhi].
    specialize (Hlo _ Ht). specialize (Hhi _ Ht). auto.
  - intros lo Hlo. rewrite Hlo in Hmin. apply Hattained, Hmin.
  - intros hi Hhi. rewrite Hhi in Hmax. apply Hattained, Hmax.
Qed.

End CachePointer.

(** *** A new instance over a stored slot *)

Section CacheLoad.

Variable T : Type.
Variable stringifies : T -> bool.
Variable adapter : Adapter.
Variable config : Cache.CacheConfig.

Local Abbreviation World := (Cache.World T).
Local Abbreviation saveToStorage := (Cache.saveToStorage T stringifies adapter config).
Local Abbreviation loadEntries := (Cache.loadEntries T).
Local Abbreviation construct := (Cache.construct T stringifies adapter config).
Local Abbreviation recomputed := (Cache.recomputed T).
Local Abbreviation asEntry := (fun p : string * Cache.CacheEntry T => (fst p, Cache.Entry (snd p))).
Local Abbreviation unexpired :=
  (fun now (p : string * Cache.CacheEntry T) => negb (Cache.expired now (snd p))).

(** Loading entries with new, pairwise distinct keys appends those that are
    not expired and keeps the pointer the one that a scan would compute. *)
Lemma loadEntries_appends now (l : list (string * Cache.CacheEntry T)) :
  forall w : World,
    NoDup (JsMap.keys (Cache.cache w) ++ map fst l) ->
    recomputed w ->
    exists w',
      loadEntries now (map asEntry l) w = (Ret tt, w')
      /\ Cache.cache w' = Cache.cache w ++ filter (unexpired now) l
      /\ recomputed w'
      /\ Cache.stored w' = Cache.stored w
      /\ Cache.calls w' = Cache.calls w
      /\ Cache.writes w' = Cache.writes w.
Proof.
  induction l as [|[key entry] l IH]; intros w Hnd Hrec.
  - exists w. cbn [map Cache.loadEntries filter]. rewrite app_nil_r. repeat split; auto; apply Hrec.
  - cbn [map fst snd Cache.loadEntries filter].
    assert (Hagree : (now - Cache.timestamp entry <=? Cache.ttl entry)
                     = negb (Cache.expired now entry)).
    { unfold Cache.expired.
      destruct (Z.leb_spec (now - Cache.timestamp entry) (Cache.ttl entry));
        destruct (Z.gtb_spec (now - Cache.timestamp entry) (Cache.ttl entry));
        reflexivity || lia. }
    rewrite Hagree.
    assert (Hfresh : ~ In key (JsMap.keys (Cache.cache w))).
    { intros Hin. cbn [map fst] in Hnd. apply NoDup_remove_2 in Hnd. apply Hnd.
      apply in_or_app. now left. }
    destruct (Cache.expired now entry); cbn [negb].
    + unfold bind at 1, ret at 1. apply IH; [|exact Hrec].
      cbn [map fst] in Hnd. now apply NoDup_remove_1 in Hnd.
    + unfold bind at 1. unfold bind at 1, modifyW at 1. unfold bind at 1, getW.
      set (w1 := Cache.setCache T (JsMap.set key entry (Cache.cache w)) w).
      assert (Hc1 : Cache.cache w1 = Cache.cache w ++ [(key, entry)])
        by (unfold w1; cbn [Cache.cache Cache.setCache]; now apply set_absent).
      set (w2 := if Cache.ltBound (Cache.timestamp entry) (Cache.oldestTimestamp w1)
                 then Cache.setOldest T (Some key) (Some (Cache.timestamp entry)) w1
                 else w1).
      assert (E : when (Cache.ltBound (Cache.timestamp entry) (Cache.oldestTimestamp w1))
                    (modifyW (Cache.setOldest T (Some key) (Some (Cache.timestamp entry)))) w1
                  = (Ret tt, w2)).
      { unfold w2. destruct (Cache.ltBound _ _); reflexivity. }
      rewrite E.
      assert (Hc2 : Cache.cache w2 = Cache.cache w ++ [(key, entry)]
                    /\ Cache.stored w2 = Cache.stored w
                    /\ Cache.calls w2 = Cache.calls w
                    /\ Cache.writes w2 = Cache.writes w).
      { unfold w2. destruct (Cache.ltBound _ _); cbn; rewrite <- Hc1; auto. }
      destruct Hc2 as (Hc2 & Hs2 & Hn2 & Hw2).
      assert (Hrec2 : recomputed w2).
      { destruct Hrec as [Hk Ht]. unfold Cache.recomputed. rewrite Hc2, scanOldest_snoc.
        cbn [fst snd]. rewrite <- Ht.
        unfold w2. change (Cache.oldestTimestamp w1) with (Cache.oldestTimestamp w).
        destruct (Cache.ltBound _ _); cbn; auto. }
      destruct (IH w2) as (w' & E' & Hc' & Hrec' & Hs' & Hn' & Hw'); [|exact Hrec2|].
      { rewrite Hc2. unfold JsMap.keys. rewrite map_app, <- app_assoc. exact Hnd. }
      exists w'. split; [exact E'|]. rewrite Hc', Hc2, <- app_assoc.
      split; [reflexivity|]. split; [exact Hrec'|].
      split; [congruence|]. split; congruence.
Qed.

(** X7.  A new instance over a slot that holds an object whose properties,
    with pairwise distinct keys, are cache entries: when the read is
    accepted and the write is not refused for quota, the map holds exactly
    the entries that are not expired at the instant of the construction, in
    the order of the object, the pointer is the one a scan would compute,
    and [get] finds each of these entries.  When no entry is expired the
    slot is not written. *)
Theorem construct_restores now (l : list (string * Cache.CacheEntry T)) (w : World) :
  Cache.stored w = Some (Cache.Parsed (map asEntry l)) ->
  NoDup (map fst l) ->
  onGet adapter (Cache.calls w) = None ->
  (forall e, onSet adapter (S (Cache.calls w)) = Some e -> Cache.isQuota e = false) ->
  exists w',
    construct now w = (Ret tt, w')
    /\ Cache.cache w' = filter (unexpired now) l
    /\ recomputed w'
    /\ (forall k x, In (k, x) l -> Cache.expired now x = false ->
        Cache.get T stringifies adapter config k now w' = (Ret (Some (Cache.data x)), w'))
    /\ (filter (unexpired now) l = l ->
        Cache.stored w' = Cache.stored w /\ Cache.writes w' = Cache.writes w).
Proof.
  intros Hst Hnd Hget Hset.
  unfold Cache.construct, bind at 1, modifyW at 1.
  set (w0 := Cache.setOldest T None None (Cache.setCache T [] w)).
  unfold Cache.loadFromStorage, tryCatch at 1, bind at 1, Cache.getItem at 1.
  change (Cache.calls w0) with (Cache.calls w). rewrite Hget.
  change (Cache.stored w0) with (Cache.stored w). rewrite Hst.
  destruct (loadEntries_appends now l (Cache.called T false w0))
    as (w1 & E1 & Hc1 & Hrec1 & Hs1 & Hn1 & Hw1).
  { exact Hnd. }
  { split; reflexivity. }
  subst w0.
  cbn [app Cache.cache Cache.called Cache.setCache Cache.setOldest Cache.stored
       Cache.calls Cache.writes] in Hc1, Hs1, Hn1, Hw1.
  unfold bind at 1. rewrite E1. unfold bind at 1, getW.
  rewrite length_map.
  assert (Hgets : forall w2 : World,
            Cache.cache w2 = filter (unexpired now) l ->
            forall k x, In (k, x) l -> Cache.expired now x = false ->
            Cache.get T stringifies adapter config k now w2
            = (Ret (Some (Cache.data x)), w2)).
  { intros w2 Hc2 k x Hin Hx. apply get_live.
    - rewrite Hc2. apply in_get.
      + apply (nodup_filter l). exact Hnd.
      + apply filter_In. split; [exact Hin|]. cbn [snd]. now rewrite Hx.
    - unfold Cache.expired in Hx.
      destruct (Z.gtb_spec (now - Cache.timestamp x) (Cache.ttl x)); [discriminate | lia]. }
  destruct (Nat.eqb (length l) (length (Cache.cache w1))) eqn:Elen; cbn [negb when].
  - exists w1. split; [reflexivity|]. split; [exact Hc1|]. split; [exact Hrec1|].
    split; [now apply Hgets|]. intros _. split; [congruence | exact Hw1].
  - destruct (saveToStorage_accepted T stringifies adapter config now w1)
      as (w2 & E2 & Hc2 & Hk2 & Ht2).
    { unfold Cache.writeAccepted. rewrite Hn1. exact Hset. }
    rewrite E2. exists w2. split; [reflexivity|]. split; [congruence|].
    split; [unfold Cache.recomputed in *; rewrite Hc2, Hk2, Ht2; exact Hrec1|].
    split; [apply Hgets; congruence|].
    intros Hall. rewrite Hc1, Hall, Nat.eqb_refl in Elen. discriminate.
Qed.

(** X8.  A new instance over a slot that cannot be used (the read is
    refused, or the slot is absent, empty, not parsable, or holds [null])
    starts with an empty map and a reset pointer, without any write.  An
    absent or empty slot costs one adapter call and is left alone; a slot
    that is not parsable or holds [null] is removed when [removeItem] is
    accepted. *)
Theorem construct_unusable now (w : World) :
  onGet adapter (Cache.calls w) <> None
  \/ Cache.stored w = None
  \/ Cache.stored w = Some (Cache.EmptyText T)
  \/ Cache.stored w = Some (Cache.Unparsable T)
  \/ Cache.stored w = Some (Cache.ParsedNull T) ->
  exists w',
    construct now w = (Ret tt, w')
    /\ Cache.cache w' = []
    /\ Cache.oldestKey w' = None
    /\ Cache.oldestTimestamp w' = None
    /\ Cache.writes w' = Cache.writes w
    /\ (onGet adapter (Cache.calls w) = None ->
        Cache.stored w = None \/ Cache.stored w = Some (Cache.EmptyText T) ->
        Cache.stored w' = Cache.stored w /\ Cache.calls w' = S (Cache.calls w))
    /\ (onGet adapter (Cache.calls w) = None ->
        Cache.stored w = Some (Cache.Unparsable T) \/ Cache.stored w = Some (Cache.ParsedNull T) ->
        onRemove adapter (S (Cache.calls w)) = None ->
        Cache.stored w' = None).
Proof.
  intros H. destruct w as [c ok ot st n wr].
  cbn [Cache.calls Cache.stored Cache.writes] in *.
  cbv [Cache.construct bind modifyW Cache.loadFromStorage tryCatch Cache.getItem
       Cache.removeItem ret throw Cache.calls Cache.stored Cache.setOldest Cache.setCache
       Cache.called Cache.cache Cache.oldestKey Cache.oldestTimestamp Cache.writes
       Cache.setStored].
  destruct (onGet adapter n) as [e|] eqn:Eg.
  - destruct (onRemove adapter (S n));
      eexists; (split; [reflexivity|]); cbn; repeat split; intros; discriminate.
  - destruct H as [H | [H | [H | [H | H]]]]; [congruence| | | |]; rewrite H;
      try (destruct (onRemove adapter (S n)) eqn:Er);
      eexists; (split; [reflexivity|]); cbn; repeat split; auto;
      try (intros _ [? | ?]; discriminate);
      try (intros; discriminate);
      match goal with
      | H1 : _ \/ _ |- _ => destruct H1; discriminate
      end.
Qed.

End CacheLoad.

(** X7 at instant [100] over the slot that the cache holding ["a"] and ["b"]
    left: ["a"] is expired by then. *)
Lemma construct_restores_witness :
  exists w',
    Cache.construct string Scenarios.anyString Scenarios.healthy (Scenarios.capacity 2)
      100 Scenarios.reopened = (Ret tt, w')
    /\ Cache.cache w'
       = filter (fun p => negb (Cache.expired 100 (snd p))) (Cache.cache Scenarios.aThenB)
    /\ Cache.recomputed string w'
    /\ (forall k x, In (k, x) (Cache.cache Scenarios.aThenB) ->
        Cache.expired 100 x = false ->
        Cache.get string Scenarios.anyString Scenarios.healthy (Scenarios.capacity 2)
          k 100 w' = (Ret (Some (Cache.data x)), w'))
    /\ (filter (fun p => negb (Cache.expired 100 (snd p))) (Cache.cache Scenarios.aThenB)
        = Cache.cache Scenarios.aThenB ->
        Cache.stored w' = Cache.stored Scenarios.reopened
        /\ Cache.writes w' = Cache.writes Scenarios.reopened).
Proof.
  apply (construct_restores string Scenarios.anyString Scenarios.healthy
           (Scenarios.capacity 2) 100 (Cache.cache Scenarios.aThenB) Scenarios.reopened).
  - reflexivity.
  - vm_compute. repeat constructor; simpl; intuition discriminate.
  - reflexivity.
  - intros e H. vm_compute in H. discriminate.
Defined.

(** X8 over a slot that does not parse. *)
Lemma construct_unusable_witness :
  exists w',
    Cache.construct string Scenarios.anyString Scenarios.healthy (Scenarios.capacity 2)
      0 Scenarios.corrupted = (Ret tt, w')
    /\ Cache.cache w' = []
    /\ Cache.oldestKey w' = None
    /\ Cache.oldestTimestamp w' = None
    /\ Cache.writes w' = Cache.writes Scenarios.corrupted
    /\ (onGet Scenarios.healthy (Cache.calls Scenarios.corrupted) = None ->
        Cache.stored Scenarios.corrupted = None
        \/ Cache.stored Scenarios.corrupted = Some (Cache.EmptyText string) ->
        Cache.stored w' = Cache.stored Scenarios.corrupted
        /\ Cache.calls w' = S (Cache.calls Scenarios.corrupted))
    /\ (onGet Scenarios.healthy (Cache.calls Scenarios.corrupted) = None ->
        Cache.stored Scenarios.corrupted = Some (Cache.Unparsable string)
        \/ Cache.stored Scenarios.corrupted = Some (Cache.ParsedNull string) ->
        onRemove Scenarios.healthy (S (Cache.calls Scenarios.corrupted)) = None ->
        Cache.stored w' = None).
Proof.
  apply (construct_unusable string Scenarios.anyString Scenarios.healthy
           (Scenarios.capacity 2) 0 Scenarios.corrupted).
  right. right. right. left. reflexivity.
Defined.

(** ** The cache: eviction *)

Section CacheEviction.

Variable T : Type.
Variable stringifies : T -> bool.
Variable adapter : Adapter.
Variable config : Cache.CacheConfig.

Local Abbreviation World := (Cache.World T).
Local Abbreviation set := (Cache.set T stringifies adapter config).
Local Abbreviation writeAccepted := (Cache.writeAccepted T adapter).
Local Abbreviation recomputed := (Cache.recomputed T).

(** Deleting the one entry of a key. *)
Lemma delete_middle (m1 m2 : JsMap.t (Cache.CacheEntry T)) k e :
  NoDup (JsMap.keys (m1 ++ (k, e) :: m2)) ->
  JsMap.delete k (m1 ++ (k, e) :: m2) = m1 ++ m2.
Proof.
  intros Hnd. unfold JsMap.keys in Hnd. rewrite map_app in Hnd. cbn [map fst] in Hnd.
  pose proof (NoDup_remove_2 _ _ _ Hnd) as Hk.
  assert (H1 : ~ In k (JsMap.keys m1)) by (intros H; apply Hk, in_or_app; now left).
  assert (H2 : ~ In k (JsMap.keys m2)) by (intros H; apply Hk, in_or_app; now right).
  unfold JsMap.delete. rewrite filter_app. cbn [filter fst]. rewrite String.eqb_refl.
  cbn [negb]. fold (JsMap.delete k m1). fold (JsMap.delete k m2).
  now rewrite !delete_absent.
Qed.

(** At capacity, with the pointer on the oldest entry, the insertion of a new
    key removes that entry and appends the new one. *)
Lemma inserted_evicts key entry (w : World) m1 k e m2 :
  NoDup (JsMap.keys (Cache.cache w)) ->
  Cache.cache w = m1 ++ (k, e) :: m2 ->
  Cache.oldestKey w = Some k ->
  k <> EmptyString ->
  Cache.size w >= Cache.maxSize config ->
  ~ In key (JsMap.keys (Cache.cache w)) ->
  Cache.cache (Cache.inserted T config key entry w) = (m1 ++ m2) ++ [(key, entry)]
  /\ recomputed (Cache.inserted T config key entry w).
Proof.
  intros Hnd Hm Hk Hk' Hsize Hnew.
  assert (Htruthy : Cache.truthy (Cache.oldestKey w) = Some k).
  { rewrite Hk. cbn [Cache.truthy]. destruct k; [contradiction | reflexivity]. }
  assert (Hdel : JsMap.delete k (Cache.cache w) = m1 ++ m2).
  { rewrite Hm. apply delete_middle. now rewrite <- Hm. }
  assert (Hfresh : ~ In key (JsMap.keys (m1 ++ m2))).
  { intros Hin. apply Hnew. rewrite <- Hdel in Hin.
    now apply (keys_filter_incl (Cache.cache w)) in Hin. }
  unfold Cache.inserted.
  destruct (Z.geb_spec (Cache.size w) (Cache.maxSize config)) as [_ | Hlt]; [|lia].
  rewrite Htruthy. cbv zeta.
  cbn [Cache.cache Cache.setCache Cache.setOldest Cache.oldestTimestamp].
  rewrite Hdel, (set_absent key entry (m1 ++ m2) Hfresh).
  unfold Cache.recomputed.
  destruct (Cache.ltBound (Cache.timestamp entry) (snd (Cache.scanOldest (m1 ++ m2))))
    eqn:El;
    cbn [Cache.cache Cache.setCache Cache.setOldest Cache.oldestKey Cache.oldestTimestamp];
    rewrite scanOldest_snoc; cbn [fst snd]; rewrite El; auto.
Qed.

(** X9.  Eviction takes the oldest entry.  On a map with pairwise distinct,
    non-empty keys that has reached its capacity, with the pointer as a scan
    computes it, [set] of a new key, when its write is not refused for
    quota, removes the first entry, in insertion order, among those with the
    least timestamp and no other, appends the new entry, keeps the size, and
    leaves the pointer as a scan computes it. *)
Theorem set_evicts_oldest key value ttl0 now (w : World) :
  NoDup (JsMap.keys (Cache.cache w)) ->
  recomputed w ->
  Cache.cache w <> [] ->
  Cache.size w >= Cache.maxSize config ->
  (forall k, In k (JsMap.keys (Cache.cache w)) -> k <> EmptyString) ->
  ~ In key (JsMap.keys (Cache.cache w)) ->
  writeAccepted w ->
  exists w' m1 k e m2,
    set key value ttl0 now w = (Ret tt, w')
    /\ Cache.cache w = m1 ++ (k, e) :: m2
    /\ (forall p, In p m1 -> Cache.timestamp e < Cache.timestamp (snd p))
    /\ (forall p, In p m2 -> Cache.timestamp e <= Cache.timestamp (snd p))
    /\ Cache.cache w'
       = m1 ++ m2 ++ [(key, {| Cache.data := value; Cache.timestamp := now;
                               Cache.ttl := match ttl0 with
                                            | Some t => t
                                            | None => Cache.defaultTTL config
                                            end |})]
    /\ Cache.size w' = Cache.size w
    /\ recomputed w'.
Proof.
  intros Hnd [Hk Ht] Hne Hsize Hkeys Hnew Hw. rewrite set_unfold.
  pose proof (scanOldest_first T (Cache.cache w)) as Hscan.
  destruct (Cache.scanOldest (Cache.cache w)) as [[k|] [t|]] eqn:Es;
    try contradiction.
  destruct Hscan as (m1 & e & m2 & Hm & Hts & H1 & H2). cbn [fst snd] in Hk, Ht.
  assert (Hk' : k <> EmptyString).
  { apply Hkeys. rewrite Hm. unfold JsMap.keys. rewrite map_app. apply in_or_app.
    right. now left. }
  match goal with
  | |- context [Cache.inserted T config key ?x w] =>
      destruct (inserted_evicts key x w m1 k e m2 Hnd Hm Hk Hk' Hsize Hnew) as [Hc1 Hr1];
      set (w1 := Cache.inserted T config key x w) in *
  end.
  destruct (saveToStorage_accepted T stringifies adapter config now w1)
    as (w' & E & Hc & Hok & Hot).
  { unfold Cache.writeAccepted, w1. rewrite inserted_calls. exact Hw. }
  exists w', m1, k, e, m2. split; [exact E|]. split; [exact Hm|].
  split; [intros p Hp; rewrite <- Hts; now apply H1|].
  split; [intros p Hp; rewrite <- Hts; now apply H2|].
  split; [now rewrite Hc, Hc1, <- app_assoc|]. split.
  - unfold Cache.size. rewrite Hc, Hc1, Hm, !length_app. cbn [length]. lia.
  - unfold Cache.recomputed in *. now rewrite Hc, Hok, Hot.
Qed.

End CacheEviction.

(** X9 at capacity [2]: the cache holds ["a"], inserted at [0], and ["b"],
    inserted at [1]; ["c"] is inserted at [2]. *)
Lemma set_evicts_oldest_witness :
  exists w' m1 k e m2,
    Cache.set string Scenarios.anyString Scenarios.healthy (Scenarios.capacity 2)
      "c" "3" None 2 Scenarios.aThenB = (Ret tt, w')
    /\ Cache.cache Scenarios.aThenB = m1 ++ (k, e) :: m2
    /\ (forall p, In p m1 -> Cache.timestamp e < Cache.timestamp (snd p))
    /\ (forall p, In p m2 -> Cache.timestamp e <= Cache.timestamp (snd p))
    /\ Cache.cache w'
       = m1 ++ m2 ++ [("c", {| Cache.data := "3"; Cache.timestamp := 2;
                               Cache.ttl := Cache.defaultTTL (Scenarios.capacity 2) |})]
    /\ Cache.size w' = Cache.size Scenarios.aThenB
    /\ Cache.recomputed string w'.
Proof.
  apply (set_evicts_oldest string Scenarios.anyString Scenarios.healthy
           (Scenarios.capacity 2) "c" "3" None 2 Scenarios.aThenB).
  - vm_compute. repeat constructor; simpl; intuition discriminate.
  - split; reflexivity.
  - vm_compute. discriminate.
  - vm_compute. discriminate.
  - intros k Hk. vm_compute in Hk. destruct Hk as [<- | [<- | []]]; discriminate.
  - vm_compute. intuition discriminate.
  - intros e H. vm_compute in H. discriminate.
Defined.

(** ** The cache: a write that is refused *)

Section CacheRefusal.

Variable T : Type.
Variable stringifies : T -> bool.
Variable adapter : Adapter.
Variable config : Cache.CacheConfig.

Local Abbreviation World := (Cache.World T).
Local Abbreviation saveToStorage := (Cache.saveToStorage T stringifies adapter config).
Local Abbreviation set := (Cache.set T stringifies adapter config).
Local Abbreviation inserted := (Cache.inserted T config).

(** The insertion does not touch the slot. *)
Lemma inserted_stored key entry (w : World) :
  Cache.stored (inserted key entry w) = Cache.stored w.
Proof.
  unfold Cache.inserted.
  destruct (Cache.size w >=? Cache.maxSize config);
    [destruct (Cache.truthy (Cache.oldestKey w))|];
    cbn [Cache.cache Cache.setCache Cache.setOldest Cache.oldestTimestamp];
    match goal with
    | |- context [Cache.ltBound ?a ?b] => destruct (Cache.ltBound a b)
    end; reflexivity.
Qed.

(** A write refused with anything but the quota exception ends
    [saveToStorage] at once. *)
Lemma saveToStorage_refused now (w : World) e :
  onSet adapter (Cache.calls w) = Some e ->
  Cache.isQuota e = false ->
  exists w',
    saveToStorage now w = (Ret tt, w')
    /\ Cache.cache w' = Cache.cache w
    /\ Cache.stored w' = Cache.stored w
    /\ (Cache.writes w' <= S (Cache.writes w))%nat.
Proof.
  intros Hset He. unfold Cache.saveToStorage, bind at 1, getW.
  destruct (length (Cache.cache w)); cbn [Cache.saveToStorageN];
    unfold tryCatch at 1, Cache.writeCache, bind at 1, getW, Cache.setItem, throw;
    destruct (Cache.serialize T stringifies (Cache.cache w));
    rewrite ?Hset, ?He; cbn [Cache.isQuota];
    eexists; (split; [reflexivity|]); cbn; auto.
Qed.

(** X10.  When [setItem] is refused with anything that the cache does not
    recognize as the quota exception (a [DOMException] of code [22]), [set]
    gives up after that one write: the key is bound to the new entry in
    memory and the slot is as it was.  This covers code [1014] with the name
    [NS_ERROR_DOM_QUOTA_REACHED], which the history store does treat as an
    exhausted quota. *)
Theorem refused_write_kept_in_memory key value ttl0 now (w : World) e :
  onSet adapter (Cache.calls w) = Some e ->
  Cache.isQuota e = false ->
  exists w',
    set key value ttl0 now w = (Ret tt, w')
    /\ JsMap.get key (Cache.cache w')
       = Some {| Cache.data := value; Cache.timestamp := now;
                 Cache.ttl := match ttl0 with
                              | Some t => t
                              | None => Cache.defaultTTL config
                              end |}
    /\ Cache.stored w' = Cache.stored w
    /\ (Cache.writes w' <= S (Cache.writes w))%nat.
Proof.
  intros Hset He. rewrite set_unfold.
  match goal with
  | |- context [saveToStorage now ?x] => set (w1 := x)
  end.
  assert (Hwrites : Cache.writes w1 = Cache.writes w).
  { unfold w1, Cache.inserted.
    destruct (Cache.size w >=? Cache.maxSize config);
      [destruct (Cache.truthy (Cache.oldestKey w))|];
      cbn [Cache.cache Cache.setCache Cache.setOldest Cache.oldestTimestamp];
      match goal with
      | |- context [Cache.ltBound ?a ?b] => destruct (Cache.ltBound a b)
      end; reflexivity. }
  destruct (saveToStorage_refused now w1 e) as (w' & E & Hc & Hs & Hw); [|exact He|].
  { unfold w1. rewrite inserted_calls. exact Hset. }
  exists w'. split; [exact E|]. split; [|split].
  - rewrite Hc. apply inserted_binds.
  - rewrite Hs. apply inserted_stored.
  - now rewrite <- Hwrites.
Qed.

End CacheRefusal.

(** X10 on a new cache whose adapter refuses every write with the exception
    of code [1014], which the history store takes for an exhausted quota and
    the cache does not. *)
Lemma refused_write_kept_in_memory_witness :
  History.isQuotaExceededError Scenarios.quotaReached = true
  /\ exists w',
       Cache.set string Scenarios.anyString Scenarios.quotaReachedOnSet
         (Scenarios.capacity 2) "k" "v" None 0 (Cache.fresh None) = (Ret tt, w')
       /\ JsMap.get "k" (Cache.cache w')
          = Some {| Cache.data := "v"; Cache.timestamp := 0;
                    Cache.ttl := Cache.defaultTTL (Scenarios.capacity 2) |}
       /\ Cache.stored w' = Cache.stored (Cache.fresh (T := string) None)
       /\ (Cache.writes w' <= S (Cache.writes (Cache.fresh (T := string) None)))%nat.
Proof.
  split; [reflexivity|].
  apply (refused_write_kept_in_memory string Scenarios.anyString
           Scenarios.quotaReachedOnSet (Scenarios.capacity 2) "k" "v" None 0
           (Cache.fresh None) Scenarios.quotaReached).
  - reflexivity.
  - reflexivity.
Defined.

(** ** The key of a text *)

Section HashFacts.

(** [ToInt32] picks the representative of its argument modulo [2 ^ 32] in
    the signed range. *)
Lemma toInt32_range z : - 2 ^ 31 <= Hash.toInt32 z < 2 ^ 31.
Proof.
  unfold Hash.toInt32.
  pose proof (Z.mod_pos_bound (z + 2 ^ 31) (2 ^ 32) ltac:(lia)). lia.
Qed.

Lemma toInt32_shift z k : Hash.toInt32 (z + 2 ^ 32 * k) = Hash.toInt32 z.
Proof.
  unfold Hash.toInt32.
  replace (z + 2 ^ 32 * k + 2 ^ 31) with (z + 2 ^ 31 + k * 2 ^ 32) by ring.
  now rewrite Z_mod_plus_full.
Qed.

Lemma toInt32_quotient z : exists q, Hash.toInt32 z = z + 2 ^ 32 * q.
Proof.
  unfold Hash.toInt32. exists (- ((z + 2 ^ 31) / 2 ^ 32)).
  rewrite Z.mod_eq by lia. ring.
Qed.

Lemma toInt32_fixed z : - 2 ^ 31 <= z < 2 ^ 31 -> Hash.toInt32 z = z.
Proof.
  intros H. unfold Hash.toInt32. rewrite Z.mod_small by lia. ring.
Qed.

Lemma toInt32_congruent a b : Hash.toInt32 a = Hash.toInt32 b -> exists k, a = b + 2 ^ 32 * k.
Proof.
  intros H. destruct (toInt32_quotient a) as [qa Ha]. destruct (toInt32_quotient b) as [qb Hb].
  exists (qb - qa). lia.
Qed.

(** One turn of the loop multiplies by [31] and adds the code unit, modulo
    [2 ^ 32]. *)
Lemma step_wraps h c : Hash.step h c = Hash.toInt32 (31 * h + c).
Proof.
  unfold Hash.step. cbv zeta. rewrite Z.land_diag.
  rewrite toInt32_fixed by apply toInt32_range.
  rewrite Z.shiftl_mul_pow2 by lia.
  destruct (toInt32_quotient h) as [q1 H1]. rewrite H1.
  destruct (toInt32_quotient ((h + 2 ^ 32 * q1) * 2 ^ 5)) as [q2 H2]. rewrite H2.
  replace ((h + 2 ^ 32 * q1) * 2 ^ 5 + 2 ^ 32 * q2 - h + c)
    with (31 * h + c + 2 ^ 32 * (32 * q1 + q2)) by ring.
  apply toInt32_shift.
Qed.

Lemma hashCode_snoc str c : Hash.hashCode (str ++ [c]) = Hash.step (Hash.hashCode str) c.
Proof. unfold Hash.hashCode. now rewrite fold_left_app. Qed.

Lemma polynomial_snoc str c : Hash.polynomial (str ++ [c]) = 31 * Hash.polynomial str + c.
Proof. unfold Hash.polynomial. now rewrite fold_left_app. Qed.

Lemma hashCode_polynomial str : Hash.hashCode str = Hash.toInt32 (Hash.polynomial str).
Proof.
  induction str as [|c str IH] using rev_ind; [reflexivity|].
  rewrite hashCode_snoc, polynomial_snoc, step_wraps, IH.
  destruct (toInt32_quotient (Hash.polynomial str)) as [q Hq]. rewrite Hq.
  replace (31 * (Hash.polynomial str + 2 ^ 32 * q) + c)
    with (31 * Hash.polynomial str + c + 2 ^ 32 * (31 * q)) by ring.
  apply toInt32_shift.
Qed.

Lemma polynomial_app a b :
  Hash.polynomial (a ++ b) = Hash.polynomial a * 31 ^ Z.of_nat (length b) + Hash.polynomial b.
Proof.
  induction b as [|c b IH] using rev_ind.
  - rewrite app_nil_r. cbn. ring.
  - rewrite app_assoc, !polynomial_snoc, IH, length_app. cbn [length].
    replace (Z.of_nat (length b + 1)) with (Z.succ (Z.of_nat (length b))) by lia.
    rewrite Z.pow_succ_r by lia. ring.
Qed.

Lemma hashCode_app a b :
  Hash.hashCode (a ++ b) = fold_left Hash.step b (Hash.hashCode a).
Proof. unfold Hash.hashCode. apply fold_left_app. Qed.

(** X11.  The number that the loop of [hashString] computes is the
    polynomial of the code units in [31], wrapped to a signed 32-bit
    integer: it lies in [[-2^31, 2^31)], differs from the polynomial by a
    multiple of [2^32], and is the polynomial itself when that fits in 32
    bits. *)
Theorem hashCode_closed_form (str : list Z) :
  Hash.hashCode str = Hash.toInt32 (Hash.polynomial str)
  /\ - 2 ^ 31 <= Hash.hashCode str < 2 ^ 31
  /\ (exists k, Hash.hashCode str = Hash.polynomial str + 2 ^ 32 * k)
  /\ (- 2 ^ 31 <= Hash.polynomial str < 2 ^ 31 -> Hash.hashCode str = Hash.polynomial str).
Proof.
  rewrite hashCode_polynomial. split; [reflexivity|]. split; [apply toInt32_range|].
  split; [apply toInt32_quotient|]. apply toInt32_fixed.
Qed.

(** X12.  [hashString] is not injective, and collisions are stable under
    context: two blocks of code units of the same length with the same hash
    code can be exchanged inside any text without changing the key. *)
Theorem hashString_collides (before a b after : list Z) :
  length a = length b ->
  Hash.hashCode a = Hash.hashCode b ->
  Hash.hashString (before ++ a ++ after) = Hash.hashString (before ++ b ++ after).
Proof.
  intros Hlen Hab. unfold Hash.hashString. do 2 f_equal.
  rewrite !app_assoc, (hashCode_app (before ++ a)), (hashCode_app (before ++ b)). f_equal.
  rewrite !hashCode_polynomial, !polynomial_app, Hlen.
  rewrite !hashCode_polynomial in Hab. apply toInt32_congruent in Hab.
  destruct Hab as [k ->].
  replace (Hash.polynomial before * 31 ^ Z.of_nat (length b) + (Hash.polynomial b + 2 ^ 32 * k))
    with (Hash.polynomial before * 31 ^ Z.of_nat (length b) + Hash.polynomial b + 2 ^ 32 * k)
    by ring.
  apply toInt32_shift.
Qed.

(** The digits in base [36]. *)
Lemma below36 d : 0 <= d < 36 -> In d (map Z.of_nat (seq 0 36)).
Proof.
  intros H. apply in_map_iff. exists (Z.to_nat d). split; [lia|]. apply in_seq. lia.
Qed.

Lemma digit_base36 d : 0 <= d < 36 -> Hash.isBase36 (Hash.digit d) = true.
Proof.
  intros H. apply below36 in H. revert d H. apply forallb_forall. vm_compute. reflexivity.
Qed.

Lemma digit_value d : 0 <= d < 36 -> Hash.digitValue (Hash.digit d) = d.
Proof.
  intros H. apply below36 in H. revert d H.
  assert (E : forallb (fun d => Hash.digitValue (Hash.digit d) =? d)
                (map Z.of_nat (seq 0 36)) = true) by (vm_compute; reflexivity).
  intros d Hd. apply Z.eqb_eq. revert d Hd. now apply forallb_forall.
Qed.

Lemma toBase36_all fuel :
  forall n acc,
    0 <= n -> Hash.allBase36 acc = true -> Hash.allBase36 (Hash.toBase36 fuel n acc) = true.
Proof.
  induction fuel as [|fuel IH]; intros n acc Hn Hacc; [exact Hacc|].
  cbn [Hash.toBase36]. cbv zeta.
  assert (Hd : Hash.allBase36 (String (Hash.digit (n mod 36)) acc) = true).
  { cbn [Hash.allBase36]. rewrite Hacc, digit_base36; [reflexivity|].
    apply Z.mod_pos_bound. lia. }
  destruct (n <? 36); [exact Hd|]. apply IH; [|exact Hd].
  apply Z.div_pos; lia.
Qed.

Lemma toBase36_longer fuel :
  forall n acc, (String.length acc <= String.length (Hash.toBase36 fuel n acc))%nat.
Proof.
  induction fuel as [|fuel IH]; intros n acc; [cbn; lia|].
  cbn [Hash.toBase36]. cbv zeta. destruct (n <? 36); [cbn; lia|].
  specialize (IH (n / 36) (String (Hash.digit (n mod 36)) acc)). cbn in IH. lia.
Qed.

Lemma toBase36_shorter fuel :
  forall (k : nat) n acc,
    0 <= n < 36 ^ Z.of_nat (S k) ->
    (String.length (Hash.toBase36 fuel n acc) <= S k + String.length acc)%nat.
Proof.
  induction fuel as [|fuel IH]; intros k n acc Hn; [cbn; lia|].
  cbn [Hash.toBase36]. cbv zeta. destruct (Z.ltb_spec n 36) as [Hlt | Hge]; [cbn; lia|].
  destruct k as [|k]; [cbn in Hn; lia|].
  specialize (IH k (n / 36) (String (Hash.digit (n mod 36)) acc)).
  cbn [String.length] in IH.
  assert (0 <= n / 36 < 36 ^ Z.of_nat (S k)).
  { split; [apply Z.div_pos; lia|]. apply Z.div_lt_upper_bound; [lia|].
    replace (Z.of_nat (S (S k))) with (Z.succ (Z.of_nat (S k))) in Hn by lia.
    rewrite Z.pow_succ_r in Hn by lia. lia. }
  specialize (IH H). lia.
Qed.

Lemma append_assoc (a b c : string) : ((a ++ b) ++ c = a ++ (b ++ c))%string.
Proof. induction a as [|x a IH]; cbn; [reflexivity | now rewrite IH]. Qed.

Lemma parseBase36_app p :
  forall s acc, Hash.parseBase36 (p ++ s) acc = Hash.parseBase36 s (Hash.parseBase36 p acc).
Proof. induction p as [|c p IH]; intros s acc; cbn; [reflexivity | apply IH]. Qed.

(** With enough fuel [toBase36] writes the digits of [n] in front of the
    accumulator. *)
Lemma toBase36_digits fuel :
  forall n acc,
    0 <= n < 2 ^ Z.of_nat fuel ->
    exists p, Hash.toBase36 fuel n acc = (p ++ acc)%string /\ Hash.parse36 p = n.
Proof.
  induction fuel as [|fuel IH]; intros n acc Hn.
  - cbn in Hn. assert (n = 0) by lia. subst n. exists EmptyString. split; reflexivity.
  - cbn [Hash.toBase36]. cbv zeta. destruct (Z.ltb_spec n 36) as [Hlt | Hge].
    + exists (String (Hash.digit (n mod 36)) EmptyString). split; [reflexivity|].
      unfold Hash.parse36. cbn [Hash.parseBase36].
      rewrite digit_value by (apply Z.mod_pos_bound; lia).
      rewrite Z.mod_small by lia. lia.
    + destruct (IH (n / 36) (String (Hash.digit (n mod 36)) acc)) as (p & Hp & Hv).
      { split; [apply Z.div_pos; lia|]. apply Z.div_lt_upper_bound; [lia|].
        replace (Z.of_nat (S fuel)) with (Z.succ (Z.of_nat fuel)) in Hn by lia.
        rewrite Z.pow_succ_r in Hn by lia. lia. }
      exists (p ++ String (Hash.digit (n mod 36)) EmptyString)%string. split.
      * rewrite Hp, append_assoc. reflexivity.
      * unfold Hash.parse36 in *. rewrite parseBase36_app, Hv. cbn [Hash.parseBase36].
        rewrite digit_value by (apply Z.mod_pos_bound; lia).
        pose proof (Z.div_mod n 36 ltac:(lia)). lia.
Qed.

(** The rendering in base [36] denotes the number it was made from. *)
Lemma toString36_parse n : 0 <= n -> Hash.parse36 (Hash.toString36 n) = n.
Proof.
  intros Hn. unfold Hash.toString36.
  destruct (toBase36_digits (S (Z.to_nat (Z.log2 n))) n EmptyString) as (p & Hp & Hv).
  { split; [exact Hn|]. destruct (Z.eq_dec n 0) as [-> | Hne]; [cbn; lia|].
    pose proof (Z.log2_spec n ltac:(lia)) as [_ H].
    pose proof (Z.log2_nonneg n).
    replace (Z.of_nat (S (Z.to_nat (Z.log2 n)))) with (Z.succ (Z.log2 n)) by lia.
    exact H. }
  rewrite Hp. clear Hp. revert Hv. generalize p. clear.
  intros p <-. f_equal. induction p as [|c p IH]; [reflexivity | cbn; now rewrite IH].
Qed.

(** X13.  A key made by [hashString] is never empty: it has between one
    and six characters, all of them digits or lower-case letters.  Hence it
    is a key that the eviction of the cache, which tests the tracked key for
    truthiness, can evict. *)
Theorem hashString_format (str : list Z) :
  Hash.hashString str <> EmptyString
  /\ Hash.allBase36 (Hash.hashString str) = true
  /\ (1 <= String.length (Hash.hashString str) <= 6)%nat
  /\ Cache.truthy (Some (Hash.hashString str)) = Some (Hash.hashString str).
Proof.
  assert (Hlen : (1 <= String.length (Hash.hashString str) <= 6)%nat).
  { unfold Hash.hashString, Hash.toString36. split.
    - cbn [Hash.toBase36]. cbv zeta.
      match goal with |- context [if ?c then _ else _] => destruct c end; [cbn; lia|].
      match goal with
      | |- context [Hash.toBase36 ?f ?n ?a] => pose proof (toBase36_longer f n a) as H
      end.
      cbn [String.length] in H. lia.
    - match goal with
      | |- context [Hash.toBase36 ?f ?n ?a] => pose proof (toBase36_shorter f 5 n a) as H
      end.
      cbn [String.length] in H. rewrite Nat.add_0_r in H. apply H.
      pose proof (toInt32_range (Hash.polynomial str)) as Hr.
      rewrite <- hashCode_polynomial in Hr.
      change (36 ^ Z.of_nat 6) with 2176782336. change (2 ^ 31) with 2147483648 in Hr. lia. }
  assert (Hne : Hash.hashString str <> EmptyString).
  { intros E. rewrite E in Hlen. cbn in Hlen. lia. }
  split; [exact Hne|]. split; [|split; [exact Hlen|]].
  - unfold Hash.hashString, Hash.toString36. apply toBase36_all; [lia | reflexivity].
  - cbn [Cache.truthy]. destruct (Hash.hashString str); [contradiction | reflexivity].
Qed.

(** X14.  Two texts get the same key exactly when their hash codes agree up
    to the sign: the rendering in base [36] loses nothing, [Math.abs] merges
    a code with its opposite. *)
Theorem hashString_same_key (a b : list Z) :
  Hash.hashString a = Hash.hashString b <-> Z.abs (Hash.hashCode a) = Z.abs (Hash.hashCode b).
Proof.
  unfold Hash.hashString. split; intros H; [|now rewrite H].
  apply (f_equal Hash.parse36) in H.
  rewrite !toString36_parse in H by lia. exact H.
Qed.

End HashFacts.

(** X12 at the blocks ["Aa"] and ["BB"], which differ and have the hash code
    [2112]. *)
Lemma hashString_collides_witness :
  Scenarios.textAa <> Scenarios.textBB
  /\ forall before after,
       Hash.hashString (before ++ Scenarios.textAa ++ after)
       = Hash.hashString (before ++ Scenarios.textBB ++ after).
Proof.
  split; [discriminate|]. intros before after.
  apply (hashString_collides before Scenarios.textAa Scenarios.textBB after).
  - reflexivity.
  - reflexivity.
Defined.

(** ** The history: lists that the deduplication leaves alone *)

Section HistoryFixedPoint.

Local Abbreviation newestFirst := History.newestFirst.
Local Abbreviation keyOf := History.keyOf.

(** A list that is newest first is left alone by the sort. *)
Lemma sortDesc_fixed l : StronglySorted newestFirst l -> History.sortDesc l = l.
Proof.
  induction 1 as [|x l Hs IH Hall]; [reflexivity|].
  cbn [History.sortDesc fold_right]. fold (History.sortDesc l). rewrite IH.
  destruct l as [|y r]; [reflexivity|]. cbn [History.insertDesc].
  apply Forall_inv in Hall. unfold History.newestFirst in Hall.
  destruct (Z.leb_spec (History.timestamp y) (History.timestamp x)); [reflexivity | lia].
Qed.

Lemma fold_keepMostRecent_fresh l :
  forall seen,
    NoDup (JsMap.keys seen ++ map keyOf l) ->
    fold_left History.keepMostRecent l seen = seen ++ map (fun x => (keyOf x, x)) l.
Proof.
  induction l as [|x l IH]; intros seen Hnd; cbn [fold_left map].
  { now rewrite app_nil_r. }
  assert (Hfresh : ~ In (keyOf x) (JsMap.keys seen)).
  { intros Hin. cbn [map] in Hnd. apply NoDup_remove_2 in Hnd. apply Hnd.
    apply in_or_app. now left. }
  assert (E : History.keepMostRecent seen x = seen ++ [(keyOf x, x)]).
  { unfold History.keepMostRecent. cbv zeta. fold (keyOf x).
    rewrite (proj2 (get_none _ _) Hfresh). now apply set_absent. }
  rewrite E, IH.
  - now rewrite <- app_assoc.
  - unfold JsMap.keys. rewrite map_app, <- app_assoc. exact Hnd.
Qed.

(** A list that is newest first with pairwise distinct normalized inputs is
    left alone by the deduplication. *)
Lemma deduplicate_fixed l :
  NoDup (map keyOf l) -> StronglySorted newestFirst l -> History.deduplicateHistory l = l.
Proof.
  intros Hnd Hs. unfold History.deduplicateHistory.
  rewrite fold_keepMostRecent_fresh by exact Hnd. cbn [app].
  unfold JsMap.values. rewrite map_map. cbn [snd]. rewrite map_id.
  now apply sortDesc_fixed.
Qed.

(** Filtering and truncating keep a list newest first and keep keys
    distinct. *)
Lemma filter_sorted (f : History.SavedComparison -> bool) l :
  StronglySorted newestFirst l -> StronglySorted newestFirst (filter f l).
Proof.
  induction 1 as [|x l Hs IH Hall]; [constructor|].
  cbn [filter]. destruct (f x); [|exact IH]. constructor; [exact IH|].
  apply Forall_forall. intros y Hy. apply filter_In in Hy.
  rewrite Forall_forall in Hall. now apply Hall.
Qed.

Lemma firstn_sorted n l :
  StronglySorted newestFirst l -> StronglySorted newestFirst (firstn n l).
Proof.
  intros Hs. revert n. induction Hs as [|x l Hs IH Hall]; intros [|n]; cbn [firstn];
    try constructor.
  - apply IH.
  - apply Forall_forall. intros y Hy. apply firstn_incl in Hy.
    rewrite Forall_forall in Hall. now apply Hall.
Qed.

Lemma filter_distinct {A B} (g : A -> B) (f : A -> bool) l :
  NoDup (map g l) -> NoDup (map g (filter f l)).
Proof.
  induction l as [|x l IH]; intros Hnd; [constructor|].
  cbn [map] in Hnd. inversion Hnd as [|? ? Hx Hl]; subst.
  cbn [filter]. destruct (f x); [|now apply IH].
  cbn [map]. constructor; [|now apply IH].
  intros Hin. apply Hx. apply in_map_iff in Hin. destruct Hin as (y & Hy & Hin).
  apply filter_In in Hin. apply in_map_iff. exists y. tauto.
Qed.

Lemma distinct_injective {A B} (g : A -> B) l x y :
  NoDup (map g l) -> In x l -> In y l -> g x = g y -> x = y.
Proof.
  induction l as [|z l IH]; intros Hnd Hx Hy E; [contradiction|].
  cbn [map] in Hnd. inversion Hnd as [|? ? Hz Hl]; subst.
  destruct Hx as [-> | Hx], Hy as [-> | Hy]; auto.
  - exfalso. apply Hz. rewrite E. now apply in_map.
  - exfalso. apply Hz. rewrite <- E. now apply in_map.
Qed.

Lemma firstn_distinct {A B} (g : A -> B) n l :
  NoDup (map g l) -> NoDup (map g (firstn n l)).
Proof.
  revert n. induction l as [|x l IH]; intros [|n] Hnd; cbn [firstn map]; try constructor.
  - cbn [map] in Hnd. inversion Hnd as [|? ? Hx Hl]; subst.
    intros Hin. apply Hx. apply in_map_iff in Hin. destruct Hin as (y & Hy & Hin).
    apply firstn_incl in Hin. apply in_map_iff. exists y. tauto.
  - apply IH. cbn [map] in Hnd. now inversion Hnd.
Qed.

(** X15.  [deduplicateHistory] is idempotent, and it leaves alone every list
    that is newest first with pairwise distinct normalized inputs. *)
Theorem deduplicateHistory_idempotent l :
  History.deduplicateHistory (History.deduplicateHistory l) = History.deduplicateHistory l
  /\ (NoDup (map keyOf l) -> StronglySorted newestFirst l ->
      History.deduplicateHistory l = l).
Proof.
  split; [|apply deduplicate_fixed].
  destruct (deduplicateHistory_spec l) as (Hnd & _ & _ & _ & Hs).
  now apply deduplicate_fixed.
Qed.

End HistoryFixedPoint.

(** Rewriting with an adapter that accepts every call. *)
Ltac accept H :=
  repeat match goal with
         | |- context [onGet _ ?n] => rewrite (proj1 (H n))
         | |- context [onSet _ ?n] => rewrite (proj1 (proj2 (H n)))
         | |- context [onRemove _ ?n] => rewrite (proj1 (proj2 (proj2 (H n))))
         | |- context [onKeys _ ?n] => rewrite (proj2 (proj2 (proj2 (H n))))
         end.

(** ** The history: lists and maps of items *)

Section HistoryLists.

(** An array that the validation does not shorten holds valid items only. *)
Lemma validated_shorter its :
  (length (History.validateHistoryArray (History.ParsedArray its)) <= length its)%nat.
Proof.
  induction its as [|[c | b] its IH]; cbn in *; lia.
Qed.

Lemma validated_all its :
  length (History.validateHistoryArray (History.ParsedArray its)) = length its ->
  History.ParsedArray its
  = History.serialize (History.validateHistoryArray (History.ParsedArray its)).
Proof.
  unfold History.serialize. intros H. f_equal.
  induction its as [|[c | b] its IH]; [reflexivity| |].
  - cbn in *. f_equal. apply IH. lia.
  - pose proof (validated_shorter its) as Hle. cbn in *. lia.
Qed.

(** A filter that keeps the length keeps the list; it shortens the list
    exactly when some element fails it. *)
Lemma filter_keeps_all {A} (f : A -> bool) l :
  length (filter f l) = length l -> filter f l = l.
Proof.
  induction l as [|x l IH]; [reflexivity|]. cbn [filter].
  pose proof (filter_length_le f l) as Hle.
  destruct (f x); cbn [length]; intros H; [f_equal; apply IH; lia | lia].
Qed.

Lemma filter_drops_some {A} (g : A -> bool) l :
  Nat.eqb (length (filter (fun x => negb (g x)) l)) (length l) = negb (existsb g l).
Proof.
  induction l as [|x l IH]; [reflexivity|]. cbn [filter existsb length].
  pose proof (filter_length_le (fun x => negb (g x)) l).
  destruct (g x); cbn [negb orb length].
  - apply Nat.eqb_neq. lia.
  - exact IH.
Qed.

(** With distinct identifiers [byId] is the list itself, keyed. *)
Lemma byId_fresh l :
  forall seen,
    NoDup (JsMap.keys seen ++ map History.id l) ->
    fold_left (fun m item => JsMap.set (History.id item) item m) l seen
    = seen ++ map (fun x => (History.id x, x)) l.
Proof.
  induction l as [|x l IH]; intros seen Hnd; cbn [fold_left map].
  { now rewrite app_nil_r. }
  assert (Hfresh : ~ In (History.id x) (JsMap.keys seen)).
  { intros Hin. cbn [map] in Hnd. apply NoDup_remove_2 in Hnd. apply Hnd.
    apply in_or_app. now left. }
  rewrite (set_absent _ _ _ Hfresh), IH.
  - now rewrite <- app_assoc.
  - unfold JsMap.keys. rewrite map_app, <- app_assoc. exact Hnd.
Qed.

(** The last item with a given identifier is the one that [byId] binds. *)
Lemma byId_get k l :
  forall seen,
    JsMap.get k (fold_left (fun m item => JsMap.set (History.id item) item m) l seen)
    = match find (fun x => String.eqb k (History.id x)) (rev l) with
      | Some x => Some x
      | None => JsMap.get k seen
      end.
Proof.
  induction l as [|x l IH]; intros seen; [reflexivity|].
  cbn [fold_left rev]. rewrite IH.
  assert (Hfind : forall a b,
             find (fun x => String.eqb k (History.id x)) (a ++ b)
             = match find (fun x => String.eqb k (History.id x)) a with
               | Some y => Some y
               | None => find (fun x => String.eqb k (History.id x)) b
               end).
  { intros a b. induction a as [|y a IHa]; [reflexivity|]. cbn [app find].
    destruct (String.eqb k (History.id y)); [reflexivity | exact IHa]. }
  rewrite Hfind. destruct (find _ (rev l)); [reflexivity|]. cbn [find].
  destruct (String.eqb_spec k (History.id x)) as [-> | Hne].
  - apply get_set_same.
  - now apply get_set_other.
Qed.

(** Rebinding the one item of an identifier. *)
Lemma set_values_unique k v (l : list History.SavedComparison) :
  NoDup (map History.id l) ->
  In k (map History.id l) ->
  JsMap.values (JsMap.set k v (map (fun x => (History.id x, x)) l))
  = map (fun x => if String.eqb (History.id x) k then v else x) l.
Proof.
  induction l as [|x l IH]; intros Hnd Hin; [contradiction|].
  cbn [map] in *. inversion Hnd as [|? ? Hx Hl]; subst. cbn [JsMap.set].
  rewrite (String.eqb_sym (History.id x) k).
  destruct (String.eqb_spec k (History.id x)) as [-> | Hne].
  - unfold JsMap.values. cbn [map snd]. f_equal. rewrite map_map. cbn [snd].
    apply map_ext_in. intros y Hy.
    destruct (String.eqb_spec (History.id y) (History.id x)) as [E | _]; [|reflexivity].
    exfalso. apply Hx. rewrite <- E. now apply in_map.
  - unfold JsMap.values in *. cbn [map snd]. f_equal. apply IH; [exact Hl|].
    destruct Hin as [E | Hin]; [congruence | exact Hin].
Qed.

(** A change that keeps the timestamps keeps a list newest first. *)
Lemma map_sorted (f : History.SavedComparison -> History.SavedComparison) l :
  (forall x, History.timestamp (f x) = History.timestamp x) ->
  StronglySorted History.newestFirst l -> StronglySorted History.newestFirst (map f l).
Proof.
  intros Hf. induction 1 as [|x l Hs IH Hall]; cbn [map]; constructor; [exact IH|].
  apply Forall_forall. intros y Hy. apply in_map_iff in Hy. destruct Hy as (z & <- & Hz).
  rewrite Forall_forall in Hall. specialize (Hall z Hz).
  unfold History.newestFirst in *. now rewrite !Hf.
Qed.

End HistoryLists.

(** ** The history: [cleanupOldItems] *)

Section HistoryCleanup.

Local Abbreviation fitsItem :=
  (fun x => negb (History.estimateItemSize x >? History.MAX_ITEM_SIZE)).

(** The loop appends a prefix of the items of its input that are within the
    size of an item. *)
Lemma cleanupLoop_firstn sorted :
  forall cleaned total,
    exists n,
      History.cleanupLoop sorted cleaned total = cleaned ++ firstn n (filter fitsItem sorted).
Proof.
  induction sorted as [|item more IH]; intros cleaned total; cbn [History.cleanupLoop filter].
  - exists 0%nat. now rewrite app_nil_r.
  - cbv zeta. destruct (History.estimateItemSize item >? History.MAX_ITEM_SIZE); cbn [negb].
    { apply IH. }
    destruct (_ && _).
    { exists 0%nat. now rewrite app_nil_r. }
    destruct (_ >=? _).
    { exists 0%nat. now rewrite app_nil_r. }
    destruct (IH (cleaned ++ [item]) (total + History.estimateItemSize item)) as (n & E).
    exists (S n). rewrite E, <- app_assoc. reflexivity.
Qed.

(** In a list that is newest first, nothing is more recent than what comes
    before it. *)
Lemma sorted_app (a b : list History.SavedComparison) :
  StronglySorted History.newestFirst (a ++ b) ->
  forall x y, In x a -> In y b -> History.timestamp y <= History.timestamp x.
Proof.
  induction a as [|z a IH]; intros Hs x y Hx Hy; [contradiction|].
  cbn [app] in Hs. inversion Hs as [|? ? Hs' Hall]; subst.
  destruct Hx as [-> | Hx]; [|now apply IH].
  rewrite Forall_forall in Hall. apply (Hall y). apply in_or_app. now right.
Qed.

(** X16.  [cleanupOldItems] keeps a prefix of the newest-first list of the
    items that are within [MAX_ITEM_SIZE]: the result is newest first,
    within [MAX_HISTORY_ITEMS] and [MAX_TOTAL_SIZE], made of items of the
    input that are within [MAX_ITEM_SIZE], and no item within
    [MAX_ITEM_SIZE] that was dropped is more recent than an item that was
    kept. *)
Theorem cleanupOldItems_keeps_newest (l : list History.SavedComparison) :
  (exists n, History.cleanupOldItems l = firstn n (filter fitsItem (History.sortDesc l)))
  /\ StronglySorted History.newestFirst (History.cleanupOldItems l)
  /\ Z.of_nat (length (History.cleanupOldItems l)) <= History.MAX_HISTORY_ITEMS
  /\ History.totalBytes (History.cleanupOldItems l) <= History.MAX_TOTAL_SIZE
  /\ (forall x, In x (History.cleanupOldItems l) ->
      In x l /\ History.estimateItemSize x <= History.MAX_ITEM_SIZE)
  /\ (forall x y,
        In x (History.cleanupOldItems l) ->
        In y l -> ~ In y (History.cleanupOldItems l) ->
        History.estimateItemSize y <= History.MAX_ITEM_SIZE ->
        History.timestamp y <= History.timestamp x).
Proof.
  destruct (cleanupLoop_firstn (History.sortDesc l) [] 0) as (n & Hn). cbn [app] in Hn.
  fold (History.cleanupOldItems l) in Hn.
  set (F := filter fitsItem (History.sortDesc l)) in *.
  assert (HF : StronglySorted History.newestFirst F)
    by (apply filter_sorted, sortDesc_sorted).
  split; [now exists n|]. split; [rewrite Hn; now apply firstn_sorted|].
  split; [apply cleanupOldItems_bounds|]. split; [apply cleanupOldItems_bounds|].
  split.
  - intros x Hx. rewrite Hn in Hx. apply firstn_incl in Hx. apply filter_In in Hx.
    destruct Hx as [Hx Hfit]. split; [now apply sortDesc_in|].
    destruct (Z.gtb_spec (History.estimateItemSize x) History.MAX_ITEM_SIZE);
      [discriminate | lia].
  - intros x y Hx Hy Hny Hsize. rewrite Hn in Hx, Hny.
    assert (HyF : In y F).
    { apply filter_In. split; [now apply sortDesc_in|].
      destruct (Z.gtb_spec (History.estimateItemSize y) History.MAX_ITEM_SIZE);
        [lia | reflexivity]. }
    rewrite <- (firstn_skipn n F) in HyF, HF. apply in_app_or in HyF.
    destruct HyF as [HyF | HyF]; [contradiction|].
    now apply (sorted_app _ _ HF).
Qed.

(** Within the budgets the loop takes every item. *)
Lemma cleanupLoop_all sorted :
  forall cleaned total,
    total = History.totalBytes cleaned ->
    (forall x, In x sorted -> History.estimateItemSize x <= History.MAX_ITEM_SIZE) ->
    Z.of_nat (length cleaned + length sorted) <= History.MAX_HISTORY_ITEMS ->
    History.totalBytes cleaned + History.totalBytes sorted <= History.MAX_TOTAL_SIZE ->
    History.cleanupLoop sorted cleaned total = cleaned ++ sorted.
Proof.
  induction sorted as [|item more IH]; intros cleaned total Htotal Hfit Hcount Hbytes;
    cbn [History.cleanupLoop].
  - now rewrite app_nil_r.
  - cbv zeta. rewrite totalBytes_cons in Hbytes. cbn [length] in Hcount.
    pose proof (totalBytes_nonneg more) as Hmore.
    unfold History.estimateItemSize in *.
    destruct (Z.gtb_spec (History.jsonBytes item) History.MAX_ITEM_SIZE) as [Hbig | _].
    { specialize (Hfit item (or_introl eq_refl)). lia. }
    destruct (Z.gtb_spec (total + History.jsonBytes item) History.MAX_TOTAL_SIZE)
      as [Hfull | _]; [lia|]. cbn [andb].
    destruct (Z.geb_spec (Z.of_nat (length cleaned)) History.MAX_HISTORY_ITEMS)
      as [Hmany | _]; [lia|].
    rewrite IH.
    + now rewrite <- app_assoc.
    + rewrite totalBytes_app, totalBytes_cons. change (History.totalBytes []) with 0. lia.
    + intros x Hx. apply Hfit. now right.
    + rewrite length_app. cbn [length]. lia.
    + rewrite totalBytes_app, totalBytes_cons. change (History.totalBytes []) with 0. lia.
Qed.

(** X17.  On a history that is within the three budgets (every item within
    [MAX_ITEM_SIZE], at most [MAX_HISTORY_ITEMS] items, at most
    [MAX_TOTAL_SIZE] bytes in all) [cleanupOldItems] only sorts: nothing is
    dropped. *)
Theorem cleanupOldItems_within_budgets (l : list History.SavedComparison) :
  (forall x, In x l -> History.estimateItemSize x <= History.MAX_ITEM_SIZE) ->
  Z.of_nat (length l) <= History.MAX_HISTORY_ITEMS ->
  History.totalBytes l <= History.MAX_TOTAL_SIZE ->
  History.cleanupOldItems l = History.sortDesc l
  /\ Permutation (History.cleanupOldItems l) l.
Proof.
  intros Hfit Hcount Hbytes.
  assert (E : History.cleanupOldItems l = History.sortDesc l).
  { unfold History.cleanupOldItems. rewrite cleanupLoop_all; try reflexivity.
    - intros x Hx. apply Hfit. now apply sortDesc_in.
    - cbn [length Nat.add]. now rewrite sortDesc_length.
    - rewrite (totalBytes_perm _ _ (sortDesc_perm l)).
      change (History.totalBytes []) with 0. lia. }
  split; [exact E|]. rewrite E. apply sortDesc_perm.
Qed.

End HistoryCleanup.

(** X17 at the two items of a store written by two accepted calls. *)
Lemma cleanupOldItems_within_budgets_witness :
  History.cleanupOldItems (History.items Scenarios.twoItems)
  = History.sortDesc (History.items Scenarios.twoItems)
  /\ Permutation (History.cleanupOldItems (History.items Scenarios.twoItems))
       (History.items Scenarios.twoItems).
Proof.
  apply (cleanupOldItems_within_budgets (History.items Scenarios.twoItems)).
  - intros x Hx. vm_compute in Hx. destruct Hx as [<- | [<- | []]]; vm_compute; discriminate.
  - vm_compute. discriminate.
  - vm_compute. discriminate.
Defined.

(** ** The history: calls that nothing refuses *)

Section HistoryAccepting.

Variable adapter : Adapter.
Hypothesis Haccepting : accepting adapter.

Local Abbreviation World := History.World.
Local Abbreviation getHistory := (History.getHistory adapter).
Local Abbreviation dedup := History.deduplicateHistory.

(** A slot in which a load finds nothing to repair. *)
Lemma getHistory_quiet (w : World) :
  History.stored w = None
  \/ History.stored w = Some History.EmptyText
  \/ (exists n, History.stored w = Some (History.ParsedOther true n))
  \/ (exists l, History.stored w = Some (History.serialize l)) ->
  getHistory w = (Ret (dedup (History.items w)), History.called false w).
Proof.
  unfold History.getHistory, History.items, tryCatch, bind, History.getItem.
  accept Haccepting.
  intros [-> | [-> | [[n ->] | [l ->]]]]; try reflexivity.
  rewrite !validate_serialize. unfold History.serialize. cbv beta iota.
  rewrite length_map, Nat.eqb_refl. reflexivity.
Qed.

(** After a load that nothing refused, the slot is one in which a load finds
    nothing to repair. *)
Lemma getHistory_settles (w : World) :
  exists w1,
    getHistory w = (Ret (dedup (History.items w)), w1)
    /\ History.items w1 = History.items w
    /\ History.others w1 = History.others w
    /\ (History.stored w1 = None
        \/ History.stored w1 = Some History.EmptyText
        \/ (exists n, History.stored w1 = Some (History.ParsedOther true n))
        \/ (exists l, History.stored w1 = Some (History.serialize l))).
Proof.
  unfold History.getHistory, History.items, tryCatch, bind, History.getItem.
  accept Haccepting.
  destruct (History.stored w) as [[| n | n | z n | its]|] eqn:Es;
    unfold throw, ret, when, History.removeItem, History.setItem;
    cbn [History.validateHistoryArray].
  - eexists. split; [reflexivity|]. cbn. rewrite Es. auto.
  - accept Haccepting. eexists. split; [reflexivity|]. cbn. auto.
  - accept Haccepting. eexists. split; [reflexivity|]. cbn. auto.
  - destruct z; cbn [negb]; accept Haccepting;
      (eexists; split; [reflexivity|]); cbn; rewrite ?Es; eauto 10.
  - destruct (Nat.eqb _ (length its)) eqn:El; cbn [negb]; accept Haccepting.
    + eexists; split; [reflexivity|]. cbn. rewrite Es.
      split; [reflexivity|]. split; [reflexivity|]. right. right. right.
      eexists. f_equal. apply validated_all. now apply Nat.eqb_eq.
    + eexists; split; [reflexivity|]. cbn.
      split; [exact (validate_serialize _)|]. eauto 10.
  - eexists. split; [reflexivity|]. cbn. rewrite Es. auto.
Qed.

(** X18.  On an adapter that accepts every call, a second [getHistory]
    returns the same list as the first and neither writes nor changes the
    store: whatever the first load had to repair is repaired. *)
Theorem load_is_stable (w : World) :
  exists l w1 w2,
    getHistory w = (Ret l, w1)
    /\ getHistory w1 = (Ret l, w2)
    /\ History.sameStore w1 w2
    /\ l = dedup (History.items w).
Proof.
  destruct (getHistory_settles w) as (w1 & E1 & Hi & _ & Hq).
  exists (dedup (History.items w)), w1, (History.called false w1).
  split; [exact E1|]. split; [rewrite <- Hi; now apply getHistory_quiet|].
  split; [apply sameStore_called | reflexivity].
Qed.

(** What [getHistory] returns is newest first with distinct normalized
    inputs. *)
Lemma deduplicated_shape (l : list History.SavedComparison) :
  NoDup (map History.keyOf (dedup l)) /\ StronglySorted History.newestFirst (dedup l).
Proof. destruct (deduplicateHistory_spec l) as (H1 & _ & _ & _ & H2). auto. Qed.

(** What a load returns from a slot that holds a list that is newest first
    with distinct normalized inputs. *)
Lemma getHistory_written l (w : World) :
  NoDup (map History.keyOf l) -> StronglySorted History.newestFirst l ->
  History.stored w = Some (History.serialize l) ->
  getHistory w = (Ret l, History.called false w).
Proof.
  intros Hnd Hs Hst. rewrite getHistory_quiet by eauto 10.
  unfold History.items. rewrite Hst, validate_serialize, deduplicate_fixed; auto.
Qed.

(** X19.  On an adapter that accepts every call, [deleteComparison] returns
    whether some loaded item has the identifier, and [getHistory] then
    returns the former list without the items of that identifier, in the
    same order. *)
Theorem delete_then_load id0 (w : World) :
  exists w1 w2,
    History.deleteComparison adapter id0 w
    = (Ret (existsb (fun x => String.eqb (History.id x) id0) (dedup (History.items w))), w1)
    /\ getHistory w1
       = (Ret (filter (fun x => negb (String.eqb (History.id x) id0))
                 (dedup (History.items w))), w2)
    /\ History.others w1 = History.others w.
Proof.
  destruct (getHistory_settles w) as (w0 & E0 & Hi0 & Ho0 & Hq0).
  destruct (deduplicated_shape (History.items w)) as [Hnd Hs].
  set (l := dedup (History.items w)) in *.
  unfold History.deleteComparison, tryCatch at 1, bind at 1. rewrite E0.
  rewrite (filter_drops_some (fun x => String.eqb (History.id x) id0) l).
  destruct (existsb (fun x => String.eqb (History.id x) id0) l) eqn:Ex; cbn [negb].
  - unfold tryCatch, bind, History.setItem, ret. accept Haccepting.
    match goal with
    | |- exists w1 w2, (_, ?x) = (_, w1) /\ _ => exists x, (History.called false x)
    end.
    split; [reflexivity|]. split; [|exact Ho0].
    apply getHistory_written; [now apply filter_distinct | now apply filter_sorted |].
    reflexivity.
  - exists w0, (History.called false w0). split; [reflexivity|]. split; [|exact Ho0].
    assert (Hall : filter (fun x => negb (String.eqb (History.id x) id0)) l = l).
    { apply filter_keeps_all. apply Nat.eqb_eq.
      rewrite (filter_drops_some (fun x => String.eqb (History.id x) id0) l), Ex.
      reflexivity. }
    rewrite Hall. unfold l. rewrite <- Hi0. now apply getHistory_quiet.
Qed.

(** X20.  On an adapter that accepts every call, when the loaded items have
    pairwise distinct identifiers, [updateComparison] returns whether some
    loaded item has the identifier, and [getHistory] then returns the former
    list, in the same order, with the updates applied to that item and to no
    other. *)
Theorem update_then_load id0 updates (w : World) :
  NoDup (map History.id (dedup (History.items w))) ->
  exists w1 w2,
    History.updateComparison adapter id0 updates w
    = (Ret (existsb (fun x => String.eqb (History.id x) id0) (dedup (History.items w))), w1)
    /\ getHistory w1
       = (Ret (map (fun x => if String.eqb (History.id x) id0
                             then History.applyUpdates x updates else x)
                 (dedup (History.items w))), w2)
    /\ History.others w1 = History.others w.
Proof.
  intros Hids.
  destruct (getHistory_settles w) as (w0 & E0 & Hi0 & Ho0 & Hq0).
  destruct (deduplicated_shape (History.items w)) as [Hnd Hs].
  set (l := dedup (History.items w)) in *.
  set (f := fun x => if String.eqb (History.id x) id0
                     then History.applyUpdates x updates else x).
  assert (Hkey : forall x, History.keyOf (f x) = History.keyOf x)
    by (intros x; unfold f; destruct (String.eqb _ _); reflexivity).
  assert (Htime : forall x, History.timestamp (f x) = History.timestamp x)
    by (intros x; unfold f; destruct (String.eqb _ _); reflexivity).
  unfold History.updateComparison, tryCatch at 1, bind at 1. rewrite E0.
  assert (Hmap : History.byId l = map (fun x => (History.id x, x)) l).
  { unfold History.byId. now rewrite byId_fresh. }
  rewrite Hmap.
  destruct (JsMap.get id0 (map (fun x => (History.id x, x)) l)) as [existing|] eqn:Eg.
  - apply get_in in Eg. apply in_map_iff in Eg. destruct Eg as (x & Hx & Hin).
    injection Hx as Hid <-.
    assert (Hex : existsb (fun y => String.eqb (History.id y) id0) l = true).
    { apply existsb_exists. exists x. split; [exact Hin|]. now apply String.eqb_eq. }
    rewrite Hex.
    unfold tryCatch, bind, History.setItem, ret. accept Haccepting.
    match goal with
    | |- exists w1 w2, (_, ?y) = (_, w1) /\ _ => exists y, (History.called false y)
    end.
    split; [reflexivity|]. split; [|exact Ho0].
    assert (Hvals : JsMap.values
                      (JsMap.set id0 (History.applyUpdates x updates)
                         (map (fun y => (History.id y, y)) l))
                    = map f l).
    { rewrite set_values_unique; [|exact Hids | rewrite <- Hid; now apply in_map].
      apply map_ext_in. intros y Hy. unfold f.
      destruct (String.eqb_spec (History.id y) id0) as [E | _]; [|reflexivity].
      f_equal. apply (distinct_injective History.id l); auto. congruence. }
    rewrite Hvals. apply getHistory_written; [| now apply map_sorted | reflexivity].
    rewrite map_map. erewrite map_ext; [exact Hnd | exact Hkey].
  - assert (Hex : existsb (fun y => String.eqb (History.id y) id0) l = false).
    { apply not_true_is_false. intros H. apply existsb_exists in H.
      destruct H as (x & Hin & Hx). apply String.eqb_eq in Hx.
      apply get_none in Eg. apply Eg. unfold JsMap.keys. rewrite map_map. cbn [fst].
      rewrite <- Hx. now apply in_map. }
    rewrite Hex. exists w0, (History.called false w0).
    split; [reflexivity|]. split; [|exact Ho0].
    assert (Hsame : map f l = l).
    { rewrite <- (map_id l) at 2. apply map_ext_in. intros y Hy. unfold f.
      destruct (String.eqb (History.id y) id0) eqn:E; [|reflexivity].
      exfalso. apply not_true_iff_false in Hex. apply Hex. apply existsb_exists. eauto. }
    rewrite Hsame. unfold l. rewrite <- Hi0. now apply getHistory_quiet.
Qed.

(** X21.  On an adapter that accepts every call, [getHistoryStats] reports
    the number of items that [getHistory] returns, the bytes of the slot as
    the load left it, and these bytes plus those of the other keys as the
    total. *)
Theorem getHistoryStats_reports (w : World) :
  exists w1 w2 stats,
    getHistory w = (Ret (dedup (History.items w)), w1)
    /\ History.getHistoryStats adapter w = (Ret stats, w2)
    /\ History.count stats = Z.of_nat (length (dedup (History.items w)))
    /\ History.ownSize stats = History.ownBytes w1
    /\ History.totalSize stats = History.ownBytes w1 + History.sumZ (History.others w)
    /\ History.sameStore w1 w2.
Proof.
  destruct (getHistory_settles w) as (w1 & E1 & Hi1 & Ho1 & _).
  destruct (getStorageSize_spec adapter w1) as (z2 & w2 & E2 & S2 & A2).
  destruct (getTotalStorageSize_spec adapter w2) as (z3 & w3 & E3 & S3 & A3).
  specialize (A2 Haccepting). specialize (A3 Haccepting).
  exists w1, w3. eexists. split; [exact E1|].
  unfold History.getHistoryStats, tryCatch, bind. rewrite E1, E2, E3.
  split; [reflexivity|]. cbn [History.count History.ownSize History.totalSize].
  split; [reflexivity|]. split; [exact A2|]. split.
  - destruct S2 as (Hs2 & Ho2 & _). unfold History.ownBytes in *.
    rewrite A3, Hs2, Ho2, Ho1. reflexivity.
  - eapply sameStore_trans; eauto.
Qed.

(** The map that [saveComparison] builds has one item per normalized
    input. *)
Lemma withoutInput_distinct key l :
  NoDup (map History.keyOf (JsMap.values (History.withoutInput key l))).
Proof.
  rewrite withoutInput_filter.
  destruct (keepMostRecent_fold
              (filter (fun item => negb (String.eqb (History.keyOf item) key)) l) [] [])
    as (Hnd & Hin & _).
  { constructor. } { intros k0 v0 []. } { intros x []. }
  rewrite keys_of_values; [exact Hnd|]. intros k v Hkv. now apply Hin in Hkv.
Qed.

(** X22.  On an adapter that accepts every call, when the candidate passes
    the validation, no stored item is more recent than the call and the
    adapter has room for the new history under [MAX_TOTAL_SIZE],
    [saveComparison] returns the candidate and [getHistory] then returns it
    first, followed by formerly stored items with other normalized inputs,
    all with pairwise distinct normalized inputs. *)
Theorem save_then_load i r t n now rnd (w : World) :
  let saved := History.candidate i r t n now rnd in
  ~ History.rejected saved ->
  (forall x, In x (History.items w) -> History.timestamp x <= now) ->
  History.sumZ (History.others w)
  + History.blobBytes (History.serialize (History.merged saved (dedup (History.items w))))
  <= History.MAX_TOTAL_SIZE ->
  exists w1 w2 rest,
    History.saveComparison adapter i r t n now rnd w = (Ret (Some saved), w1)
    /\ getHistory w1 = (Ret (saved :: rest), w2)
    /\ (forall y, In y rest ->
        In y (History.items w)
        /\ History.keyOf y <> History.keyOf saved
        /\ History.timestamp y <= now)
    /\ NoDup (map History.keyOf (saved :: rest)).
Proof.
  intros saved Hn Hts Hroom.
  destruct (save_accepting adapter Haccepting i r t n now rnd w Hn) as (w1 & E1 & Hi1 & _).
  fold saved in E1, Hi1.
  set (loaded := dedup (History.items w)) in *.
  destruct (Z.gtb_spec
              (History.sumZ (History.others w)
               + History.blobBytes (History.serialize (History.merged saved loaded)))
              History.MAX_TOTAL_SIZE) as [Hgt | _]; [lia|].
  assert (Hsize : History.estimateItemSize saved <= History.MAX_ITEM_SIZE).
  { unfold History.rejected in Hn. lia. }
  assert (Hloaded : forall y, In y loaded -> In y (History.items w)).
  { destruct (deduplicateHistory_spec (History.items w)) as (_ & Hsub & _). exact Hsub. }
  set (vals := JsMap.values (History.withoutInput (History.normalize (History.inputText saved))
                               loaded)).
  assert (Hvals : forall y, In y vals ->
                            In y loaded /\ History.keyOf y <> History.keyOf saved).
  { intros y Hy. now apply withoutInput_values in Hy. }
  destruct (sortDesc_head saved vals) as (rest0 & Hsort & Hperm).
  { intros y Hy. apply Hts, Hloaded. now apply Hvals. }
  assert (Hdistinct : NoDup (map History.keyOf (saved :: rest0))).
  { cbn [map]. constructor.
    - intros Hin. apply in_map_iff in Hin. destruct Hin as (y & Hy & Hin).
      apply (Permutation_in _ Hperm) in Hin. apply Hvals in Hin. tauto.
    - apply (Permutation_NoDup (Permutation_map _ (Permutation_sym Hperm))).
      apply withoutInput_distinct. }
  assert (Hsorted : StronglySorted History.newestFirst (saved :: rest0)).
  { rewrite <- Hsort. apply sortDesc_sorted. }
  assert (Hmerged : exists rest, History.merged saved loaded = saved :: rest
                                 /\ incl rest rest0
                                 /\ NoDup (map History.keyOf (saved :: rest))
                                 /\ StronglySorted History.newestFirst (saved :: rest)).
  { unfold History.merged, History.cleanupOldItems. fold vals. rewrite Hsort.
    destruct (cleanupLoop_firstn (saved :: rest0) [] 0) as (k & Hk).
    rewrite cleanupLoop_first in Hk |- * by exact Hsize.
    destruct (cleanupLoop_prefix rest0 [saved] (0 + History.estimateItemSize saved))
      as (rest & Hrest & Hincl).
    exists rest. rewrite Hrest. cbn [app]. split; [reflexivity|]. split; [exact Hincl|].
    rewrite Hrest in Hk. cbn [app] in Hk. rewrite Hk. split.
    - apply firstn_distinct, filter_distinct. exact Hdistinct.
    - apply firstn_sorted, filter_sorted. exact Hsorted. }
  destruct Hmerged as (rest & Hm & Hincl & Hnd & Hs).
  destruct (getHistory_settles w1) as (w2 & E2 & _).
  exists w1, w2, rest. split; [exact E1|]. split; [|split; [|exact Hnd]].
  - rewrite E2, Hi1, Hm. f_equal. f_equal. now apply deduplicate_fixed.
  - intros y Hy. apply Hincl in Hy. apply (Permutation_in _ Hperm) in Hy.
    apply Hvals in Hy. destruct Hy as [Hy Hk]. split; [now apply Hloaded|].
    split; [exact Hk|]. now apply Hts, Hloaded.
Qed.

End HistoryAccepting.

(** X18 on the store written by two accepted calls. *)
Lemma load_is_stable_witness :
  exists l w1 w2,
    History.getHistory Scenarios.healthy Scenarios.twoItems = (Ret l, w1)
    /\ History.getHistory Scenarios.healthy w1 = (Ret l, w2)
    /\ History.sameStore w1 w2
    /\ l = History.deduplicateHistory (History.items Scenarios.twoItems).
Proof.
  apply (load_is_stable Scenarios.healthy
           (fun n => conj eq_refl (conj eq_refl (conj eq_refl eq_refl)))
           Scenarios.twoItems).
Defined.

(** X19: the first of two saved items is deleted. *)
Lemma delete_then_load_witness :
  exists w1 w2,
    History.deleteComparison Scenarios.healthy "1700000000000-k3j9x2a" Scenarios.twoItems
    = (Ret (existsb (fun x => String.eqb (History.id x) "1700000000000-k3j9x2a")
              (History.deduplicateHistory (History.items Scenarios.twoItems))), w1)
    /\ History.getHistory Scenarios.healthy w1
       = (Ret (filter (fun x => negb (String.eqb (History.id x) "1700000000000-k3j9x2a"))
                 (History.deduplicateHistory (History.items Scenarios.twoItems))), w2)
    /\ History.others w1 = History.others Scenarios.twoItems.
Proof.
  apply (delete_then_load Scenarios.healthy
           (fun n => conj eq_refl (conj eq_refl (conj eq_refl eq_refl)))
           "1700000000000-k3j9x2a" Scenarios.twoItems).
Defined.

(** X20: a note is put on the first of two saved items. *)
Lemma update_then_load_witness :
  exists w1 w2,
    History.updateComparison Scenarios.healthy "1700000000000-k3j9x2a"
      {| History.newTags := None; History.newNotes := Some (Some "checked") |}
      Scenarios.twoItems
    = (Ret (existsb (fun x => String.eqb (History.id x) "1700000000000-k3j9x2a")
              (History.deduplicateHistory (History.items Scenarios.twoItems))), w1)
    /\ History.getHistory Scenarios.healthy w1
       = (Ret (map (fun x => if String.eqb (History.id x) "1700000000000-k3j9x2a"
                             then History.applyUpdates x
                                    {| History.newTags := None;
                                       History.newNotes := Some (Some "checked") |}
                             else x)
                 (History.deduplicateHistory (History.items Scenarios.twoItems))), w2)
    /\ History.others w1 = History.others Scenarios.twoItems.
Proof.
  apply (update_then_load Scenarios.healthy
           (fun n => conj eq_refl (conj eq_refl (conj eq_refl eq_refl)))
           "1700000000000-k3j9x2a"
           {| History.newTags := None; History.newNotes := Some (Some "checked") |}
           Scenarios.twoItems).
  vm_compute. repeat constructor; simpl; intuition discriminate.
Defined.

(** X21 on the store written by two accepted calls. *)
Lemma getHistoryStats_reports_witness :
  exists w1 w2 stats,
    History.getHistory Scenarios.healthy Scenarios.twoItems
    = (Ret (History.deduplicateHistory (History.items Scenarios.twoItems)), w1)
    /\ History.getHistoryStats Scenarios.healthy Scenarios.twoItems = (Ret stats, w2)
    /\ History.count stats
       = Z.of_nat (length (History.deduplicateHistory (History.items Scenarios.twoItems)))
    /\ History.ownSize stats = History.ownBytes w1
    /\ History.totalSize stats
       = History.ownBytes w1 + History.sumZ (History.others Scenarios.twoItems)
    /\ History.sameStore w1 w2.
Proof.
  apply (getHistoryStats_reports Scenarios.healthy
           (fun n => conj eq_refl (conj eq_refl (conj eq_refl eq_refl)))
           Scenarios.twoItems).
Defined.

(** X22: a third input is saved after two accepted saves. *)
Lemma save_then_load_witness :
  exists w1 w2 rest,
    History.saveComparison Scenarios.healthy "Receipt 9" (Scenarios.small "C") None None
      1700000001000 "a1b2c3d" Scenarios.twoItems
    = (Ret (Some (History.candidate "Receipt 9" (Scenarios.small "C") None None
                    1700000001000 "a1b2c3d")), w1)
    /\ History.getHistory Scenarios.healthy w1
       = (Ret (History.candidate "Receipt 9" (Scenarios.small "C") None None
                 1700000001000 "a1b2c3d" :: rest), w2)
    /\ (forall y, In y rest ->
        In y (History.items Scenarios.twoItems)
        /\ History.keyOf y
           <> History.keyOf (History.candidate "Receipt 9" (Scenarios.small "C") None None
                               1700000001000 "a1b2c3d")
        /\ History.timestamp y <= 1700000001000)
    /\ NoDup (map History.keyOf
                (History.candidate "Receipt 9" (Scenarios.small "C") None None
                   1700000001000 "a1b2c3d" :: rest)).
Proof.
  apply (save_then_load Scenarios.healthy
           (fun n => conj eq_refl (conj eq_refl (conj eq_refl eq_refl)))
           "Receipt 9" (Scenarios.small "C") None None 1700000001000 "a1b2c3d"
           Scenarios.twoItems).
  - intros [H | H]; vm_compute in H; discriminate.
  - intros x Hx. vm_compute in Hx. destruct Hx as [<- | [<- | []]]; vm_compute; discriminate.
  - vm_compute. discriminate.
Defined.

(** ** The history: queries *)

Section HistoryQueries.

Variable adapter : Adapter.

Local Abbreviation World := History.World.
Local Abbreviation getHistory := (History.getHistory adapter).

(** X23.  [getComparisonById] answers from what [getHistory] returns, for
    every adapter: an item it returns is one of the loaded items and has the
    identifier asked for; it returns nothing only when no loaded item has
    that identifier. *)
Theorem getComparisonById_finds id0 (w : World) :
  exists l w' r,
    getHistory w = (Ret l, w')
    /\ History.getComparisonById adapter id0 w = (Ret r, w')
    /\ match r with
       | Some x => In x l /\ History.id x = id0
       | None => forall x, In x l -> History.id x <> id0
       end.
Proof.
  destruct (getHistory_spec adapter w) as (l & w' & E & _).
  exists l, w', (JsMap.get id0 (History.byId l)). split; [exact E|].
  unfold History.getComparisonById, tryCatch, bind. rewrite E. split; [reflexivity|].
  unfold History.byId. rewrite byId_get. cbn [JsMap.get].
  destruct (find (fun x => String.eqb id0 (History.id x)) (rev l)) as [x|] eqn:Ef.
  - apply find_some in Ef. destruct Ef as [Hin Hid]. apply in_rev in Hin.
    apply String.eqb_eq in Hid. auto.
  - intros x Hin Hid. apply in_rev in Hin.
    pose proof (find_none _ _ Ef x Hin) as Hne. cbv beta in Hne.
    rewrite <- Hid, String.eqb_refl in Hne. discriminate.
Qed.

(** X24.  [searchHistory] does not see the case of the letters of the
    query: two queries with the same lower-case form give the same result
    and the same effect on the store. *)
Theorem search_ignores_case query1 query2 (w : World) :
  Js.toLowerCase query1 = Js.toLowerCase query2 ->
  History.searchHistory adapter query1 w = History.searchHistory adapter query2 w.
Proof.
  intros H.
  assert (He : Js.isEmpty (Js.trim query1) = Js.isEmpty (Js.trim query2)).
  { rewrite <- (trim_lower_empty query1), <- (trim_lower_empty query2). now rewrite H. }
  unfold History.searchHistory. rewrite He, H. reflexivity.
Qed.

(** X25.  [filterByTags] returns the loaded list itself for an empty list
    of tags.  Otherwise it returns the loaded list filtered, the items that
    are kept staying in their order and number; an item is kept exactly when
    it carries a tag whose lower-case form is the lower-case form of one of
    the wanted tags. *)
Theorem filterByTags_selects tags0 (w : World) :
  exists l w' r,
    getHistory w = (Ret l, w')
    /\ History.filterByTags adapter tags0 w = (Ret r, w')
    /\ (tags0 = [] -> r = l)
    /\ (tags0 <> [] ->
        exists keep,
          r = filter keep l
          /\ forall x,
               keep x = true <->
               exists ts tag wanted,
                 History.tags x = Some ts /\ In tag ts /\ In wanted tags0
                 /\ Js.toLowerCase tag = Js.toLowerCase wanted).
Proof.
  destruct (getHistory_spec adapter w) as (l & w' & E & _).
  unfold History.filterByTags, tryCatch, bind. rewrite E.
  destruct tags0 as [|t0 ts0]; cbn [length Nat.eqb].
  - exists l, w', l. repeat split; auto; congruence.
  - exists l, w'. eexists. split; [reflexivity|]. split; [reflexivity|].
    split; [discriminate|]. intros _.
    exists (History.hasTagIn (map Js.toLowerCase (t0 :: ts0))).
    split; [reflexivity|]. intros x. unfold History.hasTagIn.
    split.
    + intros Hx.
      destruct (History.tags x) as [ts|]; [|discriminate].
      apply existsb_exists in Hx. destruct Hx as (tag & Htag & Hx).
      apply existsb_exists in Hx. destruct Hx as (lowered & Hl & Hx).
      apply String.eqb_eq in Hx. apply in_map_iff in Hl. destruct Hl as (wanted & <- & Hw).
      exists ts, tag, wanted. auto.
    + intros (ts & tag & wanted & Hts & Htag & Hw & Heq).
      rewrite Hts. apply existsb_exists. exists tag. split; [exact Htag|].
      apply existsb_exists. exists (Js.toLowerCase wanted).
      split; [now apply in_map | now apply String.eqb_eq].
Qed.

(** X26.  When [removeItem] is accepted, [clearHistory] empties the slot
    without a write and without touching the other keys, and [getHistory]
    then returns the empty list, whatever the adapter does next. *)
Theorem clear_then_load (w : World) :
  onRemove adapter (History.calls w) = None ->
  exists w1 w2,
    History.clearHistory adapter w = (Ret tt, w1)
    /\ History.stored w1 = None
    /\ History.others w1 = History.others w
    /\ History.writes w1 = History.writes w
    /\ getHistory w1 = (Ret [], w2)
    /\ History.stored w2 = None.
Proof.
  intros Hr. destruct w as [st ot n wr]. cbn [History.calls] in Hr.
  set (w1 := {| History.stored := None; History.others := ot;
                History.calls := S n; History.writes := wr |}).
  assert (H : exists w2, getHistory w1 = (Ret [], w2) /\ History.stored w2 = None).
  { cbv [History.getHistory tryCatch bind History.getItem History.removeItem ret w1
         History.calls History.called History.setStored History.stored History.others
         History.writes].
    destruct (onGet adapter (S n)); [destruct (onRemove adapter (S (S n)))|];
      eexists; split; reflexivity. }
  destruct H as (w2 & E2 & H2). exists w1, w2.
  cbv [History.clearHistory tryCatch History.removeItem History.calls History.called
       History.setStored History.stored History.others History.writes].
  rewrite Hr. repeat split; auto.
Qed.

End HistoryQueries.

(** X24 at the queries ["ORDER"] and ["order"]. *)
Lemma search_ignores_case_witness :
  History.searchHistory Scenarios.healthy "ORDER" Scenarios.twoItems
  = History.searchHistory Scenarios.healthy "order" Scenarios.twoItems.
Proof.
  apply (search_ignores_case Scenarios.healthy "ORDER" "order" Scenarios.twoItems).
  reflexivity.
Defined.

(** X26 on the store written by two accepted calls. *)
Lemma clear_then_load_witness :
  exists w1 w2,
    History.clearHistory Scenarios.healthy Scenarios.twoItems = (Ret tt, w1)
    /\ History.stored w1 = None
    /\ History.others w1 = History.others Scenarios.twoItems
    /\ History.writes w1 = History.writes Scenarios.twoItems
    /\ History.getHistory Scenarios.healthy w1 = (Ret [], w2)
    /\ History.stored w2 = None.
Proof.
  apply (clear_then_load Scenarios.healthy Scenarios.twoItems). reflexivity.
Defined.

(** ** The history: refusals and slots that cannot be used *)

Section HistoryFailures.

Variable adapter : Adapter.

Local Abbreviation World := History.World.

(** X27.  When the adapter refuses the write that would follow the load,
    whatever the exception, [deleteComparison] and [updateComparison] return
    [false] and the slot is as the load left it. *)
Theorem refused_write_reports_false id0 updates (w : World) :
  let w1 := snd (History.getHistory adapter w) in
  onSet adapter (History.calls w1) <> None ->
  (fst (History.deleteComparison adapter id0 w) = Ret false
   /\ History.stored (snd (History.deleteComparison adapter id0 w)) = History.stored w1)
  /\ (fst (History.updateComparison adapter id0 updates w) = Ret false
      /\ History.stored (snd (History.updateComparison adapter id0 updates w))
         = History.stored w1).
Proof.
  intros w1 Hset. subst w1.
  destruct (getHistory_spec adapter w) as (l & w1 & E & _).
  rewrite E in *. cbn [snd] in *.
  unfold History.deleteComparison, History.updateComparison, tryCatch, bind, History.setItem,
    ret, throw.
  rewrite E. split.
  - destruct (Nat.eqb _ _); [split; reflexivity|].
    destruct (onSet adapter (History.calls w1)) as [e|]; [|contradiction].
    destruct (History.isQuotaExceededError e); split; reflexivity.
  - destruct (JsMap.get id0 (History.byId l)); [|split; reflexivity].
    destruct (onSet adapter (History.calls w1)) as [e|]; [|contradiction].
    destruct (History.isQuotaExceededError e); split; reflexivity.
Qed.

(** X28.  When the read is refused, or the slot holds a text that does not
    parse or [null], [getHistory] returns the empty list without a write and
    removes the slot when [removeItem] is accepted; when that is refused too
    the slot stays as it was. *)
Theorem load_discards_unusable (w : World) :
  onGet adapter (History.calls w) <> None
  \/ (exists n, History.stored w = Some (History.Unparsable n))
  \/ (exists n, History.stored w = Some (History.ParsedNull n)) ->
  exists w',
    History.getHistory adapter w = (Ret [], w')
    /\ History.others w' = History.others w
    /\ History.writes w' = History.writes w
    /\ (onRemove adapter (S (History.calls w)) = None -> History.stored w' = None)
    /\ (onRemove adapter (S (History.calls w)) <> None ->
        History.stored w' = History.stored w).
Proof.
  intros H. destruct w as [st ot n wr].
  cbn [History.calls History.stored History.others History.writes] in *.
  cbv [History.getHistory tryCatch bind History.getItem History.removeItem ret throw
       History.calls History.called History.setStored History.stored History.others
       History.writes].
  destruct (onGet adapter n) as [e|] eqn:Eg.
  - destruct (onRemove adapter (S n)); eexists; (split; [reflexivity|]); cbn;
      repeat split; auto; try discriminate; intros Hx; contradiction.
  - destruct H as [H | [[b ->] | [b ->]]]; [contradiction| |];
      destruct (onRemove adapter (S n)); eexists; (split; [reflexivity|]); cbn;
      repeat split; auto; try discriminate; intros Hx; contradiction.
Qed.

End HistoryFailures.

(** X27 on the store written by two accepted calls, over an adapter that is
    out of quota. *)
Lemma refused_write_reports_false_witness :
  (fst (History.deleteComparison Scenarios.quotaOnSet "1700000000000-k3j9x2a"
          Scenarios.twoItems) = Ret false
   /\ History.stored
        (snd (History.deleteComparison Scenarios.quotaOnSet "1700000000000-k3j9x2a"
                Scenarios.twoItems))
      = History.stored (snd (History.getHistory Scenarios.quotaOnSet Scenarios.twoItems)))
  /\ (fst (History.updateComparison Scenarios.quotaOnSet "1700000000000-k3j9x2a"
             {| History.newTags := None; History.newNotes := Some (Some "checked") |}
             Scenarios.twoItems) = Ret false
      /\ History.stored
           (snd (History.updateComparison Scenarios.quotaOnSet "1700000000000-k3j9x2a"
                   {| History.newTags := None; History.newNotes := Some (Some "checked") |}
                   Scenarios.twoItems))
         = History.stored (snd (History.getHistory Scenarios.quotaOnSet Scenarios.twoItems))).
Proof.
  apply (refused_write_reports_false Scenarios.quotaOnSet "1700000000000-k3j9x2a"
           {| History.newTags := None; History.newNotes := Some (Some "checked") |}
           Scenarios.twoItems).
  vm_compute. discriminate.
Defined.

(** X28 on a slot that does not parse. *)
Lemma load_discards_unusable_witness :
  exists w',
    History.getHistory Scenarios.healthy Scenarios.garbled = (Ret [], w')
    /\ History.others w' = History.others Scenarios.garbled
    /\ History.writes w' = History.writes Scenarios.garbled
    /\ (onRemove Scenarios.healthy (S (History.calls Scenarios.garbled)) = None ->
        History.stored w' = None)
    /\ (onRemove Scenarios.healthy (S (History.calls Scenarios.garbled)) <> None ->
        History.stored w' = History.stored Scenarios.garbled).
Proof.
  apply (load_discards_unusable Scenarios.healthy Scenarios.garbled).
  right. left. exists 7. reflexivity.
Defined.

(** ** The history: a save that stores nothing *)

Section HistoryUnstored.

Variable adapter : Adapter.

Local Abbreviation World := History.World.

(** The history that a save builds from an empty one. *)
Lemma merged_alone saved :
  History.estimateItemSize saved <= History.MAX_ITEM_SIZE ->
  History.merged saved [] = [saved].
Proof.
  intros Hsize. unfold History.merged, History.cleanupOldItems.
  cbn [History.withoutInput fold_left JsMap.values map History.sortDesc fold_right
       History.insertDesc].
  now rewrite cleanupLoop_first.
Qed.

(** X29.  Saving into a history that loads as empty, when the first write
    is refused with a quota exception and the second is accepted:
    [saveComparison] returns the candidate, yet the slot then holds the
    empty list and [getHistory] returns nothing.  (The retry keeps
    [floor(0.7 * 1) = 0] items of a history of one.) *)
Theorem save_unstored_after_quota i r t n now rnd (w : World) e :
  let saved := History.candidate i r t n now rnd in
  let w3 := snd (History.getStorageSize adapter
                   (snd (History.getTotalStorageSize adapter
                           (snd (History.getHistory adapter w))))) in
  ~ History.rejected saved ->
  fst (History.getHistory adapter w) = Ret [] ->
  onSet adapter (History.calls w3) = Some e ->
  History.isQuotaExceededError e = true ->
  onSet adapter (S (History.calls w3)) = None ->
  exists w',
    History.saveComparison adapter i r t n now rnd w = (Ret (Some saved), w')
    /\ History.stored w' = Some (History.serialize [])
    /\ fst (History.getHistory adapter w') = Ret [].
Proof.
  intros saved w3 Hn Hload Hset He Hretry. subst w3.
  destruct (History.getHistory adapter w) as [r1 w1] eqn:E1.
  cbn [fst snd] in *. subst r1.
  destruct (getTotalStorageSize_spec adapter w1) as (z2 & w2 & E2 & _).
  rewrite E2 in *. cbn [snd] in *.
  destruct (getStorageSize_spec adapter w2) as (z3 & w3 & E3 & _).
  rewrite E3 in *. cbn [snd] in *.
  rewrite (save_unfold adapter i r t n now rnd w w1 w2 w3 [] z2 z3 Hn E1 E2 E3).
  cbv zeta. fold saved. rewrite Hset, He, Hretry.
  assert (Hsize : History.estimateItemSize saved <= History.MAX_ITEM_SIZE).
  { unfold History.rejected in Hn. lia. }
  rewrite (merged_alone saved Hsize).
  assert (Hnothing :
            History.cleanupOldItems
              (firstn
                 (History.aggressiveKeep
                    (length
                       (if z2 - z3 + History.blobBytes (History.serialize [saved])
                           >? History.MAX_TOTAL_SIZE
                        then History.cleanupOldItems
                               (firstn (History.pruningKeep (length [saved])) [saved])
                        else [saved])))
                 (if z2 - z3 + History.blobBytes (History.serialize [saved])
                     >? History.MAX_TOTAL_SIZE
                  then History.cleanupOldItems
                         (firstn (History.pruningKeep (length [saved])) [saved])
                  else [saved]))
            = []).
  { destruct (_ >? History.MAX_TOTAL_SIZE); reflexivity. }
  rewrite Hnothing. eexists. split; [reflexivity|]. split; [reflexivity|].
  match goal with
  | |- fst (History.getHistory adapter ?x) = _ =>
      destruct (getHistory_spec adapter x) as (l & w' & E & _ & _ & H); rewrite E
  end.
  cbn [fst]. f_equal.
  destruct H as [(_ & -> & _) | (_ & -> & _)]; reflexivity.
Qed.

End HistoryUnstored.

(** X29 on an empty profile: the three reads are the calls [0], [1] and [2],
    the first write is the call [3], which is refused for quota, and the
    retry is accepted. *)
Lemma save_unstored_after_quota_witness :
  exists w',
    History.saveComparison (Scenarios.quotaOnce 3) "Order 123" (Scenarios.small "A")
      None None 1700000000000 "k3j9x2a" (History.empty [])
    = (Ret (Some (History.candidate "Order 123" (Scenarios.small "A") None None
                    1700000000000 "k3j9x2a")), w')
    /\ History.stored w' = Some (History.serialize [])
    /\ fst (History.getHistory (Scenarios.quotaOnce 3) w') = Ret [].
Proof.
  apply (save_unstored_after_quota (Scenarios.quotaOnce 3) "Order 123" (Scenarios.small "A")
           None None 1700000000000 "k3j9x2a" (History.empty []) QuotaExceeded).
  - intros [H | H]; vm_compute in H; discriminate.
  - reflexivity.
  - reflexivity.
  - reflexivity.
  - reflexivity.
Defined.

(** ** Texts outside ASCII *)

(** An input of one NO-BREAK SPACE is rejected without a call, and as a
    query it makes [searchHistory] return what [getHistory] returns. *)
Lemma blank_text_outside_ascii :
  History.saveComparison Scenarios.healthy Scenarios.nbsp (Scenarios.small "A")
    None None 1700000000000 "k3j9x2a" (History.empty [])
  = (Ret None, History.empty [])
  /\ History.searchHistory Scenarios.healthy Scenarios.nbsp Scenarios.twoItems
     = History.getHistory Scenarios.healthy Scenarios.twoItems.
Proof. vm_compute. split; reflexivity. Qed.

(** Of two stored spellings that differ by the case of a letter outside
    ASCII, [getHistory] returns the more recent one alone. *)
Lemma spellings_deduplicated :
  map History.inputText
    (History.deduplicateHistory (History.items Scenarios.twoSpellings))
  = [Scenarios.ecoleLower]
  /\ exists y w',
       History.getHistory Scenarios.healthy Scenarios.twoSpellings = (Ret [y], w')
       /\ History.inputText y = Scenarios.ecoleLower
       /\ History.timestamp y = 1700000000500.
Proof.
  split; [vm_compute; reflexivity|].
  eexists. eexists. split; [vm_compute; reflexivity|]. split; reflexivity.
Qed.

(** Saving the second spelling over the first leaves the second alone. *)
Lemma spelling_resaved :
  exists y w',
    History.getHistory Scenarios.healthy
      (Scenarios.after
         (History.saveComparison Scenarios.healthy Scenarios.ecoleLower
            (Scenarios.small "B") None None 1700000000500 "p0q8r5t")
         Scenarios.oneSpelling)
    = (Ret [y], w')
    /\ History.inputText y = Scenarios.ecoleLower
    /\ History.result y = Scenarios.small "B".
Proof.
  eexists. eexists. split; [vm_compute; reflexivity|]. split; reflexivity.
Qed.

(** A wanted tag finds the item whose tag differs from it by the case of a
    letter outside ASCII. *)
Lemma tag_outside_ascii :
  exists y w',
    History.filterByTags Scenarios.healthy [Js.fromCodePoint 233] Scenarios.oneSpelling
    = (Ret [y], w')
    /\ History.tags y = Some [Js.fromCodePoint 201].
Proof.
  eexists. eexists. split; [vm_compute; reflexivity|]. reflexivity.
Qed.
